(** * pypicloud access backend: a shallow embedding of [pypicloud/access/base.py]

    The development follows the layout of the Python module: the helpers
    at module level, the read-only base class [IAccessBackend], the
    signup-token protocol and [load] of [IMutableAccessBackend].  The
    abstract methods of the two classes (the ones whose body is
    [raise NotImplementedError]) are the fields of two type classes over
    the storage type of a backend; [Store] is a reference storage for
    them.  Strings are byte strings, [time.time()] is a rational, the
    keyed hash is a parameter. *)

From stdpp Require Import base strings list gmap sets.
From Stdlib Require Import ZArith QArith Ascii String DecimalString DecimalZ.

Local Close Scope Q_scope.
Local Open Scope string_scope.
Local Open Scope list_scope.

(** ** The fragment of the Python runtime used by the module *)

(** Exceptions that the modelled code can raise by itself. *)
Inductive exn : Type :=
  | IndexError
  | ValueError
  | RuntimeError.

(** A Python computation either returns or raises. *)
Inductive result (A : Type) : Type :=
  | Return (a : A)
  | Raise (e : exn).
Arguments Return {A} a.
Arguments Raise {A} e.

#[global] Instance result_ret : MRet result := λ A a, Return a.
#[global] Instance result_bind : MBind result := λ A B k m,
  match m with
  | Return a => k a
  | Raise e => Raise e
  end.

(** A [dict] with string keys.  Python dictionaries iterate in insertion
    order and [d[k] = v] on a key that is present overwrites the value
    where the key already sits, so the model is an association list. *)
Abbreviation dict V := (list (string * V)).

Fixpoint dict_get {V} (k : string) (d : dict V) : option V :=
  match d with
  | [] => None
  | (k', v) :: d' => if decide (k' = k) then Some v else dict_get k d'
  end.

Fixpoint dict_setitem {V} (k : string) (v : V) (d : dict V) : dict V :=
  match d with
  | [] => [(k, v)]
  | (k', v') :: d' =>
      if decide (k' = k) then (k', v) :: d' else (k', v') :: dict_setitem k v d'
  end.

(** Truth value of a dictionary: [not all_perms] holds of the empty one. *)
Definition dict_is_empty {V} (d : dict V) : bool :=
  match d with [] => true | _ => false end.

Definition dict_keys {V} (d : dict V) : list string := d.*1.

(** [x in xs] for a list or tuple of strings. *)
Definition str_in (x : string) (xs : list string) : bool := bool_decide (x ∈ xs).

(** The pyramid constants imported by the module. *)
Definition Everyone : string := "system.Everyone".
Definition Authenticated : string := "system.Authenticated".
Definition Allow : string := "Allow".

(** ** Module-level helpers *)

Definition group_to_principal (group : string) : string :=
  if str_in group [Everyone; Authenticated] || String.prefix "group:" group
  then group
  else if decide (group = "everyone") then Everyone
  else if decide (group = "authenticated") then Authenticated
  else "group:" +:+ group.

Definition groups_to_principals (groups : list string) : list string :=
  map group_to_principal groups.

Definition ONE_WEEK : Z := 60 * 60 * 24 * 7.

(** ** The backend object *)

(** What the code reads off [self.request]: the [userid] attribute and
    pyramid's [effective_principals(request)]. *)
Record Request : Type := {
  userid : option string;
  effective_principals : list string;
}.

(** The passlib context.  [verify] raises on a hash it cannot identify,
    hence the [result]. *)
Record PwdContext : Type := {
  pwd_verify : string → string → result bool;
  pwd_hash : string → string;
}.

(** The attributes that [__init__] stores, next to the storage the
    subclass manages. *)
Record Backend (St : Type) : Type := {
  request : Request;
  default_read : list string;
  default_write : list string;
  cache_update : list string;
  pwd_context : PwdContext;
  token_expiration : Z;
  signing_key : option string;
  storage : St;
}.
Arguments request {St} _.
Arguments default_read {St} _.
Arguments default_write {St} _.
Arguments cache_update {St} _.
Arguments pwd_context {St} _.
Arguments token_expiration {St} _.
Arguments signing_key {St} _.
Arguments storage {St} _.

Definition with_storage {St St'} (self : Backend St) (st : St') : Backend St' :=
  {| request := request self;
     default_read := default_read self;
     default_write := default_write self;
     cache_update := cache_update self;
     pwd_context := pwd_context self;
     token_expiration := token_expiration self;
     signing_key := signing_key self;
     storage := st |}.

(** The record [user_data(username)] returns. *)
Record UserData : Type := {
  ud_username : string;
  ud_admin : bool;
  ud_groups : list string;
}.

(** The abstract query methods of [IAccessBackend], together with the
    class attribute [mutable].  [groups] and [user_data] are the forms
    with a username; [user_data] answers [None] for a user it does not
    list. *)
Class IAccessBackend (St : Type) : Type := {
  mutable : bool;
  _get_password_hash : St → string → option string;
  groups : St → string → list string;
  group_members : St → string → list string;
  is_admin : St → string → bool;
  group_permissions : St → string → dict (list string);
  user_permissions : St → string → dict (list string);
  user_data : St → string → option UserData;
}.

Section access.
Context {St : Type} `{!IAccessBackend St}.
Implicit Types (self : Backend St) (package perm username group : string).

(** The two loops of [allowed_permissions] over the explicit grants. *)
Definition explicit_permissions self package : dict (list string) :=
  let all_perms :=
    foldl (λ all_perms '(user, perms), dict_setitem ("user:" +:+ user) perms all_perms)
          [] (user_permissions (storage self) package) in
  foldl (λ all_perms '(group, perms),
           dict_setitem (group_to_principal group) perms all_perms)
        all_perms (group_permissions (storage self) package).

Definition allowed_permissions self package : dict (list string) :=
  let all_perms := explicit_permissions self package in
  if dict_is_empty all_perms then
    let all_perms :=
      foldl (λ all_perms principal, dict_setitem principal ["read"] all_perms)
            all_perms (groups_to_principals (default_read self)) in
    foldl (λ all_perms principal,
             match dict_get principal all_perms with
             | Some perms => dict_setitem principal (perms ++ ["write"]) all_perms
             | None => dict_setitem principal ["write"] all_perms
             end)
          all_perms (groups_to_principals (default_write self))
  else all_perms.

Definition get_acl self package : list (string * string * string) :=
  let permissions := allowed_permissions self package in
  foldl (λ acl '(principal, perms),
           foldl (λ acl perm, acl ++ [(Allow, principal, perm)]) acl perms)
        [] permissions.

Definition has_permission self package perm : bool :=
  let current_userid := userid (request self) in
  if match current_userid with
     | Some u => is_admin (storage self) u
     | None => false
     end
  then true
  else
    let perms := allowed_permissions self package in
    existsb (λ principal, str_in perm (default [] (dict_get principal perms)))
            (effective_principals (request self)).

Definition user_principals self username : list string :=
  let principals := ["user:" +:+ username; Everyone; Authenticated] in
  let principals :=
    if is_admin (storage self) username then principals ++ ["admin"] else principals in
  foldl (λ principals group, principals ++ ["group:" +:+ group])
        principals (groups (storage self) username).

(** [username] is [None] for the anonymous user. *)
Definition in_group self (username : option string) group : bool :=
  if str_in group ["everyone"; Everyone] then true
  else match username with
       | None => false
       | Some username =>
           if str_in group ["authenticated"; Authenticated] then true
           else if bool_decide (group = "admin") && is_admin (storage self) username
           then true
           else str_in group (groups (storage self) username)
       end.

Definition in_any_group self (username : option string) (groups : list string) : bool :=
  existsb (in_group self username) groups.

Definition can_update_cache self : bool :=
  in_any_group self (userid (request self)) (cache_update self).

(** Truth value of [stored_pw]: neither [None] nor the empty string. *)
Definition truthy_hash (stored_pw : option string) : option string :=
  match stored_pw with
  | Some h => if decide (h = "") then None else Some h
  | None => None
  end.

Definition verify_user self username (password : string) : result bool :=
  let stored_pw := _get_password_hash (storage self) username in
  let check :=
    match truthy_hash stored_pw with
    | Some h => pwd_verify (pwd_context self) password h
    | None => Return false
    end in
  if mutable then
    match user_data (storage self) username with
    | None => Return false
    | Some _ => check
    end
  else check.
End access.

(** ** Signup tokens *)

(** [s.split(sep)] for a one-character separator: never empty. *)
Fixpoint str_split (sep : ascii) (s : string) : list string :=
  match s with
  | EmptyString => [EmptyString]
  | String c s' =>
      match str_split sep s' with
      | piece :: pieces =>
          if decide (c = sep) then EmptyString :: piece :: pieces
          else String c piece :: pieces
      | [] => [String c EmptyString]
      end
  end.

(** [l.pop()]: the last element, and the list without it. *)
Definition list_pop {A} (l : list A) : result (A * list A) :=
  match last l with
  | Some x => Return (x, removelast l)
  | None => Raise IndexError
  end.

(** [l[i]] for a non-negative index. *)
Definition list_getitem {A} (l : list A) (i : nat) : result A :=
  match l !! i with
  | Some x => Return x
  | None => Raise IndexError
  end.

(** The white space that [int] strips from an ASCII string: the space
    and the five characters from tab to carriage return.  The separators
    [0x1c] to [0x1f], which [str.isspace] counts as white space, are not
    stripped. *)
Definition is_space (c : ascii) : bool :=
  let n := nat_of_ascii c in
  ((9 <=? n) && (n <=? 13) || (n =? 32))%nat.

Definition is_digit (c : ascii) : bool :=
  let n := nat_of_ascii c in ((48 <=? n) && (n <=? 57))%nat.

Fixpoint lstrip (s : string) : string :=
  match s with
  | EmptyString => EmptyString
  | String c s' => if is_space c then lstrip s' else s
  end.

Fixpoint rstrip (s : string) : string :=
  match s with
  | EmptyString => EmptyString
  | String c s' =>
      match rstrip s' with
      | EmptyString => if is_space c then EmptyString else String c EmptyString
      | r => String c r
      end
  end.

(** The digits of an integer literal: at least one digit, and single
    underscores only between two digits (they are dropped). *)
Fixpoint int_digits (after_digit : bool) (s : string) : option string :=
  match s with
  | EmptyString => if after_digit then Some EmptyString else None
  | String c s' =>
      if is_digit c then String c <$> int_digits true s'
      else if bool_decide (c = "_"%char) && after_digit then int_digits false s'
      else None
  end.

(** [int(s)] in base ten as CPython 3 computes it on an ASCII string
    whose digits stay within the limit of the interpreter (4300 by
    default from CPython 3.11): [ValueError] on anything that is not an
    integer literal.  Outside ASCII [int] also reads the decimal digits
    and the white space of Unicode, which this function does not: a
    theorem whose statement depends on what [int] makes of an arbitrary
    string assumes the string to be ASCII and within the limit
    ([str_ascii], [INT_MAX_STR_DIGITS]). *)
Definition py_int (s : string) : result Z :=
  let s := rstrip (lstrip s) in
  let '(negative, body) :=
    match s with
    | String "-" body => (true, body)
    | String "+" body => (false, body)
    | _ => (false, s)
    end in
  match int_digits false body ≫= NilEmpty.uint_of_string with
  | Some d => Return (if negative : bool then - Z.of_uint d else Z.of_uint d)%Z
  | None => Raise ValueError
  end.

(** Every character of the string is an ASCII character. *)
Fixpoint str_ascii (s : string) : bool :=
  match s with
  | EmptyString => true
  | String c s' => (nat_of_ascii c <? 128)%nat && str_ascii s'
  end.

(** The default of [sys.get_int_max_str_digits()]. *)
Definition INT_MAX_STR_DIGITS : nat := 4300.

(** [int(x)] on a number: truncation towards zero.  [time.time()] is a
    float, that is a rational, and Python compares it with an integer
    exactly. *)
Definition py_trunc (x : Q) : Z := Z.quot (Qnum x) (Z.pos (Qden x)).

(** ["%d" % x]. *)
Definition format_d (x : Q) : string := NilZero.string_of_int (Z.to_int (py_trunc x)).

Definition Qltb (x y : Q) : bool := negb (Qle_bool y x).

Definition hex_digit (n : N) : ascii :=
  ascii_of_N (if (n <? 10)%N then 48 + n else 87 + n).

(** [hexdigest()]: two lower-case hexadecimal digits per byte. *)
Fixpoint hexlify (bytes : string) : string :=
  match bytes with
  | EmptyString => EmptyString
  | String b bytes' =>
      let n := N_of_ascii b in
      String (hex_digit (n / 16)) (String (hex_digit (n mod 16)) (hexlify bytes'))
  end.

(** [hmac.new(key, msg, hashlib.sha256).digest()], the 32 raw bytes. *)
Class HmacSha256 : Type := hmac_sha256 : string → string → string.

Section tokens.
Context {St : Type} {hmac : HmacSha256}.
Implicit Types (self : Backend St) (username token : string).

Definition _hmac self username (timestamp : Q) : result (string * string) :=
  match signing_key self with
  | None => Raise RuntimeError
  | Some key =>
      let msg := username +:+ ":" +:+ format_d timestamp in
      Return (msg, hexlify (hmac_sha256 key msg))
  end.

(** [now] is the value of [time.time()]. *)
Definition get_signup_token self username (now : Q) : result string :=
  '(msg, signature) ← _hmac self username now;
  Return (msg +:+ ":" +:+ signature).

Definition validate_signup_token self token (now : Q) : result (option string) :=
  match signing_key self with
  | None => Return None
  | Some _ =>
      let pieces := str_split ":" token in
      '(signature, pieces) ← list_pop pieces;
      username ← list_getitem pieces 0;
      issued_str ← list_getitem pieces 1;
      issued ← py_int issued_str;
      if Qltb (inject_Z (issued + token_expiration self)) now then Return None
      else
        '(_, expected) ← _hmac self username (inject_Z issued);
        if bool_decide (signature = expected) then Return (Some username)
        else Return None
  end.
End tokens.

(** ** Mutable backends and [load] *)

(** The abstract methods of [IMutableAccessBackend] that [load] calls.
    A mutation takes the storage to the storage after the call; a fault
    of the storage layer is outside the model. *)
Class IMutableAccessBackend (St : Type) `{!IAccessBackend St} : Type := {
  pending_users : St → list string;
  _register : string → string → St → St;
  approve_user : string → St → St;
  set_user_admin : string → bool → St → St;
  create_group : string → St → St;
  edit_user_group : string → string → bool → St → St;
  edit_group_permission : string → string → string → bool → St → St;
  edit_user_permission : string → string → string → bool → St → St;
  set_allow_register : bool → St → St;
}.

(** An entry of [data["users"]] or [data["pending_users"]]; the key
    ["admin"] may be missing ([user.get("admin", False)]). *)
Record SnapshotUser : Type := {
  su_username : string;
  su_password : string;
  su_admin : option bool;
}.

(** The dictionary [load] receives.  [data_pending_users] is [None] when
    the key is missing ([data.get("pending_users", [])]). *)
Record Snapshot : Type := {
  data_users : list SnapshotUser;
  data_groups : dict (list string);
  data_pending_users : option (list SnapshotUser);
  data_packages_groups : dict (dict (list string));
  data_packages_users : dict (dict (list string));
  data_allow_register : bool;
}.

(** A [for] loop whose body updates the storage. *)
Definition for_each {A St} (l : list A) (body : A → St → St) (st : St) : St :=
  foldl (λ st a, body a st) st l.

(** [set(members) - set(current_members)], iterated in the order of
    [members]. *)
Definition set_difference (members current_members : list string) : list string :=
  remove_dups (filter (λ member, member ∉ current_members) members).

Section load.
Context {St : Type} `{!IAccessBackend St} `{!IMutableAccessBackend St}.

(** The closure [user_exists]: [pending] is the set computed when
    [load] starts, [user_data] is asked of the storage as it is now. *)
Definition user_exists (pending : list string) (st : St) (username : string) : bool :=
  str_in username pending || bool_decide (is_Some (user_data st username)).

(** One round of the loop over [data["users"]]. *)
Definition load_user (pending : list string) (user : SnapshotUser) (st : St) : St :=
  let st :=
    if user_exists pending st (su_username user) then st
    else approve_user (su_username user)
           (_register (su_username user) (su_password user) st) in
  set_user_admin (su_username user) (default false (su_admin user)) st.

Definition load_users (pending : list string) (users : list SnapshotUser) : St → St :=
  for_each users (load_user pending).

(** One round of the loop over [data["groups"]]. *)
Definition load_group (group : string) (members : list string) (st : St) : St :=
  let st :=
    match group_members st group with
    | [] => create_group group st
    | _ => st
    end in
  let current_members := group_members st group in
  let add_members := set_difference members current_members in
  for_each add_members (λ member, edit_user_group member group true) st.

Definition load_groups (groups : dict (list string)) : St → St :=
  for_each groups (λ '(group, members), load_group group members).

(** One round of the loop over [data["pending_users"]]. *)
Definition load_pending_user (pending : list string) (user : SnapshotUser) (st : St) : St :=
  if user_exists pending st (su_username user) then st
  else _register (su_username user) (su_password user) st.

Definition load_pending_users (pending : list string) (users : list SnapshotUser)
    : St → St :=
  for_each users (load_pending_user pending).

Definition load_group_permissions (packages : dict (dict (list string))) : St → St :=
  for_each packages (λ '(package, groups),
    for_each groups (λ '(group, permissions),
      for_each permissions (λ perm, edit_group_permission package group perm true))).

Definition load_user_permissions (packages : dict (dict (list string))) : St → St :=
  for_each packages (λ '(package, users),
    for_each users (λ '(user, permissions),
      for_each permissions (λ perm, edit_user_permission package user perm true))).

Definition load_storage (data : Snapshot) (st : St) : St :=
  let pending := pending_users st in
  let st := load_users pending (data_users data) st in
  let st := load_groups (data_groups data) st in
  let st := load_pending_users pending (default [] (data_pending_users data)) st in
  let st := load_group_permissions (data_packages_groups data) st in
  let st := load_user_permissions (data_packages_users data) st in
  set_allow_register (data_allow_register data) st.

Definition load (self : Backend St) (data : Snapshot) : Backend St :=
  with_storage self (load_storage data (storage self)).
End load.

(** The shape that the two loops over the declared grants share. *)
Definition load_permissions {St} (edit : string → string → string → bool → St → St)
    (packages : dict (dict (list string))) : St → St :=
  for_each packages (λ '(package, names),
    for_each names (λ '(name, permissions),
      for_each permissions (λ perm, edit package name perm true))).

(** ** A reference store *)

Inductive Status : Type := Pending | Approved.

#[global] Instance Status_eq_dec : EqDecision Status.
Proof. solve_decision. Defined.

Record UserRecord : Type := {
  ur_password : string;
  ur_admin : bool;
  ur_status : Status;
}.

(** Modelled from the spec: the storage behind the abstract methods,
    which the concrete backends of the repository implement.  Users are
    keyed by username and carry hash, admin flag and status; a group is a
    name with a set of usernames; grants are kept per package as sets, one
    for users and one for groups, so that no package exists without a
    grant. *)
Record Store : Type := {
  st_users : gmap string UserRecord;
  st_groups : gmap string (gset string);
  st_group_grants : gset (string * string * string);
  st_user_grants : gset (string * string * string);
  st_allow_register : bool;
}.

Definition empty_store : Store :=
  {| st_users := ∅; st_groups := ∅; st_group_grants := ∅; st_user_grants := ∅;
     st_allow_register := false |}.

Definition store_members (st : Store) (group : string) : gset string :=
  default ∅ (st_groups st !! group).

Definition store_groups_of (st : Store) (username : string) : list string :=
  (map_to_list (filter (λ entry, username ∈ entry.2) (st_groups st))).*1.

(** The grants of one package as the dictionary the query methods
    return: principal name to list of permissions. *)
Definition grants_dict (grants : gset (string * string * string)) (package : string)
    : dict (list string) :=
  foldl (λ d '(pkg, name, perm),
           if decide (pkg = package)
           then dict_setitem name (default [] (dict_get name d) ++ [perm]) d
           else d)
        [] (elements grants).

(** Modelled from the spec: the query side of the store.  Pending users
    are left out of [user_data]; their hash stays readable. *)
#[global] Instance store_access : IAccessBackend Store := {|
  mutable := true;
  _get_password_hash st username := ur_password <$> st_users st !! username;
  groups := store_groups_of;
  group_members st group := elements (store_members st group);
  is_admin st username :=
    match st_users st !! username with
    | Some u => ur_admin u
    | None => false
    end;
  group_permissions st package := grants_dict (st_group_grants st) package;
  user_permissions st package := grants_dict (st_user_grants st) package;
  user_data st username :=
    match st_users st !! username with
    | Some u =>
        match ur_status u with
        | Approved =>
            Some {| ud_username := username; ud_admin := ur_admin u;
                    ud_groups := store_groups_of st username |}
        | Pending => None
        end
    | None => None
    end;
|}.

Definition store_set_users (f : gmap string UserRecord → gmap string UserRecord)
    (st : Store) : Store :=
  {| st_users := f (st_users st); st_groups := st_groups st;
     st_group_grants := st_group_grants st; st_user_grants := st_user_grants st;
     st_allow_register := st_allow_register st |}.

Definition store_set_groups (f : gmap string (gset string) → gmap string (gset string))
    (st : Store) : Store :=
  {| st_users := st_users st; st_groups := f (st_groups st);
     st_group_grants := st_group_grants st; st_user_grants := st_user_grants st;
     st_allow_register := st_allow_register st |}.

Definition set_admin (admin : bool) (u : UserRecord) : UserRecord :=
  {| ur_password := ur_password u; ur_admin := admin; ur_status := ur_status u |}.

Definition set_approved (u : UserRecord) : UserRecord :=
  {| ur_password := ur_password u; ur_admin := ur_admin u; ur_status := Approved |}.

Definition edit_grant (grant : string * string * string) (add : bool)
    (grants : gset (string * string * string)) : gset (string * string * string) :=
  if add then grants ∪ {[grant]} else grants ∖ {[grant]}.

(** Modelled from the spec: the mutation side of the store.  [register]
    takes an unregistered name to Pending with the given hash and leaves
    a taken name alone; [approve] is one-way and idempotent; creating a
    group adds it without members and leaves a group of that name alone;
    adding a member or a grant that is there, or removing one that is not,
    changes nothing; a membership attaches only to a user and a group that
    both exist, so that a membership declared for a user who is not there
    yet fails to attach without an error. *)
#[global] Instance store_mutable : IMutableAccessBackend Store := {|
  pending_users st :=
    (map_to_list (filter (λ entry, ur_status entry.2 = Pending) (st_users st))).*1;
  _register username password :=
    store_set_users (λ users,
      match users !! username with
      | Some _ => users
      | None => <[username := {| ur_password := password; ur_admin := false;
                                 ur_status := Pending |}]> users
      end);
  approve_user username := store_set_users (alter set_approved username);
  set_user_admin username admin := store_set_users (alter (set_admin admin) username);
  create_group group :=
    store_set_groups (λ groups,
      match groups !! group with
      | Some _ => groups
      | None => <[group := ∅]> groups
      end);
  edit_user_group username group add st :=
    if add then
      match st_users st !! username with
      | Some _ => store_set_groups (alter (λ members, members ∪ {[username]}) group) st
      | None => st
      end
    else store_set_groups (alter (λ members, members ∖ {[username]}) group) st;
  edit_group_permission package group perm add st :=
    {| st_users := st_users st; st_groups := st_groups st;
       st_group_grants := edit_grant (package, group, perm) add (st_group_grants st);
       st_user_grants := st_user_grants st;
       st_allow_register := st_allow_register st |};
  edit_user_permission package username perm add st :=
    {| st_users := st_users st; st_groups := st_groups st;
       st_group_grants := st_group_grants st;
       st_user_grants := edit_grant (package, username, perm) add (st_user_grants st);
       st_allow_register := st_allow_register st |};
  set_allow_register allow st :=
    {| st_users := st_users st; st_groups := st_groups st;
       st_group_grants := st_group_grants st; st_user_grants := st_user_grants st;
       st_allow_register := allow |};
|}.

(** [st'] holds every grant, every group and every group membership
    that [st] holds. *)
Definition store_includes (st st' : Store) : Prop :=
  st_user_grants st ⊆ st_user_grants st'
  ∧ st_group_grants st ⊆ st_group_grants st'
  ∧ dom (st_groups st) ⊆ dom (st_groups st')
  ∧ ∀ group, store_members st group ⊆ store_members st' group.

(** [st'] includes [st] and has every group outside [groups] exactly as
    [st] has it. *)
Definition store_grows_in (groups : list string) (st st' : Store) : Prop :=
  store_includes st st'
  ∧ ∀ group, group ∉ groups → st_groups st' !! group = st_groups st !! group.

(** The admin flag that the loop over [data["users"]] leaves on a user:
    the one of the user's last entry. *)
Fixpoint declared_admin (users : list SnapshotUser) (username : string) : option bool :=
  match users with
  | [] => None
  | user :: users =>
      match declared_admin users username with
      | Some admin => Some admin
      | None =>
          if decide (su_username user = username)
          then Some (default false (su_admin user))
          else None
      end
  end.

(** The pending users of the store are all in the list [pending]. *)
Definition pending_listed (pending : list string) (st : Store) : Prop :=
  ∀ username u,
    st_users st !! username = Some u → ur_status u = Pending → username ∈ pending.

(** The group is in the store and holds every one of [members] that is
    a user of the store. *)
Definition members_attached (group : string) (members : list string) (st : Store) : Prop :=
  group ∈ dom (st_groups st)
  ∧ ∀ member, member ∈ members → member ∈ dom (st_users st) →
              member ∈ store_members st group.

(** The grants that [data["packages"]["groups"]], or
    [data["packages"]["users"]], declares. *)
Definition declared_grants (packages : dict (dict (list string)))
    (grant : string * string * string) : Prop :=
  let '(package, name, perm) := grant in
  ∃ names perms, (package, names) ∈ packages ∧ (name, perms) ∈ names ∧ perm ∈ perms.

(** Every declared group member that the snapshot lists as a pending
    user is in the store already or is also listed among the users. *)
Definition pending_members_exist (data : Snapshot) (st : Store) : Prop :=
  ∀ group members member,
    (group, members) ∈ data_groups data → member ∈ members →
    member ∈ su_username <$> default [] (data_pending_users data) →
    member ∈ dom (st_users st) ∨ member ∈ su_username <$> data_users data.

(** ** Recording the mutations a backend receives *)

Inductive Mutation : Type :=
  | Register (username password : string)
  | ApproveUser (username : string)
  | SetUserAdmin (username : string) (admin : bool)
  | CreateGroup (group : string)
  | EditUserGroup (username group : string) (add : bool)
  | EditGroupPermission (package group perm : string) (add : bool)
  | EditUserPermission (package username perm : string) (add : bool)
  | SetAllowRegister (allow : bool).

#[global] Instance Mutation_eq_dec : EqDecision Mutation.
Proof. solve_decision. Defined.

(** A storage together with the calls made on it so far, oldest first. *)
Definition Traced (St : Type) : Type := St * list Mutation.

Definition traced {St} (call : Mutation) (f : St → St) (t : Traced St) : Traced St :=
  (f t.1, t.2 ++ [call]).

#[global] Instance traced_access {St} `{!IAccessBackend St} : IAccessBackend (Traced St) := {|
  mutable := mutable (St := St);
  _get_password_hash t := _get_password_hash t.1;
  groups t := groups t.1;
  group_members t := group_members t.1;
  is_admin t := is_admin t.1;
  group_permissions t := group_permissions t.1;
  user_permissions t := user_permissions t.1;
  user_data t := user_data t.1;
|}.

#[global] Instance traced_mutable {St} `{!IAccessBackend St} `{!IMutableAccessBackend St}
    : IMutableAccessBackend (Traced St) := {|
  pending_users t := pending_users t.1;
  _register username password :=
    traced (Register username password) (_register username password);
  approve_user username := traced (ApproveUser username) (approve_user username);
  set_user_admin username admin :=
    traced (SetUserAdmin username admin) (set_user_admin username admin);
  create_group group := traced (CreateGroup group) (create_group group);
  edit_user_group username group add :=
    traced (EditUserGroup username group add) (edit_user_group username group add);
  edit_group_permission package group perm add :=
    traced (EditGroupPermission package group perm add)
           (edit_group_permission package group perm add);
  edit_user_permission package username perm add :=
    traced (EditUserPermission package username perm add)
           (edit_user_permission package username perm add);
  set_allow_register allow := traced (SetAllowRegister allow) (set_allow_register allow);
|}.

(** The mutations [load] performs on a storage, in order. *)
Definition load_calls {St} `{!IAccessBackend St} `{!IMutableAccessBackend St}
    (data : Snapshot) (st : St) : list Mutation :=
  (load_storage data ((st, []) : Traced St)).2.

(** ** The order the specification asks of an ACL *)

(** Entries compared by principal, then by permission name, both as
    strings. *)
Definition acl_le (a b : string * string * string) : bool :=
  let '(_, principal1, perm1) := a in
  let '(_, principal2, perm2) := b in
  String.ltb principal1 principal2
  || (bool_decide (principal1 = principal2) && String.leb perm1 perm2).

Fixpoint acl_sorted (acl : list (string * string * string)) : bool :=
  match acl with
  | a :: (b :: _) as rest => acl_le a b && acl_sorted rest
  | _ => true
  end.

(** [c in s] for a character and a string. *)
Fixpoint str_contains (c : ascii) (s : string) : bool :=
  match s with
  | EmptyString => false
  | String c' s' => bool_decide (c' = c) || str_contains c s'
  end.

(** ** Objects used in the examples *)

(** A context whose hashes are the password behind a marker. *)
Definition example_context : PwdContext :=
  {| pwd_verify password h := Return (bool_decide (h = "$" +:+ password));
     pwd_hash password := "$" +:+ password |}.

(** A context that cannot verify anything. *)
Definition failing_context : PwdContext :=
  {| pwd_verify _ _ := Raise ValueError; pwd_hash password := password |}.

Definition example_backend (st : Store) : Backend Store :=
  {| request := {| userid := None; effective_principals := [Everyone] |};
     default_read := ["authenticated"];
     default_write := [];
     cache_update := ["authenticated"];
     pwd_context := example_context;
     token_expiration := ONE_WEEK;
     signing_key := Some "secret";
     storage := st |}.

(** The same backend with two principals as read default and one of them
    as write default. *)
Definition two_defaults_backend (st : Store) : Backend Store :=
  {| request := {| userid := None; effective_principals := [Everyone] |};
     default_read := ["everyone"; "authenticated"];
     default_write := ["authenticated"];
     cache_update := ["authenticated"];
     pwd_context := example_context;
     token_expiration := ONE_WEEK;
     signing_key := Some "secret";
     storage := st |}.

(** The example backend with a context that raises on every call. *)
Definition failing_backend (st : Store) : Backend Store :=
  {| request := request (example_backend st);
     default_read := default_read (example_backend st);
     default_write := default_write (example_backend st);
     cache_update := cache_update (example_backend st);
     pwd_context := failing_context;
     token_expiration := token_expiration (example_backend st);
     signing_key := signing_key (example_backend st);
     storage := st |}.

(** One explicit grant: [alice] may write package [foo]. *)
Definition alice_store : Store :=
  {| st_users := ∅; st_groups := ∅; st_group_grants := ∅;
     st_user_grants := {[ ("foo", "alice", "write") ]};
     st_allow_register := false |}.

(** An approved administrator [amy] and a pending user [eve], both with
    the hash of the password [pw]. *)
Definition pending_store : Store :=
  {| st_users :=
       {[ "amy" := {| ur_password := "$pw"; ur_admin := true; ur_status := Approved |};
          "eve" := {| ur_password := "$pw"; ur_admin := false; ur_status := Pending |} ]};
     st_groups := ∅; st_group_grants := ∅; st_user_grants := ∅;
     st_allow_register := false |}.

(** A group [qa] with the approved member [carol]. *)
Definition qa_store : Store :=
  {| st_users :=
       {[ "carol" := {| ur_password := "$pw"; ur_admin := false; ur_status := Approved |} ]};
     st_groups := {[ "qa" := {[ "carol" ]} ]};
     st_group_grants := {[ ("foo", "qa", "read") ]};
     st_user_grants := {[ ("foo", "carol", "write") ]};
     st_allow_register := false |}.

(** A group [dev] that exists and has no member. *)
Definition empty_dev_store : Store :=
  {| st_users := ∅; st_groups := {[ "dev" := ∅ ]};
     st_group_grants := ∅; st_user_grants := ∅; st_allow_register := false |}.

(** A snapshot declaring the user [bob] and the group [dev] with [bob] as
    its member. *)
Definition dev_snapshot : Snapshot :=
  {| data_users := [ {| su_username := "bob"; su_password := "$pw"; su_admin := None |} ];
     data_groups := [ ("dev", ["bob"]) ];
     data_pending_users := Some [];
     data_packages_groups := [];
     data_packages_users := [];
     data_allow_register := false |}.

(** The same snapshot with [bob] declared as a pending user instead. *)
Definition pending_member_snapshot : Snapshot :=
  {| data_users := [];
     data_groups := [ ("dev", ["bob"]) ];
     data_pending_users :=
       Some [ {| su_username := "bob"; su_password := "$pw"; su_admin := None |} ];
     data_packages_groups := [];
     data_packages_users := [];
     data_allow_register := false |}.

(** A stand-in for the keyed hash, used where an example has to run;
    every theorem holds for any function in its place. *)
Definition example_hmac : HmacSha256 := λ key msg, key +:+ msg.

(** ** What a snapshot declares for a user *)

(** The hash with which a user is registered: the one of the user's
    first entry in the list. *)
Fixpoint declared_password (users : list SnapshotUser) (username : string)
    : option string :=
  match users with
  | [] => None
  | user :: users =>
      if decide (su_username user = username) then Some (su_password user)
      else declared_password users username
  end.

(** The record of a user that the loop over [data["users"]] registers. *)
Definition approved_user (password : string) (admin : bool) : UserRecord :=
  {| ur_password := password; ur_admin := admin; ur_status := Approved |}.

(** The record of a user that the loop over [data["pending_users"]]
    registers. *)
Definition pending_user (password : string) : UserRecord :=
  {| ur_password := password; ur_admin := false; ur_status := Pending |}.

(** ** The remaining methods: listings, registration and [dump] *)

(** An entry of the list that [user_data()] returns. *)
Record ListedUser : Type := {
  lu_username : string;
  lu_admin : bool;
}.

(** The abstract query methods of [IAccessBackend] that list the
    storage: [groups()] and [user_data()] without a user name, and the
    packages on which a group, or a user, has permissions, each with the
    permissions. *)
Class IAccessListing (St : Type) : Type := {
  all_groups : St → list string;
  all_user_data : St → list ListedUser;
  group_package_permissions : St → string → list (string * list string);
  user_package_permissions : St → string → list (string * list string);
}.

(** The abstract methods of [IMutableAccessBackend] that [load] does not
    call but the methods below do. *)
Class IMutableAccessSettings (St : Type) : Type := {
  allow_register : St → bool;
  _set_password_hash : string → string → St → St;
}.

Section registration.
Context {St : Type} `{!IAccessBackend St} `{!IMutableAccessBackend St}
  `{!IAccessListing St} `{!IMutableAccessSettings St}.
Implicit Types (self : Backend St) (username password : string).

(** The loop of [IMutableAccessBackend.need_admin]. *)
Fixpoint need_admin_loop (users : list ListedUser) : bool :=
  match users with
  | [] => true
  | user :: users => if lu_admin user then false else need_admin_loop users
  end.

(** [need_admin]: [False] in the base class, the loop in the mutable
    one. *)
Definition need_admin self : bool :=
  if mutable then need_admin_loop (all_user_data (storage self)) else false.

(** [allow_register_token]: [False] in the base class. *)
Definition allow_register_token self : bool :=
  if mutable then bool_decide (is_Some (signing_key self)) else false.

Definition register self username password : Backend St :=
  with_storage self
    (_register username (pwd_hash (pwd_context self) password) (storage self)).

Definition edit_user_password self username password : Backend St :=
  with_storage self
    (_set_password_hash username (pwd_hash (pwd_context self) password) (storage self)).
End registration.

(** An entry of [data["users"]] as [dump] builds it: the entry of
    [user_data()] with the hash under ["password"], which is [None] when
    the backend has none. *)
Record DumpUser : Type := {
  du_username : string;
  du_admin : bool;
  du_password : option string;
}.

(** The dictionary that [dump] returns. *)
Record Dump : Type := {
  dump_allow_register : bool;
  dump_version : string;
  dump_groups : dict (list string);
  dump_users : list DumpUser;
  dump_packages_groups : dict (dict (list string));
  dump_packages_users : dict (dict (list string));
  dump_pending_users : option (list (string * option string));
}.

(** [packages[package][name] = perms] on a [defaultdict(dict)]. *)
Definition packages_setitem (package name : string) (perms : list string)
    (packages : dict (dict (list string))) : dict (dict (list string)) :=
  dict_setitem package (dict_setitem name perms (default [] (dict_get package packages)))
    packages.

(** The inner loop of [dump] over the packages of one group or user. *)
Definition dump_permissions (name : string) (perms : list (string * list string))
    (packages : dict (dict (list string))) : dict (dict (list string)) :=
  foldl (λ packages '(package, permissions),
           packages_setitem package name permissions packages)
        packages perms.

Section dump.
Context {St : Type} `{!IAccessBackend St} `{!IAccessListing St}.
Implicit Types (self : Backend St).

(** The body of [IAccessBackend.dump]; [allow_register] is the method of
    the class of [self] and [version] the [__version__] of the package. *)
Definition dump_with (allow_register : St → bool) self (version : string) : Dump :=
  let st := storage self in
  let groups := all_groups st in
  let users :=
    map (λ user, {| du_username := lu_username user;
                    du_admin := lu_admin user;
                    du_password := _get_password_hash st (lu_username user) |})
        (all_user_data st) in
  let '(data_groups, packages_groups) :=
    foldl (λ '(data_groups, packages_groups) group,
             (dict_setitem group (group_members st group) data_groups,
              dump_permissions group (group_package_permissions st group)
                packages_groups))
          ([], []) groups in
  let packages_users :=
    foldl (λ packages_users user,
             dump_permissions (du_username user)
               (user_package_permissions st (du_username user)) packages_users)
          [] users in
  {| dump_allow_register := allow_register st;
     dump_version := version;
     dump_groups := data_groups;
     dump_users := users;
     dump_packages_groups := packages_groups;
     dump_packages_users := packages_users;
     dump_pending_users := None |}.

(** [IAccessBackend.dump], with the [allow_register] of the base
    class. *)
Definition dump self (version : string) : Dump :=
  dump_with (λ _, false) self version.
End dump.

(** [IMutableAccessBackend.dump]. *)
Definition mutable_dump {St} `{!IAccessBackend St} `{!IMutableAccessBackend St}
    `{!IAccessListing St} `{!IMutableAccessSettings St}
    (self : Backend St) (version : string) : Dump :=
  let data := dump_with allow_register self version in
  let pending_users :=
    map (λ username, (username, _get_password_hash (storage self) username))
        (pending_users (storage self)) in
  {| dump_allow_register := dump_allow_register data;
     dump_version := dump_version data;
     dump_groups := dump_groups data;
     dump_users := dump_users data;
     dump_packages_groups := dump_packages_groups data;
     dump_packages_users := dump_packages_users data;
     dump_pending_users := Some pending_users |}.

(** The dictionary of a dump as [load] reads it.  [load] hands the
    passwords to [_register] as they are; a dump with a missing hash has
    no counterpart among the snapshots. *)
Definition snapshot_user (user : DumpUser) : option SnapshotUser :=
  password ← du_password user;
  Some {| su_username := du_username user; su_password := password;
          su_admin := Some (du_admin user) |}.

Definition snapshot_pending_user (user : string * option string) : option SnapshotUser :=
  password ← user.2;
  Some {| su_username := user.1; su_password := password; su_admin := None |}.

Definition snapshot_of_dump (data : Dump) : option Snapshot :=
  users ← mapM snapshot_user (dump_users data);
  pending_users ←
    match dump_pending_users data with
    | Some pending_users => Some <$> mapM snapshot_pending_user pending_users
    | None => Some None
    end;
  Some {| data_users := users;
          data_groups := dump_groups data;
          data_pending_users := pending_users;
          data_packages_groups := dump_packages_groups data;
          data_packages_users := dump_packages_users data;
          data_allow_register := dump_allow_register data |}.

Definition set_password (password_hash : string) (u : UserRecord) : UserRecord :=
  {| ur_password := password_hash; ur_admin := ur_admin u; ur_status := ur_status u |}.

(** The packages on which [name] holds grants, each with the
    permissions, in the order in which the grants are met. *)
Definition grants_by_package (grants : gset (string * string * string)) (name : string)
    : list (string * list string) :=
  foldl (λ d '(package, holder, perm),
           if decide (holder = name)
           then dict_setitem package (default [] (dict_get package d) ++ [perm]) d
           else d)
        [] (elements grants).

(** Modelled from the spec: the listings of the store.  The groups are
    the stored ones, the users the approved ones (a pending user is left
    out of every enumeration). *)
#[global] Instance store_listing : IAccessListing Store := {|
  all_groups st := (map_to_list (st_groups st)).*1;
  all_user_data st :=
    (λ entry, {| lu_username := entry.1; lu_admin := ur_admin entry.2 |})
    <$> map_to_list (filter (λ entry, ur_status entry.2 = Approved) (st_users st));
  group_package_permissions st group := grants_by_package (st_group_grants st) group;
  user_package_permissions st username := grants_by_package (st_user_grants st) username;
|}.

(** Modelled from the spec: the registration flag of the store, and the
    change of a password, which stores the hash it is given on a user
    that exists. *)
#[global] Instance store_settings : IMutableAccessSettings Store := {|
  allow_register := st_allow_register;
  _set_password_hash username password_hash :=
    store_set_users (alter (set_password password_hash) username);
|}.

(** [approve_user] on the backend object. *)
Definition approve (self : Backend Store) (username : string) : Backend Store :=
  with_storage self (approve_user username (storage self)).

(** ** Reading a dump, and the stores a dump describes in full *)

(** The permissions recorded for a package and a name. *)
Definition packages_get (packages : dict (dict (list string))) (package name : string)
    : option (list string) :=
  dict_get package packages ≫= dict_get name.

(** No package is recorded without a holder. *)
Definition packages_inhabited (packages : dict (dict (list string))) : Prop :=
  ∀ package holders, dict_get package packages = Some holders → holders ≠ [].

(** No key twice, neither among the packages nor among the holders of
    one package. *)
Definition packages_NoDup (packages : dict (dict (list string))) : Prop :=
  NoDup (dict_keys packages)
  ∧ ∀ package holders, dict_get package packages = Some holders → NoDup (dict_keys holders).

(** The check that [verify_user] ends with, for a stored hash. *)
Definition check_password {St : Type} (self : Backend St) (stored_pw candidate : string)
    : result bool :=
  if decide (stored_pw = "") then Return false
  else pwd_verify (pwd_context self) candidate stored_pw.

(** The user is in the store and approved. *)
Definition approved (st : Store) (username : string) : Prop :=
  ∃ u, st_users st !! username = Some u ∧ ur_status u = Approved.

(** The store refers to nothing that its listings leave out: the members
    of its groups and the holders of its user grants are approved users,
    the holders of its group grants are groups, and no pending user is an
    administrator. *)
Definition store_closed (st : Store) : Prop :=
  (∀ group member, member ∈ store_members st group → approved st member)
  ∧ (∀ package group perm,
       (package, group, perm) ∈ st_group_grants st → group ∈ dom (st_groups st))
  ∧ (∀ package username perm,
       (package, username, perm) ∈ st_user_grants st → approved st username)
  ∧ (∀ username u,
       st_users st !! username = Some u → ur_status u = Pending → ur_admin u = false).

(** The entries of [data["users"]] and [data["pending_users"]] that the
    dump of a store gives. *)
Definition store_snapshot_users (st : Store) : list SnapshotUser :=
  (λ entry, {| su_username := entry.1; su_password := ur_password entry.2;
               su_admin := Some (ur_admin entry.2) |})
  <$> map_to_list (filter (λ entry, ur_status entry.2 = Approved) (st_users st)).

Definition store_snapshot_pending_users (st : Store) : list SnapshotUser :=
  (λ entry, {| su_username := entry.1; su_password := ur_password entry.2;
               su_admin := None |})
  <$> map_to_list (filter (λ entry, ur_status entry.2 = Pending) (st_users st)).

(** A snapshot declaring the administrator [root]. *)
Definition admin_snapshot : Snapshot :=
  {| data_users := [ {| su_username := "root"; su_password := "$pw"; su_admin := Some true |} ];
     data_groups := [];
     data_pending_users := None;
     data_packages_groups := [];
     data_packages_users := [];
     data_allow_register := false |}.

(** ** The calls of a load, and further snapshots *)

(** The calls that [load] makes behind a guard: [_register] and
    [approve_user] behind [user_exists], [create_group] behind
    [group_members], [edit_user_group] for the members that are
    missing. *)
Definition guarded_call (call : Mutation) : bool :=
  match call with
  | Register _ _ | ApproveUser _ | CreateGroup _ | EditUserGroup _ _ _ => true
  | _ => false
  end.

(** Every declared group declares a member, and every declared member is
    a user of the store or listed in [data["users"]]. *)
Definition members_exist (data : Snapshot) (st : Store) : Prop :=
  ∀ group members, (group, members) ∈ data_groups data →
    members ≠ []
    ∧ ∀ member, member ∈ members →
        member ∈ dom (st_users st) ∨ member ∈ su_username <$> data_users data.

(** A snapshot that declares an administrator, a user, a pending user,
    a group holding the three, and a grant for the group and for the
    user. *)
Definition team_snapshot : Snapshot :=
  {| data_users :=
       [ {| su_username := "amy"; su_password := "$pw"; su_admin := Some true |};
         {| su_username := "bob"; su_password := "$pw"; su_admin := None |} ];
     data_groups := [ ("dev", ["amy"; "eve"; "bob"]) ];
     data_pending_users :=
       Some [ {| su_username := "eve"; su_password := "$pw"; su_admin := None |} ];
     data_packages_groups := [ ("foo", [ ("dev", ["read"]) ]) ];
     data_packages_users := [ ("foo", [ ("bob", ["read"; "write"]) ]) ];
     data_allow_register := true |}.

(** The snapshot of Scenario D as the specification words it: it declares
    the group [dev] with the member [bob] and nothing else. *)
Definition dev_group_snapshot : Snapshot :=
  {| data_users := [];
     data_groups := [ ("dev", ["bob"]) ];
     data_pending_users := None;
     data_packages_groups := [];
     data_packages_users := [];
     data_allow_register := false |}.

(** * Properties *)

(** ** Dictionaries *)

Section dict_facts.
Context {V : Type}.
Implicit Types (d : dict V) (k : string) (v : V).

Lemma dict_get_setitem_eq k v d : dict_get k (dict_setitem k v d) = Some v.
Proof.
  induction d as [|[k' v'] d IH]; simpl.
  - by rewrite decide_True.
  - destruct (decide (k' = k)) as [->|Hne]; simpl.
    + by rewrite decide_True.
    + by rewrite decide_False.
Qed.

Lemma dict_get_setitem_ne k k' v d :
  k ≠ k' → dict_get k' (dict_setitem k v d) = dict_get k' d.
Proof.
  intros Hne. induction d as [|[k0 v0] d IH]; simpl.
  - by rewrite decide_False.
  - destruct (decide (k0 = k)) as [->|Hne0]; simpl.
    + by rewrite !decide_False.
    + destruct (decide (k0 = k')); done.
Qed.

Lemma dict_get_setitem k k' v d :
  dict_get k' (dict_setitem k v d) = if decide (k = k') then Some v else dict_get k' d.
Proof.
  destruct (decide (k = k')) as [->|Hne].
  - apply dict_get_setitem_eq.
  - by apply dict_get_setitem_ne.
Qed.

Lemma dict_setitem_not_empty k v d : dict_is_empty (dict_setitem k v d) = false.
Proof. destruct d as [|[k' v'] d]; simpl; [done|]. by destruct (decide (k' = k)). Qed.

Lemma dict_is_empty_nil d : dict_is_empty d = true ↔ d = [].
Proof. by destruct d. Qed.

Lemma dict_get_Some_elem_of k v d : dict_get k d = Some v → (k, v) ∈ d.
Proof.
  induction d as [|[k' v'] d IH]; simpl; [done|].
  destruct (decide (k' = k)) as [->|Hne].
  - intros [= ->]. left.
  - intros H. right. by apply IH.
Qed.

Lemma dict_get_is_Some k d : is_Some (dict_get k d) ↔ k ∈ dict_keys d.
Proof.
  unfold dict_keys. induction d as [|[k' v'] d IH]; simpl.
  - split; [by intros [? ?]|by intros ?%elem_of_nil].
  - destruct (decide (k' = k)) as [->|Hne].
    + split; [intros _; left|by eauto].
    + rewrite IH, elem_of_cons. split; [by right|]. by intros [->|?].
Qed.

(** Every entry of a dictionary filled by a loop of assignments comes
    from the dictionary before the loop or from an assignment. *)
Lemma dict_get_foldl_setitem (key : string → string) (l : dict V) d k v :
  dict_get k (foldl (λ d '(name, val), dict_setitem (key name) val d) d l) = Some v →
  dict_get k d = Some v ∨ ∃ name, (name, v) ∈ l ∧ key name = k.
Proof.
  revert d. induction l as [|[name val] l IH]; intros d; simpl; [by left|].
  intros [H|(name' & Hin & Hk)]%IH.
  - rewrite dict_get_setitem in H. destruct (decide (key name = k)) as [Hk|Hk].
    + injection H as <-. right. exists name. split; [left|done].
    + by left.
  - right. exists name'. split; [by right|done].
Qed.

Lemma dict_is_empty_foldl_setitem (key : string → string) (l : dict V) d :
  dict_is_empty (foldl (λ d '(name, val), dict_setitem (key name) val d) d l)
  = dict_is_empty d && dict_is_empty l.
Proof.
  revert d. induction l as [|[name val] l IH]; intros d; simpl.
  - by rewrite andb_true_r.
  - rewrite IH, dict_setitem_not_empty. simpl. by rewrite andb_false_r.
Qed.
End dict_facts.

(** ** Permission resolution *)

(** The loop over [default_read]. *)
Lemma dict_get_default_read (principals : list string) (d : dict (list string)) principal :
  dict_get principal
    (foldl (λ all_perms principal, dict_setitem principal ["read"] all_perms) d principals)
  = if decide (principal ∈ principals) then Some ["read"] else dict_get principal d.
Proof.
  revert d. induction principals as [|p principals IH]; intros d.
  - by rewrite decide_False by apply not_elem_of_nil.
  - cbn [foldl]. rewrite IH. destruct (decide (principal ∈ principals)) as [Hin|Hnin].
    + by rewrite decide_True by (by right).
    + rewrite dict_get_setitem. destruct (decide (p = principal)) as [->|Hne].
      * by rewrite decide_True by left.
      * rewrite decide_False; [done|]. by intros [->|?]%elem_of_cons.
Qed.

(** The loop over [default_write]: one ["write"] per occurrence of the
    principal, after whatever the entry held. *)
Lemma dict_get_default_write (principals : list string) (d : dict (list string)) principal :
  dict_get principal
    (foldl (λ all_perms principal,
              match dict_get principal all_perms with
              | Some perms => dict_setitem principal (perms ++ ["write"]) all_perms
              | None => dict_setitem principal ["write"] all_perms
              end) d principals)
  = match dict_get principal d with
    | Some perms =>
        Some (perms ++ replicate (List.length (filter (λ p, p = principal) principals)) "write")
    | None =>
        if decide (principal ∈ principals)
        then Some (replicate (List.length (filter (λ p, p = principal) principals)) "write")
        else None
    end.
Proof.
  revert d. induction principals as [|p principals IH]; intros d.
  - rewrite decide_False by apply not_elem_of_nil. cbn.
    destruct (dict_get principal d); [by rewrite app_nil_r|done].
  - cbn [foldl]. rewrite IH. clear IH. rewrite filter_cons.
    destruct (decide (p = principal)) as [->|Hne].
    + rewrite (decide_True (P := principal ∈ principal :: principals)) by left.
      destruct (dict_get principal d) as [perms|]; rewrite dict_get_setitem_eq; cbn;
        [by rewrite <- app_assoc|done].
    + assert (dict_get principal
                (match dict_get p d with
                 | Some perms => dict_setitem p (perms ++ ["write"]) d
                 | None => dict_setitem p ["write"] d
                 end) = dict_get principal d) as ->.
      { destruct (dict_get p d); by rewrite dict_get_setitem_ne. }
      destruct (dict_get principal d); [done|].
      destruct (decide (principal ∈ principals)) as [Hin|Hnin].
      * by rewrite decide_True by (by right).
      * rewrite decide_False; [done|]. by intros [->|?]%elem_of_cons.
Qed.

Section access_facts.
Context {St : Type} `{!IAccessBackend St}.
Implicit Types (self : Backend St) (package perm username group principal : string).

Lemma explicit_permissions_empty self package :
  dict_is_empty (explicit_permissions self package)
  = dict_is_empty (user_permissions (storage self) package)
    && dict_is_empty (group_permissions (storage self) package).
Proof.
  unfold explicit_permissions.
  rewrite (dict_is_empty_foldl_setitem group_to_principal).
  by rewrite (dict_is_empty_foldl_setitem (λ user, "user:" +:+ user)).
Qed.

Lemma explicit_permissions_entry self package principal perms :
  dict_get principal (explicit_permissions self package) = Some perms →
  (∃ user, (user, perms) ∈ user_permissions (storage self) package
           ∧ principal = "user:" +:+ user)
  ∨ (∃ group, (group, perms) ∈ group_permissions (storage self) package
              ∧ principal = group_to_principal group).
Proof.
  unfold explicit_permissions.
  intros [H|(group & Hin & <-)]%(dict_get_foldl_setitem group_to_principal).
  - apply (dict_get_foldl_setitem (λ user, "user:" +:+ user)) in H
      as [H|(user & Hin & <-)]; [done|].
    left. by exists user.
  - right. by exists group.
Qed.

(** C1: a package without any explicit user or group grant gets exactly
    the configured defaults: a principal of [default_read] holds
    ["read"], a principal of [default_write] holds ["write"] after what
    its entry held (both for a principal of the two lists, one ["write"]
    per occurrence in [default_write]), and no other principal has an
    entry; a package with an explicit grant gets the explicit grants
    alone, every entry being one of them. *)
Theorem allowed_permissions_defaults self package :
  let readers := groups_to_principals (default_read self) in
  let writers := groups_to_principals (default_write self) in
  (user_permissions (storage self) package = []
   ∧ group_permissions (storage self) package = [] →
   ∀ principal,
     dict_get principal (allowed_permissions self package)
     = (let writes :=
          replicate (List.length (filter (λ p, p = principal) writers)) "write" in
        if decide (principal ∈ readers) then Some ("read" :: writes)
        else if decide (principal ∈ writers) then Some writes
        else None))
  ∧ (user_permissions (storage self) package ≠ []
     ∨ group_permissions (storage self) package ≠ [] →
     allowed_permissions self package = explicit_permissions self package
     ∧ ∀ principal perms,
         dict_get principal (allowed_permissions self package) = Some perms →
         (∃ user, (user, perms) ∈ user_permissions (storage self) package
                  ∧ principal = "user:" +:+ user)
         ∨ (∃ group, (group, perms) ∈ group_permissions (storage self) package
                     ∧ principal = group_to_principal group)).
Proof.
  intros readers writers. split.
  - intros [Hu Hg] principal. unfold allowed_permissions.
    rewrite explicit_permissions_empty, Hu, Hg. cbn [dict_is_empty andb].
    unfold explicit_permissions. rewrite Hu, Hg. cbn [foldl].
    rewrite dict_get_default_write, dict_get_default_read. fold readers writers.
    destruct (decide (principal ∈ readers)); done.
  - intros Hne.
    assert (allowed_permissions self package = explicit_permissions self package) as Heq.
    { unfold allowed_permissions. rewrite explicit_permissions_empty.
      destruct (user_permissions (storage self) package);
        destruct (group_permissions (storage self) package); try done.
      by destruct Hne. }
    split; [done|]. rewrite Heq. apply explicit_permissions_entry.
Qed.

(** C2: [has_permission] holds exactly when the requesting user has the
    admin flag, or one of the effective principals of the request holds
    the permission in [allowed_permissions].  The first alternative does
    not look at the package at all. *)
Theorem has_permission_spec self package perm :
  has_permission self package perm = true
  ↔ (∃ current_userid, userid (request self) = Some current_userid
                       ∧ is_admin (storage self) current_userid = true)
    ∨ (∃ principal perms,
          principal ∈ effective_principals (request self)
          ∧ dict_get principal (allowed_permissions self package) = Some perms
          ∧ perm ∈ perms).
Proof.
  unfold has_permission.
  set (admin := match userid (request self) with
                | Some u => is_admin (storage self) u
                | None => false
                end).
  assert (admin = true
          ↔ ∃ current_userid, userid (request self) = Some current_userid
                              ∧ is_admin (storage self) current_userid = true) as Hadmin.
  { unfold admin. destruct (userid (request self)) as [u|].
    - split; [by exists u|]. by intros (? & [= <-] & ?).
    - split; [done|]. by intros (? & ? & ?). }
  destruct admin.
  - split; [|done]. intros _. left. by apply Hadmin.
  - rewrite existsb_exists. split.
    + intros (principal & Hin%list_elem_of_In & Hperm). right.
      unfold str_in in Hperm. apply bool_decide_eq_true in Hperm.
      destruct (dict_get principal (allowed_permissions self package)) as [perms|] eqn:Hget.
      * by exists principal, perms.
      * by apply elem_of_nil in Hperm.
    + intros [Hadm|(principal & perms & Hin & Hget & Hperm)].
      * by apply Hadmin in Hadm.
      * exists principal. split; [by apply list_elem_of_In|].
        rewrite Hget. by apply bool_decide_eq_true.
Qed.

Lemma get_acl_inner principal (perms : list string) acl :
  foldl (λ acl perm, acl ++ [(Allow, principal, perm)]) acl perms
  = acl ++ map (λ perm, (Allow, principal, perm)) perms.
Proof.
  revert acl. induction perms as [|perm perms IH]; intros acl; cbn.
  - by rewrite app_nil_r.
  - by rewrite IH, <- app_assoc.
Qed.

Lemma get_acl_outer (permissions : dict (list string)) acl :
  foldl (λ acl '(principal, perms),
           foldl (λ acl perm, acl ++ [(Allow, principal, perm)]) acl perms)
        acl permissions
  = acl ++ flat_map (λ '(principal, perms), map (λ perm, (Allow, principal, perm)) perms)
             permissions.
Proof.
  revert acl. induction permissions as [|[principal perms] permissions IH];
    intros acl; cbn.
  - by rewrite app_nil_r.
  - by rewrite IH, get_acl_inner, <- app_assoc.
Qed.
End access_facts.

Lemma dict_keys_setitem {V} k (v : V) (d : dict V) :
  dict_keys (dict_setitem k v d)
  = if decide (k ∈ dict_keys d) then dict_keys d else dict_keys d ++ [k].
Proof.
  unfold dict_keys. induction d as [|[k' v'] d IH]; cbn.
  - by rewrite decide_False by apply not_elem_of_nil.
  - destruct (decide (k' = k)) as [->|Hne]; cbn.
    + by rewrite decide_True by left.
    + rewrite IH. destruct (decide (k ∈ d.*1)) as [Hin|Hnin].
      * by rewrite decide_True by (by right).
      * rewrite decide_False; [done|]. by intros [->|?]%elem_of_cons.
Qed.

Lemma dict_setitem_NoDup {V} k (v : V) (d : dict V) :
  NoDup (dict_keys d) → NoDup (dict_keys (dict_setitem k v d)).
Proof.
  intros Hd. rewrite dict_keys_setitem. destruct (decide (k ∈ dict_keys d)); [done|].
  apply NoDup_app. split_and!; [done| |apply NoDup_singleton].
  intros x Hx ->%list_elem_of_singleton. done.
Qed.

Lemma foldl_NoDup_keys {A V} (step : dict V → A → dict V) (l : list A) (d : dict V) :
  (∀ d a, NoDup (dict_keys d) → NoDup (dict_keys (step d a))) →
  NoDup (dict_keys d) → NoDup (dict_keys (foldl step d l)).
Proof.
  intros Hstep. revert d. induction l as [|a l IH]; intros d Hd; cbn; [done|].
  by apply IH, Hstep.
Qed.

Section acl_facts.
Context {St : Type} `{!IAccessBackend St}.
Implicit Types (self : Backend St) (package perm username group principal : string).

Lemma allowed_permissions_NoDup self package :
  NoDup (dict_keys (allowed_permissions self package)).
Proof.
  assert (NoDup (dict_keys (explicit_permissions self package))) as Hexplicit.
  { unfold explicit_permissions. apply foldl_NoDup_keys.
    - intros d [group perms] Hd. by apply dict_setitem_NoDup.
    - apply foldl_NoDup_keys; [|apply NoDup_nil_2].
      intros d [user perms] Hd. by apply dict_setitem_NoDup. }
  unfold allowed_permissions.
  destruct (dict_is_empty (explicit_permissions self package)); [|done].
  apply foldl_NoDup_keys.
  - intros d principal Hd. destruct (dict_get principal d); by apply dict_setitem_NoDup.
  - apply foldl_NoDup_keys; [|done]. intros d principal Hd. by apply dict_setitem_NoDup.
Qed.

(** C8: [get_acl] lists one [Allow] entry per permission of each
    principal of [allowed_permissions], every principal once; the
    principals come in the order in which [allowed_permissions] holds
    them and the permissions of a principal in the order of its entry.
    Nothing is sorted. *)
Theorem get_acl_order self package :
  get_acl self package
  = flat_map (λ '(principal, perms), map (λ perm, (Allow, principal, perm)) perms)
      (allowed_permissions self package)
  ∧ NoDup (dict_keys (allowed_permissions self package)).
Proof.
  split; [|apply allowed_permissions_NoDup].
  unfold get_acl. by rewrite get_acl_outer.
Qed.

(** C9: [in_group] answers [True] for ["everyone"] and for pyramid's
    [Everyone] whoever asks, [False] for every other group when no user
    is given, [True] for ["authenticated"] and [Authenticated] when a
    user is given, [True] for ["admin"] when that user has the admin
    flag, and the membership test on [groups(username)] in every
    remaining case. *)
Theorem in_group_cases self (username : option string) group :
  (group = "everyone" ∨ group = Everyone → in_group self username group = true)
  ∧ (group ≠ "everyone" → group ≠ Everyone → in_group self None group = false)
  ∧ (∀ u, username = Some u →
       (group = "authenticated" ∨ group = Authenticated →
        in_group self username group = true)
       ∧ (group = "admin" → is_admin (storage self) u = true →
          in_group self username group = true)
       ∧ (group ∉ ["everyone"; Everyone; "authenticated"; Authenticated] →
          ¬ (group = "admin" ∧ is_admin (storage self) u = true) →
          in_group self username group = str_in group (groups (storage self) u))).
Proof.
  unfold in_group, str_in. split_and!.
  - intros Hg. rewrite bool_decide_eq_true_2; [done|].
    destruct Hg as [->| ->]; [left|right; left].
  - intros H1 H2. rewrite bool_decide_eq_false_2; [done|].
    intros [->|[->|?%elem_of_nil]%elem_of_cons]%elem_of_cons; done.
  - intros u ->. split_and!.
    + intros Hg. destruct (bool_decide (group ∈ ["everyone"; Everyone])); [done|].
      rewrite bool_decide_eq_true_2; [done|].
      destruct Hg as [->| ->]; [left|right; left].
    + intros -> Hadmin. rewrite Hadmin.
      by repeat (case_bool_decide; cbn; try done).
    + intros Hg Hadmin.
      rewrite bool_decide_eq_false_2.
      2: { intros Hin. apply Hg. rewrite !elem_of_cons, elem_of_nil in Hin.
           destruct Hin as [->|[->|[]]]; [left|right; left]. }
      rewrite bool_decide_eq_false_2.
      2: { intros Hin. apply Hg. rewrite !elem_of_cons, elem_of_nil in Hin.
           destruct Hin as [->|[->|[]]]; [do 2 right; left|do 3 right; left]. }
      case_bool_decide as Hadm; cbn; [|done].
      destruct (is_admin (storage self) u); [|done]. by destruct Hadmin.
Qed.

(** C10: when the backend holds no hash for the user, or an empty one,
    [verify_user] returns [False]; the verification of the context,
    which may raise, has no part in the result. *)
Theorem verify_user_without_hash self username password :
  _get_password_hash (storage self) username = None
  ∨ _get_password_hash (storage self) username = Some "" →
  verify_user self username password = Return false.
Proof.
  intros Hhash. unfold verify_user.
  assert (truthy_hash (_get_password_hash (storage self) username) = None) as ->.
  { by destruct Hhash as [-> | ->]. }
  destruct mutable; [|done].
  by destruct (user_data (storage self) username).
Qed.
End acl_facts.

Section verify_facts.
Context {St : Type} `{!IAccessBackend St} `{!IMutableAccessBackend St}.
Implicit Types (self : Backend St) (username password : string).

(** C7: on a mutable backend that keeps the contract of [user_data]
    (it leaves pending users out, and a user it does not know has no
    hash), a pending user never verifies, whatever the password; any
    other user verifies exactly when a non-empty hash is stored and the
    context accepts the password against it. *)
Theorem verify_user_pending self username password :
  mutable = true →
  (∀ u, u ∈ pending_users (storage self) → user_data (storage self) u = None) →
  (∀ u, user_data (storage self) u = None → u ∉ pending_users (storage self) →
        _get_password_hash (storage self) u = None) →
  (username ∈ pending_users (storage self) →
   verify_user self username password = Return false)
  ∧ (username ∉ pending_users (storage self) →
     (verify_user self username password = Return true
      ↔ ∃ stored_pw, _get_password_hash (storage self) username = Some stored_pw
                     ∧ stored_pw ≠ ""
                     ∧ pwd_verify (pwd_context self) password stored_pw = Return true)).
Proof.
  intros Hmutable Hpending Hunknown. unfold verify_user. rewrite Hmutable. split.
  - intros Hin. by rewrite (Hpending _ Hin).
  - intros Hnin.
    destruct (user_data (storage self) username) as [data|] eqn:Hdata.
    + unfold truthy_hash.
      destruct (_get_password_hash (storage self) username) as [stored_pw|].
      * destruct (decide (stored_pw = "")) as [->|Hne].
        -- split; [done|]. by intros (? & [= <-] & ? & ?).
        -- split; [by exists stored_pw|]. by intros (? & [= <-] & ? & ?).
      * split; [done|]. by intros (? & ? & ?).
    + rewrite (Hunknown _ Hdata Hnin). split; [done|]. by intros (? & ? & ?).
Qed.
End verify_facts.

(** ** The reference store keeps the contract of the query methods *)

Lemma elem_of_store_pending_users (st : Store) username :
  username ∈ pending_users st
  ↔ ∃ u, st_users st !! username = Some u ∧ ur_status u = Pending.
Proof.
  cbn. rewrite list_elem_of_fmap. split.
  - intros ([name u] & -> & Hin). apply elem_of_map_to_list in Hin.
    apply map_lookup_filter_Some in Hin as [Hu Hp]. by exists u.
  - intros (u & Hu & Hp). exists (username, u). split; [done|].
    apply elem_of_map_to_list. by apply map_lookup_filter_Some.
Qed.

Lemma store_user_data_pending (st : Store) username :
  username ∈ pending_users st → user_data st username = None.
Proof.
  intros (u & Hu & Hp)%elem_of_store_pending_users. cbn. by rewrite Hu, Hp.
Qed.

Lemma store_unknown_user_hash (st : Store) username :
  user_data st username = None → username ∉ pending_users st →
  _get_password_hash st username = None.
Proof.
  rewrite elem_of_store_pending_users. cbn.
  destruct (st_users st !! username) as [u|] eqn:Hu; [|done].
  destruct (ur_status u) eqn:Hs; [|done]. intros _ []. by exists u.
Qed.

(** ** The theorems at concrete backends *)

Lemma allowed_permissions_defaults_witness :
  ((user_permissions empty_store "foo" = [] ∧ group_permissions empty_store "foo" = [])
   ∧ dict_get Authenticated (allowed_permissions (two_defaults_backend empty_store) "foo")
     = Some ["read"; "write"])
  ∧ ((user_permissions alice_store "foo" ≠ [] ∨ group_permissions alice_store "foo" ≠ [])
     ∧ allowed_permissions (two_defaults_backend alice_store) "foo"
       = [("user:alice", ["write"])]).
Proof.
  split.
  - split; [split; reflexivity|].
    pose proof (proj1 (allowed_permissions_defaults (two_defaults_backend empty_store) "foo")
                  (conj eq_refl eq_refl) Authenticated) as H.
    exact H.
  - assert (user_permissions alice_store "foo" ≠ []
            ∨ group_permissions alice_store "foo" ≠ []) as Hgrant.
    { left. vm_compute. discriminate. }
    split; [exact Hgrant|].
    pose proof (proj1 (proj2 (allowed_permissions_defaults
                                (two_defaults_backend alice_store) "foo") Hgrant)) as H.
    rewrite H. reflexivity.
Defined.

Lemma get_acl_not_sorted :
  get_acl (two_defaults_backend empty_store) "foo"
  = [(Allow, Everyone, "read"); (Allow, Authenticated, "read");
     (Allow, Authenticated, "write")]
  ∧ acl_sorted (get_acl (two_defaults_backend empty_store) "foo") = false.
Proof. split; reflexivity. Qed.

Lemma in_group_anonymous_everyone :
  ¬ (∀ group, group ≠ "everyone" →
              in_group (example_backend empty_store) None group = false).
Proof. intros H. specialize (H Everyone). by discriminate H. Qed.

Lemma in_group_cases_witness :
  in_group (example_backend pending_store) None Everyone = true
  ∧ in_group (example_backend pending_store) None "authenticated" = false
  ∧ in_group (example_backend pending_store) (Some "amy") Authenticated = true
  ∧ in_group (example_backend pending_store) (Some "amy") "admin" = true
  ∧ in_group (example_backend pending_store) (Some "amy") "dev" = false.
Proof.
  split_and!.
  - exact (proj1 (in_group_cases (example_backend pending_store) None Everyone)
             (or_intror eq_refl)).
  - apply (proj1 (proj2 (in_group_cases (example_backend pending_store) None
                           "authenticated"))); discriminate.
  - exact (proj1 (proj2 (proj2 (in_group_cases (example_backend pending_store)
                                  (Some "amy") Authenticated)) "amy" eq_refl)
             (or_intror eq_refl)).
  - exact (proj1 (proj2 (proj2 (proj2 (in_group_cases (example_backend pending_store)
                                         (Some "amy") "admin")) "amy" eq_refl))
             eq_refl eq_refl).
  - rewrite (proj2 (proj2 (proj2 (proj2 (in_group_cases (example_backend pending_store)
                                           (Some "amy") "dev")) "amy" eq_refl))).
    + reflexivity.
    + rewrite !elem_of_cons, elem_of_nil. intros [?|[?|[?|[?|[]]]]]; discriminate.
    + by intros [? _].
Defined.

Lemma verify_user_without_hash_witness :
  _get_password_hash pending_store "ghost" = None
  ∧ verify_user (failing_backend pending_store) "ghost" "pw" = Return false.
Proof.
  split; [reflexivity|].
  apply (verify_user_without_hash (failing_backend pending_store) "ghost" "pw").
  left. reflexivity.
Defined.

Lemma verify_user_pending_witness :
  (("eve" ∈ pending_users pending_store)
   ∧ (pwd_verify example_context "pw" "$pw" = Return true)
   ∧ (verify_user (example_backend pending_store) "eve" "pw" = Return false))
  ∧ (("amy" ∉ pending_users pending_store)
     ∧ (verify_user (example_backend pending_store) "amy" "pw" = Return true)).
Proof.
  assert ("eve" ∈ pending_users pending_store) as Heve.
  { apply (bool_decide_unpack _). by vm_compute. }
  assert ("amy" ∉ pending_users pending_store) as Hamy.
  { apply (bool_decide_unpack _). by vm_compute. }
  split.
  - split_and!; [exact Heve|reflexivity|].
    apply (@verify_user_pending Store store_access store_mutable (example_backend pending_store) "eve" "pw" (eq_refl true)
             (store_user_data_pending pending_store)
             (store_unknown_user_hash pending_store)).
    exact Heve.
  - split; [exact Hamy|].
    apply (@verify_user_pending Store store_access store_mutable (example_backend pending_store) "amy" "pw" (eq_refl true)
             (store_user_data_pending pending_store)
             (store_unknown_user_hash pending_store)); [exact Hamy|].
    exists "$pw". by split_and!.
Defined.

(** ** Strings *)

Lemma str_app_cons c (s1 s2 : string) : String c s1 +:+ s2 = String c (s1 +:+ s2).
Proof. reflexivity. Qed.

Lemma str_app_char c (s : string) : String c "" +:+ s = String c s.
Proof. reflexivity. Qed.

Lemma str_app_assoc (s1 s2 s3 : string) : (s1 +:+ s2) +:+ s3 = s1 +:+ (s2 +:+ s3).
Proof. induction s1 as [|c s1 IH]; [done|]. by rewrite !str_app_cons, IH. Qed.

Lemma str_split_not_nil sep s : str_split sep s ≠ [].
Proof.
  destruct s as [|c s]; cbn; [done|].
  destruct (str_split sep s); [done|]. by destruct (decide (c = sep)).
Qed.

Lemma str_split_no_sep sep s : str_contains sep s = false → str_split sep s = [s].
Proof.
  induction s as [|c s IH]; cbn; [done|].
  intros [Hc Hs]%orb_false_iff. rewrite (IH Hs).
  apply bool_decide_eq_false in Hc. by rewrite decide_False.
Qed.

(** Splitting what was joined: the text before the first separator is
    the first piece. *)
Lemma str_split_app sep s1 s2 :
  str_contains sep s1 = false →
  str_split sep (s1 +:+ String sep s2) = s1 :: str_split sep s2.
Proof.
  induction s1 as [|c s1 IH].
  - intros _. change ("" +:+ String sep s2) with (String sep s2). cbn.
    destruct (str_split sep s2) eqn:Hs2.
    + by apply str_split_not_nil in Hs2.
    + by rewrite decide_True.
  - rewrite str_app_cons. cbn. intros [Hc Hs]%orb_false_iff. rewrite (IH Hs).
    apply bool_decide_eq_false in Hc. by rewrite decide_False.
Qed.

Lemma str_split_singleton sep s piece : str_split sep s = [piece] → piece = s.
Proof.
  revert piece. induction s as [|c s IH]; intros piece; cbn.
  - by intros [= <-].
  - destruct (str_split sep s) as [|p ps] eqn:Hs.
    + by apply str_split_not_nil in Hs.
    + destruct (decide (c = sep)); [done|].
      intros [= <- ->]. by rewrite (IH p).
Qed.

(** The pieces and the separators between them make up the string. *)
Lemma str_split_length sep s :
  sum_list_with String.length (str_split sep s) + List.length (str_split sep s)
  = S (String.length s).
Proof.
  induction s as [|c s IH]; cbn; [done|].
  destruct (str_split sep s) as [|p ps] eqn:Hs.
  - by apply str_split_not_nil in Hs.
  - destruct (decide (c = sep)); cbn in *; lia.
Qed.

(** A string of the length of [expected] and different from it does not
    end, once split, in [expected]. *)
Lemma str_split_last_altered sep s expected :
  String.length s = String.length expected → s ≠ expected →
  ∃ pieces piece, str_split sep s = pieces ++ [piece] ∧ piece ≠ expected.
Proof.
  intros Hlen Hne.
  destruct (exists_last (str_split_not_nil sep s)) as (pieces & piece & Hsplit).
  exists pieces, piece. split; [done|]. intros ->.
  destruct pieces as [|p pieces].
  - apply str_split_singleton in Hsplit. done.
  - pose proof (str_split_length sep s) as Htotal. rewrite Hsplit in Htotal.
    cbn in Htotal. rewrite sum_list_with_app, length_app in Htotal.
    cbn in Htotal. lia.
Qed.

Lemma list_pop_snoc {A} (l : list A) x : list_pop (l ++ [x]) = Return (x, l).
Proof. unfold list_pop. by rewrite last_snoc, removelast_last. Qed.

(** ** Decimal numbers *)

Lemma lstrip_uint d : lstrip (NilEmpty.string_of_uint d) = NilEmpty.string_of_uint d.
Proof. by destruct d. Qed.

Lemma rstrip_uint d : rstrip (NilEmpty.string_of_uint d) = NilEmpty.string_of_uint d.
Proof.
  induction d; cbn [NilEmpty.string_of_uint rstrip]; [done|..];
    rewrite IHd; by destruct (NilEmpty.string_of_uint d).
Qed.

Lemma int_digits_uint d :
  int_digits true (NilEmpty.string_of_uint d) = Some (NilEmpty.string_of_uint d).
Proof.
  induction d; cbn [NilEmpty.string_of_uint int_digits]; [done|..];
    cbn; by rewrite IHd.
Qed.

Lemma str_contains_colon_uint d : str_contains ":" (NilEmpty.string_of_uint d) = false.
Proof. induction d; cbn; done. Qed.

(** [int] reads back the digits of a natural number. *)
Lemma py_int_uint d :
  d ≠ Decimal.Nil →
  py_int (NilEmpty.string_of_uint d) = Return (Z.of_uint d)
  ∧ py_int (String "-" (NilEmpty.string_of_uint d)) = Return (- Z.of_uint d)%Z.
Proof.
  intros Hd.
  assert (int_digits false (NilEmpty.string_of_uint d) ≫= NilEmpty.uint_of_string
          = Some d) as Hdigits.
  { assert (int_digits false (NilEmpty.string_of_uint d)
            = Some (NilEmpty.string_of_uint d)) as ->.
    { destruct d; [done|..]; cbn [NilEmpty.string_of_uint int_digits];
        change (is_digit _) with true; cbn match; by rewrite int_digits_uint. }
    apply NilEmpty.usu. }
  split.
  - unfold py_int. rewrite lstrip_uint, rstrip_uint.
    destruct d; [done|..]; cbn [NilEmpty.string_of_uint] in *; by rewrite Hdigits.
  - unfold py_int. cbn [lstrip]. change (is_space "-") with false. cbn match.
    assert (rstrip (String "-" (NilEmpty.string_of_uint d))
            = String "-" (NilEmpty.string_of_uint d)) as ->.
    { cbn [rstrip]. rewrite rstrip_uint. by destruct (NilEmpty.string_of_uint d). }
    by rewrite Hdigits.
Qed.

Lemma py_int_string_of_int d : py_int (NilZero.string_of_int d) = Return (Z.of_int d).
Proof.
  destruct d as [d|d]; cbn [NilZero.string_of_int Z.of_int].
  - destruct d; [done|..];
      match goal with
      | |- py_int (NilZero.string_of_uint ?u) = _ => apply (proj1 (py_int_uint u ltac:(done)))
      end.
  - destruct d; [done|..];
      match goal with
      | |- py_int (String _ (NilZero.string_of_uint ?u)) = _ =>
          apply (proj2 (py_int_uint u ltac:(done)))
      end.
Qed.

Lemma py_int_format_d x : py_int (format_d x) = Return (py_trunc x).
Proof. unfold format_d. by rewrite py_int_string_of_int, DecimalZ.of_to. Qed.

Lemma str_contains_colon_format_d x : str_contains ":" (format_d x) = false.
Proof.
  unfold format_d. destruct (Z.to_int (py_trunc x)) as [d|d];
    cbn [NilZero.string_of_int].
  - destruct d; [done|..]; apply str_contains_colon_uint.
  - destruct d; [done|..];
      match goal with
      | |- str_contains _ (String _ (NilZero.string_of_uint ?u)) = _ =>
          apply (str_contains_colon_uint u)
      end.
Qed.

Lemma py_trunc_inject_Z z : py_trunc (inject_Z z) = z.
Proof. unfold py_trunc. cbn. apply Z.quot_1_r. Qed.

Lemma format_d_inject_Z x : format_d (inject_Z (py_trunc x)) = format_d x.
Proof. unfold format_d. by rewrite py_trunc_inject_Z. Qed.

Lemma Qltb_lt x y : Qltb x y = true ↔ (x < y)%Q.
Proof.
  unfold Qltb. rewrite negb_true_iff, <- not_true_iff_false, Qle_bool_iff.
  split; [apply Qnot_le_lt|apply Qlt_not_le].
Qed.

(** ** Hexadecimal digests *)

Lemma str_contains_colon_hexlify bytes : str_contains ":" (hexlify bytes) = false.
Proof.
  induction bytes as [|b bytes IH]; [done|].
  cbn [hexlify str_contains]. rewrite IH.
  destruct b as [[] [] [] [] [] [] [] []]; vm_compute; reflexivity.
Qed.

(** ** Signup tokens *)

Section token_facts.
Context {St : Type} {hmac : HmacSha256}.
Implicit Types (self : Backend St) (username token key : string).

(** The token [get_signup_token] builds. *)
Lemma get_signup_token_value self key username (now : Q) :
  signing_key self = Some key →
  get_signup_token self username now
  = Return (username +:+ ":" +:+ format_d now +:+ ":"
            +:+ hexlify (hmac_sha256 key (username +:+ ":" +:+ format_d now))).
Proof.
  intros Hkey. unfold get_signup_token, _hmac. rewrite Hkey. cbn.
  by rewrite !str_app_assoc.
Qed.

(** Validation of [username:issued:signature], whatever the third
    segment is made of: the user name and the time stamp are read from the
    first two pieces, the signature is the last piece. *)
Lemma validate_signup_token_pieces self key username (issued_at now : Q)
    (pieces : list string) (signature : string) third :
  signing_key self = Some key →
  str_contains ":" username = false →
  str_split ":" third = pieces ++ [signature] →
  validate_signup_token self (username +:+ ":" +:+ format_d issued_at +:+ ":" +:+ third) now
  = if Qltb (inject_Z (py_trunc issued_at + token_expiration self)) now then Return None
    else if bool_decide
              (signature = hexlify (hmac_sha256 key (username +:+ ":" +:+ format_d issued_at)))
         then Return (Some username)
         else Return None.
Proof.
  intros Hkey Huser Hthird. unfold validate_signup_token. rewrite Hkey.
  rewrite !str_app_char.
  rewrite (str_split_app ":" username) by done.
  rewrite (str_split_app ":" (format_d issued_at)) by apply str_contains_colon_format_d.
  rewrite Hthird.
  change (username :: format_d issued_at :: pieces ++ [signature])
    with ((username :: format_d issued_at :: pieces) ++ [signature]).
  rewrite list_pop_snoc. cbn [mbind result_bind list_getitem lookup list_lookup].
  rewrite py_int_format_d. cbn [mbind result_bind].
  destruct (Qltb _ now); [done|].
  unfold _hmac. rewrite Hkey. cbn [mbind result_bind]. by rewrite format_d_inject_Z.
Qed.

(** C3: for a backend with a signing key and a user name without [":"],
    the token issued at [issued_at] validates to the user name as long as
    [now] is not past the token's time stamp plus the expiration window,
    validates to [None] once it is, and validates to [None] whenever the
    signature segment is replaced by a different string of its length. *)
Theorem signup_token_roundtrip self key username (issued_at now : Q) :
  signing_key self = Some key →
  str_contains ":" username = false →
  let message := username +:+ ":" +:+ format_d issued_at in
  let signature := hexlify (hmac_sha256 key message) in
  let issued := py_trunc issued_at in
  get_signup_token self username issued_at = Return (message +:+ ":" +:+ signature)
  ∧ ((now <= inject_Z (issued + token_expiration self))%Q →
     validate_signup_token self (message +:+ ":" +:+ signature) now
     = Return (Some username))
  ∧ ((inject_Z (issued + token_expiration self) < now)%Q →
     validate_signup_token self (message +:+ ":" +:+ signature) now = Return None)
  ∧ (∀ altered,
       String.length altered = String.length signature → altered ≠ signature →
       validate_signup_token self (message +:+ ":" +:+ altered) now = Return None).
Proof.
  intros Hkey Huser message signature issued. split_and!.
  - rewrite (get_signup_token_value self key) by done.
    unfold message. by rewrite !str_app_assoc.
  - intros Hnow. unfold message. rewrite !str_app_assoc.
    rewrite (validate_signup_token_pieces self key username issued_at now [] signature)
      by (done || apply str_split_no_sep, str_contains_colon_hexlify).
    destruct (Qltb _ now) eqn:Hlt.
    + apply Qltb_lt in Hlt. by apply Qlt_not_le in Hlt.
    + by rewrite bool_decide_eq_true_2.
  - intros Hnow. unfold message. rewrite !str_app_assoc.
    rewrite (validate_signup_token_pieces self key username issued_at now [] signature)
      by (done || apply str_split_no_sep, str_contains_colon_hexlify).
    apply Qltb_lt in Hnow. fold issued. by rewrite Hnow.
  - intros altered Hlen Hne.
    destruct (str_split_last_altered ":" altered signature Hlen Hne)
      as (pieces & piece & Hsplit & Hpiece).
    unfold message. rewrite !str_app_assoc.
    rewrite (validate_signup_token_pieces self key username issued_at now pieces piece)
      by done.
    destruct (Qltb _ now); [done|]. by rewrite bool_decide_eq_false_2.
Qed.

(** C4: with a signing key configured, a token without [":"] and a token
    whose second segment is not a number make [validate_signup_token]
    raise instead of returning [None]. *)
Theorem validate_signup_token_raises self key (now : Q) :
  signing_key self = Some key →
  validate_signup_token self "alice" now = Raise IndexError
  ∧ validate_signup_token self "alice:0123abcd" now = Raise IndexError
  ∧ validate_signup_token self "alice:soon:0123abcd" now = Raise ValueError.
Proof.
  intros Hkey. unfold validate_signup_token. rewrite Hkey. by split_and!.
Qed.
(** A user name with [":"] does not survive the token format: whatever
    the keyed hash and the clock, validating the token issued for ["a:b"]
    reads the time stamp from the piece ["b"]. *)
Lemma signup_token_colon_raises self key (issued_at now : Q) :
  signing_key self = Some key →
  (token ← get_signup_token self "a:b" issued_at; validate_signup_token self token now)
  = Raise ValueError.
Proof.
  intros Hkey. rewrite (get_signup_token_value self key) by done.
  cbn [mbind result_bind]. unfold validate_signup_token. rewrite Hkey.
  set (signature := hexlify _).
  assert ("a:b" +:+ ":" +:+ format_d issued_at +:+ ":" +:+ signature
          = "a" +:+ String ":" ("b" +:+ String ":" (format_d issued_at +:+ ":" +:+ signature)))
    as -> by reflexivity.
  rewrite (str_split_app ":" "a"), (str_split_app ":" "b") by done.
  destruct (exists_last (str_split_not_nil ":" (format_d issued_at +:+ ":" +:+ signature)))
    as (pieces & piece & ->).
  change ("a" :: "b" :: pieces ++ [piece]) with (("a" :: "b" :: pieces) ++ [piece]).
  by rewrite list_pop_snoc.
Qed.
End token_facts.

Lemma signup_token_colon_username :
  ¬ (∀ username,
       (token ← get_signup_token (hmac := example_hmac)
                  (example_backend empty_store) username 1000;
        validate_signup_token (hmac := example_hmac)
          (example_backend empty_store) token 1000)
       = Return (Some username)).
Proof. intros H. specialize (H "a:b"). vm_compute in H. discriminate H. Qed.

Lemma signup_token_roundtrip_witness :
  str_contains ":" "bob" = false
  ∧ get_signup_token (hmac := example_hmac) (example_backend empty_store) "bob" (2001 # 2)
    = Return "bob:1000:736563726574626f623a31303030"
  ∧ validate_signup_token (hmac := example_hmac) (example_backend empty_store)
      "bob:1000:736563726574626f623a31303030" (inject_Z (1000 + ONE_WEEK))
    = Return (Some "bob")
  ∧ validate_signup_token (hmac := example_hmac) (example_backend empty_store)
      "bob:1000:736563726574626f623a31303030" (inject_Z (1000 + ONE_WEEK + 1))
    = Return None
  ∧ validate_signup_token (hmac := example_hmac) (example_backend empty_store)
      "bob:1000:736563726574626f623a3130303f" 1000
    = Return None.
Proof.
  pose proof (signup_token_roundtrip (hmac := example_hmac)
                (example_backend empty_store) "secret" "bob" (2001 # 2)) as H.
  split; [reflexivity|]. split_and!.
  - pose proof (proj1 (H (inject_Z 0) eq_refl eq_refl)) as W.
    vm_compute in W |- *. exact W.
  - assert (inject_Z (1000 + ONE_WEEK)
            <= inject_Z (py_trunc (2001 # 2)
                         + token_expiration (example_backend empty_store)))%Q as Hnow.
    { by vm_compute. }
    pose proof (proj1 (proj2 (H (inject_Z (1000 + ONE_WEEK)) eq_refl eq_refl)) Hnow) as W.
    vm_compute in W |- *. exact W.
  - assert (inject_Z (py_trunc (2001 # 2) + token_expiration (example_backend empty_store))
            < inject_Z (1000 + ONE_WEEK + 1))%Q as Hnow.
    { by vm_compute. }
    pose proof (proj1 (proj2 (proj2 (H (inject_Z (1000 + ONE_WEEK + 1)) eq_refl eq_refl)))
                  Hnow) as W.
    vm_compute in W |- *. exact W.
  - pose proof (proj2 (proj2 (proj2 (H 1000%Q eq_refl eq_refl)))
                  "736563726574626f623a3130303f" eq_refl) as W.
    assert ("736563726574626f623a3130303f"
            ≠ hexlify (hmac_sha256 (HmacSha256 := example_hmac) "secret"
                         ("bob" +:+ ":" +:+ format_d (2001 # 2)))) as Hne.
    { vm_compute. discriminate. }
    specialize (W Hne). vm_compute in W |- *. exact W.
Defined.

Lemma validate_signup_token_raises_witness :
  signing_key (example_backend empty_store) = Some "secret"
  ∧ validate_signup_token (hmac := example_hmac) (example_backend empty_store)
      "alice" 1000 = Raise IndexError.
Proof.
  split; [reflexivity|].
  exact (proj1 (validate_signup_token_raises (hmac := example_hmac)
                  (example_backend empty_store) "secret" 1000 eq_refl)).
Defined.

(** ** Loops over the storage *)

(** A loop stays within a preorder that each run of its body stays
    within. *)
Lemma for_each_preorder {A St} (R : relation St) `{!PreOrder R}
    (l : list A) (body : A → St → St) (st : St) :
  (∀ a st, a ∈ l → R st (body a st)) → R st (for_each l body st).
Proof.
  unfold for_each. revert st. induction l as [|a l IH]; intros st Hbody; cbn.
  - reflexivity.
  - transitivity (body a st).
    + apply Hbody. left.
    + apply IH. intros a' st' Hin. apply Hbody. by right.
Qed.

(** A loop on a traced storage runs the same loop on the storage. *)
Lemma for_each_traced {A St} (l : list A) (body : A → Traced St → Traced St)
    (body0 : A → St → St) (t : Traced St) :
  (∀ a t, (body a t).1 = body0 a t.1) →
  (for_each l body t).1 = for_each l body0 t.1.
Proof.
  intros Hbody. unfold for_each. revert t. induction l as [|a l IH]; intros t; cbn.
  - done.
  - by rewrite IH, Hbody.
Qed.

(** A loop whose body records no call of a kind leaves the calls of that
    kind as they were. *)
Lemma for_each_calls {A St} (call : Mutation) (l : list A)
    (body : A → Traced St → Traced St) (t : Traced St) :
  (∀ a t, call ∈ (body a t).2 ↔ call ∈ t.2) →
  call ∈ (for_each l body t).2 ↔ call ∈ t.2.
Proof.
  intros Hbody. unfold for_each. revert t. induction l as [|a l IH]; intros t; cbn.
  - done.
  - by rewrite IH, Hbody.
Qed.

Lemma traced_calls {St} (call call' : Mutation) (f : St → St) (t : Traced St) :
  call ≠ call' → call ∈ (traced call' f t).2 ↔ call ∈ t.2.
Proof.
  intros Hne. unfold traced. cbn. rewrite elem_of_app, list_elem_of_singleton.
  split; [by intros [?|?]|by left].
Qed.

(** ** [load] on a traced storage *)

Section load_traced.
Context {St : Type} `{!IAccessBackend St} `{!IMutableAccessBackend St}.
Implicit Types (t : Traced St) (call : Mutation).

Lemma load_users_traced pending users t :
  (load_users pending users t).1 = load_users pending users t.1.
Proof.
  unfold load_users. apply for_each_traced. intros user t'.
  unfold load_user, user_exists. cbn.
  by destruct (str_in (su_username user) pending
               || bool_decide (is_Some (user_data t'.1 (su_username user)))).
Qed.

Lemma load_group_traced group members t :
  (load_group group members t).1 = load_group group members t.1.
Proof.
  unfold load_group. cbn.
  destruct (group_members t.1 group) eqn:Hmembers; cbn.
  - by rewrite (for_each_traced _ _ (λ member, edit_user_group member group true)).
  - rewrite Hmembers.
    by rewrite (for_each_traced _ _ (λ member, edit_user_group member group true)).
Qed.

Lemma load_groups_traced groups t :
  (load_groups groups t).1 = load_groups groups t.1.
Proof.
  unfold load_groups. apply for_each_traced. intros [group members] t'.
  apply load_group_traced.
Qed.

Lemma load_pending_users_traced pending users t :
  (load_pending_users pending users t).1 = load_pending_users pending users t.1.
Proof.
  unfold load_pending_users. apply for_each_traced. intros user t'.
  unfold load_pending_user, user_exists. cbn.
  by destruct (str_in (su_username user) pending
               || bool_decide (is_Some (user_data t'.1 (su_username user)))).
Qed.

Lemma load_group_permissions_traced packages t :
  (load_group_permissions packages t).1 = load_group_permissions packages t.1.
Proof.
  unfold load_group_permissions. apply for_each_traced. intros [package groups] t1.
  apply for_each_traced. intros [group permissions] t2.
  by apply for_each_traced.
Qed.

Lemma load_user_permissions_traced packages t :
  (load_user_permissions packages t).1 = load_user_permissions packages t.1.
Proof.
  unfold load_user_permissions. apply for_each_traced. intros [package users] t1.
  apply for_each_traced. intros [user permissions] t2.
  by apply for_each_traced.
Qed.

Lemma load_storage_traced data t : (load_storage data t).1 = load_storage data t.1.
Proof.
  unfold load_storage. cbn.
  by rewrite load_user_permissions_traced, load_group_permissions_traced,
    load_pending_users_traced, load_groups_traced, load_users_traced.
Qed.

(** Outside the loop over the groups no group is created. *)
Lemma load_users_calls group pending users t :
  CreateGroup group ∈ (load_users pending users t).2 ↔ CreateGroup group ∈ t.2.
Proof.
  unfold load_users. apply for_each_calls. intros user t'. unfold load_user.
  destruct (user_exists pending t' (su_username user)).
  - by apply traced_calls.
  - etrans; [by apply traced_calls|]. etrans; [by apply traced_calls|].
    by apply traced_calls.
Qed.

Lemma load_pending_users_calls group pending users t :
  CreateGroup group ∈ (load_pending_users pending users t).2 ↔ CreateGroup group ∈ t.2.
Proof.
  unfold load_pending_users. apply for_each_calls. intros user t'.
  unfold load_pending_user.
  destruct (user_exists pending t' (su_username user)); [done|].
  by apply traced_calls.
Qed.

Lemma load_group_permissions_calls group packages t :
  CreateGroup group ∈ (load_group_permissions packages t).2 ↔ CreateGroup group ∈ t.2.
Proof.
  unfold load_group_permissions. apply for_each_calls. intros [package groups] t1.
  apply for_each_calls. intros [group' permissions] t2.
  apply for_each_calls. intros perm t3. by apply traced_calls.
Qed.

Lemma load_user_permissions_calls group packages t :
  CreateGroup group ∈ (load_user_permissions packages t).2 ↔ CreateGroup group ∈ t.2.
Proof.
  unfold load_user_permissions. apply for_each_calls. intros [package users] t1.
  apply for_each_calls. intros [user permissions] t2.
  apply for_each_calls. intros perm t3. by apply traced_calls.
Qed.
End load_traced.

(** ** The reference store under the mutations of [load] *)

#[global] Instance store_includes_preorder : PreOrder store_includes.
Proof.
  split.
  - intros st. by repeat split.
  - intros st1 st2 st3 (Hu1 & Hg1 & Hd1 & Hm1) (Hu2 & Hg2 & Hd2 & Hm2).
    repeat split; try (etrans; eassumption).
    intros group. etrans; [apply Hm1|apply Hm2].
Qed.

#[global] Instance store_grows_in_preorder groups : PreOrder (store_grows_in groups).
Proof.
  split.
  - intros st. split; [reflexivity|done].
  - intros st1 st2 st3 [Hi1 Hf1] [Hi2 Hf2]. split; [by etrans|].
    intros group Hgroup. by rewrite Hf2, Hf1.
Qed.

Lemma store_grows_in_weaken groups groups' st st' :
  groups ⊆ groups' → store_grows_in groups st st' → store_grows_in groups' st st'.
Proof.
  intros Hsub [Hi Hf]. split; [done|]. intros group Hgroup. apply Hf.
  intros Hin. by apply Hgroup, Hsub.
Qed.

(** A mutation that leaves groups and grants alone. *)
Lemma store_grows_in_users (st st' : Store) :
  st_groups st' = st_groups st →
  st_group_grants st' = st_group_grants st →
  st_user_grants st' = st_user_grants st →
  store_grows_in [] st st'.
Proof.
  intros Hg Hgg Hug. split; [|by rewrite Hg].
  unfold store_includes, store_members. by rewrite Hg, Hgg, Hug.
Qed.

Lemma register_grows username password (st : Store) :
  store_grows_in [] st (_register username password st).
Proof. by apply store_grows_in_users. Qed.

Lemma approve_user_grows username (st : Store) :
  store_grows_in [] st (approve_user username st).
Proof. by apply store_grows_in_users. Qed.

Lemma set_user_admin_grows username admin (st : Store) :
  store_grows_in [] st (set_user_admin username admin st).
Proof. by apply store_grows_in_users. Qed.

Lemma set_allow_register_grows allow (st : Store) :
  store_grows_in [] st (set_allow_register allow st).
Proof. by apply store_grows_in_users. Qed.

Lemma edit_group_permission_grows package group perm (st : Store) :
  store_grows_in [] st (edit_group_permission package group perm true st).
Proof.
  split; [|done]. unfold store_includes. cbn. split_and!; try done.
  apply union_subseteq_l.
Qed.

Lemma edit_user_permission_grows package username perm (st : Store) :
  store_grows_in [] st (edit_user_permission package username perm true st).
Proof.
  split; [|done]. unfold store_includes. cbn. split_and!; try done.
  apply union_subseteq_l.
Qed.

Lemma create_group_grows group (st : Store) :
  store_grows_in [group] st (create_group group st).
Proof.
  destruct st as [users groups group_grants user_grants allow]. cbn.
  unfold store_set_groups. cbn.
  destruct (groups !! group) as [members|] eqn:Hgroup; [reflexivity|].
  split.
  - unfold store_includes, store_members. cbn. split_and!; try done.
    + rewrite dom_insert_L. apply union_subseteq_r.
    + intros group'. destruct (decide (group = group')) as [<-|Hne].
      * by rewrite Hgroup.
      * by rewrite lookup_insert_ne.
  - cbn. intros group' Hne. rewrite lookup_insert_ne; [done|].
    intros ->. apply Hne. left.
Qed.

Lemma edit_user_group_grows username group (st : Store) :
  store_grows_in [group] st (edit_user_group username group true st).
Proof.
  destruct st as [users groups group_grants user_grants allow]. cbn.
  destruct (users !! username); [|reflexivity].
  unfold store_set_groups. split.
  - unfold store_includes, store_members. cbn. split_and!; try done.
    + by rewrite dom_alter_L.
    + intros group'. destruct (decide (group = group')) as [<-|Hne].
      * rewrite lookup_alter_eq. destruct (groups !! group); cbn; [|done].
        apply union_subseteq_l.
      * by rewrite lookup_alter_ne.
  - cbn. intros group' Hne. rewrite lookup_alter_ne; [done|].
    intros ->. apply Hne. left.
Qed.

Lemma load_users_grows pending users (st : Store) :
  store_grows_in [] st (load_users pending users st).
Proof.
  unfold load_users. apply for_each_preorder; [apply _|]. intros user st' _.
  unfold load_user.
  destruct (user_exists pending st' (su_username user)).
  - apply set_user_admin_grows.
  - etrans; [apply register_grows|]. etrans; [apply approve_user_grows|].
    apply set_user_admin_grows.
Qed.

Lemma load_pending_users_grows pending users (st : Store) :
  store_grows_in [] st (load_pending_users pending users st).
Proof.
  unfold load_pending_users. apply for_each_preorder; [apply _|]. intros user st' _.
  unfold load_pending_user.
  destruct (user_exists pending st' (su_username user)); [reflexivity|].
  apply register_grows.
Qed.

Lemma load_group_permissions_grows packages (st : Store) :
  store_grows_in [] st (load_group_permissions packages st).
Proof.
  unfold load_group_permissions.
  apply for_each_preorder; [apply _|]. intros [package groups] st1 _.
  apply for_each_preorder; [apply _|]. intros [group permissions] st2 _.
  apply for_each_preorder; [apply _|]. intros perm st3 _.
  apply edit_group_permission_grows.
Qed.

Lemma load_user_permissions_grows packages (st : Store) :
  store_grows_in [] st (load_user_permissions packages st).
Proof.
  unfold load_user_permissions.
  apply for_each_preorder; [apply _|]. intros [package users] st1 _.
  apply for_each_preorder; [apply _|]. intros [user permissions] st2 _.
  apply for_each_preorder; [apply _|]. intros perm st3 _.
  apply edit_user_permission_grows.
Qed.

Lemma load_group_grows group members (st : Store) :
  store_grows_in [group] st (load_group group members st).
Proof.
  unfold load_group. etrans.
  - instantiate (1 := match group_members st group with
                      | [] => create_group group st
                      | _ => st
                      end).
    destruct (group_members st group); [apply create_group_grows|reflexivity].
  - apply for_each_preorder; [apply _|]. intros member st' _.
    apply edit_user_group_grows.
Qed.

Lemma load_groups_grows groups (st : Store) :
  store_grows_in (dict_keys groups) st (load_groups groups st).
Proof.
  unfold load_groups. apply for_each_preorder; [apply _|].
  intros [group members] st' Hin.
  apply (store_grows_in_weaken [group]); [|apply (load_group_grows group members)].
  intros group' ->%list_elem_of_singleton.
  unfold dict_keys. apply list_elem_of_fmap. by exists (group, members).
Qed.

Lemma load_storage_grows data (st : Store) :
  store_grows_in (dict_keys (data_groups data)) st (load_storage data st).
Proof.
  unfold load_storage.
  assert (∀ st st', store_grows_in [] st st' →
                    store_grows_in (dict_keys (data_groups data)) st st') as Hweaken.
  { intros st1 st2. apply store_grows_in_weaken. by intros ? ?%elem_of_nil. }
  etrans; [apply Hweaken, load_users_grows|].
  etrans; [apply load_groups_grows|].
  etrans; [apply Hweaken, load_pending_users_grows|].
  etrans; [apply Hweaken, load_group_permissions_grows|].
  etrans; [apply Hweaken, load_user_permissions_grows|].
  apply Hweaken, set_allow_register_grows.
Qed.

(** ** The groups [load] creates *)

Lemma store_group_members_nil (st : Store) group :
  group_members st group = [] ↔ store_members st group = ∅.
Proof.
  cbn. rewrite elements_empty_iff. split; [apply leibniz_equiv|by intros ->].
Qed.

(** One round creates its group exactly when the group has no member. *)
Lemma load_group_calls group group' members (t : Traced Store) :
  CreateGroup group' ∈ (load_group group members t).2
  ↔ CreateGroup group' ∈ t.2 ∨ (group' = group ∧ store_members t.1 group = ∅).
Proof.
  unfold load_group.
  rewrite for_each_calls by (intros member t'; by apply traced_calls).
  rewrite <- store_group_members_nil.
  change (group_members t group) with (group_members t.1 group).
  destruct (group_members t.1 group) as [|member current].
  - change (create_group group t).2 with (t.2 ++ [CreateGroup group]).
    rewrite elem_of_app, list_elem_of_singleton. split.
    + intros [?|[= ->]]; [by left|by right].
    + intros [?|[-> _]]; [by left|by right].
  - split; [by left|]. by intros [?|[_ ?]].
Qed.

Lemma load_groups_calls groups group (t : Traced Store) :
  CreateGroup group ∈ (load_groups groups t).2
  ↔ CreateGroup group ∈ t.2
    ∨ (group ∈ dict_keys groups ∧ store_members t.1 group = ∅).
Proof.
  unfold load_groups, for_each, dict_keys.
  revert t. induction groups as [|[group0 members] groups IH]; intros t; cbn.
  - split; [by left|]. by intros [?|[?%elem_of_nil _]].
  - rewrite IH, load_group_calls, load_group_traced, elem_of_cons.
    pose proof (load_group_grows group0 members t.1) as [(_ & _ & _ & Hmembers) Hframe].
    destruct (decide (group = group0)) as [->|Hne].
    + destruct (decide (store_members t.1 group0 = ∅)) as [Hempty|Hmember].
      * split; intros _; [right; by split; [left|]|left; right; by split].
      * split.
        -- intros [[?|[_ ?]]|[_ Hempty]]; [by left|done|].
           destruct Hmember. apply leibniz_equiv, equiv_empty.
           rewrite <- Hempty. apply Hmembers.
        -- intros [?|[_ ?]]; [by left; left|done].
    + assert (store_members (load_group group0 members t.1) group
              = store_members t.1 group) as ->.
      { unfold store_members. rewrite Hframe; [done|].
        by intros ?%list_elem_of_singleton. }
      split.
      * intros [[?|[? _]]|[? ?]]; [by left|done|by right; split; [right|]].
      * intros [?|[[?|?] ?]]; [by left; left|done|by right].
Qed.

(** [load] on the reference store only adds.  Every grant, every
    group and every group membership of the store is still there after
    the load, a group that the snapshot does not declare is exactly as it
    was, and [create_group] is called for a group exactly when the
    snapshot declares it and [group_members] reports no member for it. *)
Theorem load_additive (self : Backend Store) (data : Snapshot) :
  store_includes (storage self) (storage (load self data))
  ∧ (∀ group, group ∉ dict_keys (data_groups data) →
       st_groups (storage (load self data)) !! group = st_groups (storage self) !! group)
  ∧ (∀ group,
       CreateGroup group ∈ load_calls data (storage self)
       ↔ group ∈ dict_keys (data_groups data) ∧ group_members (storage self) group = []).
Proof.
  destruct (load_storage_grows data (storage self)) as [Hincludes Hframe].
  split_and!; [done|done|]. intros group.
  unfold load_calls, load_storage.
  change (set_allow_register ?allow ?t).2 with (t.2 ++ [SetAllowRegister allow]).
  rewrite elem_of_app, list_elem_of_singleton.
  rewrite load_user_permissions_calls, load_group_permissions_calls,
    load_pending_users_calls, load_groups_calls, load_users_calls, load_users_traced.
  cbn [fst snd]. rewrite store_group_members_nil.
  assert (∀ pending,
            store_members (load_users pending (data_users data) (storage self)) group
            = store_members (storage self) group) as ->.
  { intros pending.
    destruct (load_users_grows pending (data_users data) (storage self)) as [_ Hsame].
    unfold store_members. rewrite Hsame; [done|]. apply not_elem_of_nil. }
  split.
  - intros [[?%elem_of_nil|?]|?]; done.
  - intros ?. by left; right.
Qed.

(** C5: [load] creates groups that are there.  The guard of the loop
    over the groups asks [group_members] for members and not the store
    for the group: a declared group that the store holds is created again
    exactly when it has no member. *)
Theorem load_creates_existing_group (self : Backend Store) (data : Snapshot) group :
  group ∈ dict_keys (data_groups data) →
  group ∈ dom (st_groups (storage self)) →
  CreateGroup group ∈ load_calls data (storage self)
  ↔ group_members (storage self) group = [].
Proof.
  intros Hdeclared _.
  rewrite (proj2 (proj2 (load_additive self data)) group). split; [by intros [_ ?]|done].
Qed.

Lemma load_creates_existing_group_witness :
  ("dev" ∈ dict_keys (data_groups dev_snapshot)
   ∧ "dev" ∈ dom (st_groups empty_dev_store))
  ∧ group_members empty_dev_store "dev" = []
  ∧ CreateGroup "dev" ∈ load_calls dev_snapshot empty_dev_store.
Proof.
  assert ("dev" ∈ dict_keys (data_groups dev_snapshot)) as Hdeclared by left.
  assert ("dev" ∈ dom (st_groups empty_dev_store)) as Hpresent.
  { apply (bool_decide_unpack _). by vm_compute. }
  assert (group_members empty_dev_store "dev" = []) as Hmembers by by vm_compute.
  split; [by split|]. split; [exact Hmembers|].
  exact (proj2 (load_creates_existing_group (example_backend empty_dev_store) dev_snapshot
                  "dev" Hdeclared Hpresent) Hmembers).
Defined.

(** Scenario D of the specification.  The snapshot that declares the
    group [dev] with the member [bob] and nothing else, loaded into the
    store with the group [qa]: [qa] keeps its member [carol], the grants
    stay and [dev] is created, but it stays without member, since [bob]
    is no user and a membership attaches to users only.  With [bob] also
    listed among the users, [dev] holds him. *)
Lemma load_scenario_d :
  let literal := load (example_backend qa_store) dev_group_snapshot in
  let self := load (example_backend qa_store) dev_snapshot in
  (group_members (storage literal) "qa" = ["carol"]
   ∧ st_groups (storage literal) !! "dev" = Some ∅
   ∧ group_permissions (storage literal) "foo" = [("qa", ["read"])]
   ∧ user_permissions (storage literal) "foo" = [("carol", ["write"])])
  ∧ (group_members (storage self) "qa" = ["carol"]
     ∧ group_members (storage self) "dev" = ["bob"]
     ∧ group_permissions (storage self) "foo" = [("qa", ["read"])]
     ∧ user_permissions (storage self) "foo" = [("carol", ["write"])]).
Proof. by vm_compute. Qed.

(** C6: loading the snapshot that declares [bob] as a pending user and
    as the member of [dev] twice does not give the store that loading it
    once gives: the membership attaches in the second load only. *)
Theorem load_twice_differs :
  let once := load (example_backend empty_store) pending_member_snapshot in
  let twice := load once pending_member_snapshot in
  group_members (storage once) "dev" = []
  ∧ group_members (storage twice) "dev" = ["bob"]
  ∧ storage twice ≠ storage once.
Proof.
  intros once twice.
  assert (group_members (storage once) "dev" = []) as Honce by by vm_compute.
  assert (group_members (storage twice) "dev" = ["bob"]) as Htwice by by vm_compute.
  split_and!; [done|done|].
  intros Heq. rewrite Heq, Honce in Htwice. discriminate Htwice.
Qed.

(** ** A second [load] of the same snapshot *)

Lemma store_eq (st st' : Store) :
  st_users st = st_users st' → st_groups st = st_groups st' →
  st_group_grants st = st_group_grants st' → st_user_grants st = st_user_grants st' →
  st_allow_register st = st_allow_register st' → st = st'.
Proof. destruct st, st'; cbn. by intros -> -> -> -> ->. Qed.

(** What a loop leaves alone: a property of the storage that each run
    of the body keeps holds after the loop. *)
Lemma for_each_invariant {A St} (P : St → Prop) (l : list A) (body : A → St → St) st :
  (∀ a st, a ∈ l → P st → P (body a st)) → P st → P (for_each l body st).
Proof.
  unfold for_each. revert st. induction l as [|a l IH]; intros st Hbody Hst; cbn; [done|].
  apply IH.
  - intros a' st' Hin. apply Hbody. by right.
  - apply Hbody; [left|done].
Qed.

(** A loop whose body changes nothing on the storages it meets changes
    nothing. *)
Lemma for_each_id {A St} (l : list A) (body : A → St → St) st :
  (∀ a, a ∈ l → body a st = st) → for_each l body st = st.
Proof.
  unfold for_each. induction l as [|a l IH]; intros Hbody; cbn; [done|].
  rewrite Hbody by left. apply IH. intros a' Hin. apply Hbody. by right.
Qed.

Lemma declared_admin_None users username :
  declared_admin users username = None ↔ username ∉ su_username <$> users.
Proof.
  induction users as [|user users IH]; cbn.
  - split; [intros _; apply not_elem_of_nil|done].
  - rewrite not_elem_of_cons, <- IH.
    destruct (declared_admin users username); [by split; [|intros [_ ?]]|].
    destruct (decide (su_username user = username)) as [Heq|Hne].
    + split; [done|]. by intros [? _].
    + by split.
Qed.

(** *** The users *)

Lemma for_each_cons {A St} (a : A) (l : list A) (body : A → St → St) st :
  for_each (a :: l) body st = for_each l body (body a st).
Proof. reflexivity. Qed.

Section users_phase.
Implicit Types (st : Store) (users : list SnapshotUser) (pending : list string).

(** A round of the loop over the users touches the users alone. *)
Lemma load_user_rest pending user st :
  st_groups (load_user pending user st) = st_groups st
  ∧ st_group_grants (load_user pending user st) = st_group_grants st
  ∧ st_user_grants (load_user pending user st) = st_user_grants st
  ∧ st_allow_register (load_user pending user st) = st_allow_register st.
Proof. unfold load_user. by destruct (user_exists pending st (su_username user)). Qed.

Lemma load_users_rest pending users st :
  st_groups (load_users pending users st) = st_groups st
  ∧ st_group_grants (load_users pending users st) = st_group_grants st
  ∧ st_user_grants (load_users pending users st) = st_user_grants st
  ∧ st_allow_register (load_users pending users st) = st_allow_register st.
Proof.
  unfold load_users.
  apply (for_each_invariant
           (λ st', st_groups st' = st_groups st
                   ∧ st_group_grants st' = st_group_grants st
                   ∧ st_user_grants st' = st_user_grants st
                   ∧ st_allow_register st' = st_allow_register st)); [|done].
  intros user st' _ (<- & <- & <- & <-). apply load_user_rest.
Qed.

Lemma load_user_frame pending user st username :
  su_username user ≠ username →
  st_users (load_user pending user st) !! username = st_users st !! username.
Proof.
  intros Hne. unfold load_user.
  destruct (user_exists pending st (su_username user)); cbn.
  - by rewrite lookup_alter_ne.
  - rewrite !lookup_alter_ne by done.
    destruct (st_users st !! su_username user); [done|]. by rewrite lookup_insert_ne.
Qed.

Lemma load_users_frame pending users st username :
  username ∉ su_username <$> users →
  st_users (load_users pending users st) !! username = st_users st !! username.
Proof.
  unfold load_users. revert st.
  induction users as [|user users IH]; intros st Hnin; [done|].
  rewrite fmap_cons in Hnin. apply not_elem_of_cons in Hnin as [Hne Hnin].
  rewrite for_each_cons, IH by done. by apply load_user_frame.
Qed.

Lemma load_user_dom pending user st :
  dom (st_users st) ⊆ dom (st_users (load_user pending user st)).
Proof.
  unfold load_user. destruct (user_exists pending st (su_username user)); cbn.
  - by rewrite dom_alter_L.
  - rewrite !dom_alter_L.
    destruct (st_users st !! su_username user); [done|].
    rewrite dom_insert_L. apply union_subseteq_r.
Qed.

Lemma load_users_dom pending users st :
  dom (st_users st) ⊆ dom (st_users (load_users pending users st)).
Proof.
  unfold load_users.
  apply (for_each_invariant (λ st', dom (st_users st) ⊆ dom (st_users st'))); [|done].
  intros user st' _ H. etrans; [apply H|]. apply load_user_dom.
Qed.

(** After its round a user is there with the declared flag. *)
Lemma load_user_admin pending user st :
  (∀ username, username ∈ pending → username ∈ dom (st_users st)) →
  ∃ u, st_users (load_user pending user st) !! su_username user = Some u
       ∧ ur_admin u = default false (su_admin user).
Proof.
  intros Hpending. unfold load_user.
  destruct (user_exists pending st (su_username user)) eqn:Hexists; cbn.
  - assert (is_Some (st_users st !! su_username user)) as [u Hu].
    { unfold user_exists in Hexists. apply orb_true_iff in Hexists as [Hin|Hdata].
      - apply elem_of_dom, Hpending. by apply bool_decide_eq_true in Hin.
      - apply bool_decide_eq_true in Hdata. cbn in Hdata.
        destruct (st_users st !! su_username user); [done|]. by destruct Hdata. }
    rewrite lookup_alter_eq, Hu. cbn. by eexists.
  - rewrite !lookup_alter_eq.
    destruct (st_users st !! su_username user) as [u|] eqn:Hu.
    + rewrite Hu. cbn. by eexists.
    + rewrite lookup_insert_eq. cbn. by eexists.
Qed.

Lemma load_users_admin pending users st username admin :
  (∀ username, username ∈ pending → username ∈ dom (st_users st)) →
  declared_admin users username = Some admin →
  ∃ u, st_users (load_users pending users st) !! username = Some u ∧ ur_admin u = admin.
Proof.
  unfold load_users. revert st.
  induction users as [|user users IH]; intros st Hpending; [done|].
  rewrite for_each_cons. cbn [declared_admin].
  assert (∀ username, username ∈ pending →
                      username ∈ dom (st_users (load_user pending user st))) as Hpending'.
  { intros name Hin. by apply load_user_dom, Hpending. }
  destruct (declared_admin users username) as [admin'|] eqn:Hrest.
  - intros [= <-]. by apply IH.
  - destruct (decide (su_username user = username)) as [<-|Hne]; [|done].
    intros [= <-].
    apply declared_admin_None in Hrest.
    pose proof (load_users_frame pending users (load_user pending user st) _ Hrest)
      as Hframe.
    unfold load_users in Hframe. rewrite Hframe.
    by apply load_user_admin.
Qed.

(** The users the snapshot declares are in the store after the loop. *)
Lemma load_users_declared pending users st username :
  (∀ username, username ∈ pending → username ∈ dom (st_users st)) →
  username ∈ su_username <$> users →
  username ∈ dom (st_users (load_users pending users st)).
Proof.
  intros Hpending Hin.
  destruct (declared_admin users username) as [admin|] eqn:Hadmin.
  - destruct (load_users_admin pending users st username admin Hpending Hadmin)
      as (u & Hu & _).
    apply elem_of_dom. by eexists.
  - by apply declared_admin_None in Hadmin.
Qed.
End users_phase.

(** The second run of the loop over the users, on a store that holds
    them all, only sets flags. *)
Section users_again.
Implicit Types (st : Store) (users : list SnapshotUser) (pending : list string).

Lemma user_exists_known pending st username :
  pending_listed pending st → username ∈ dom (st_users st) →
  user_exists pending st username = true.
Proof.
  intros Hlisted [u Hu]%elem_of_dom. unfold user_exists. apply orb_true_iff.
  destruct (ur_status u) eqn:Hstatus.
  - left. apply bool_decide_eq_true. by apply (Hlisted username u).
  - right. apply bool_decide_eq_true. cbn. by rewrite Hu, Hstatus.
Qed.

Lemma load_user_known pending user st :
  pending_listed pending st → su_username user ∈ dom (st_users st) →
  load_user pending user st
  = store_set_users (alter (set_admin (default false (su_admin user))) (su_username user)) st.
Proof.
  intros Hlisted Hknown. unfold load_user.
  by rewrite user_exists_known.
Qed.

Lemma load_user_known_listed pending user st :
  pending_listed pending st → su_username user ∈ dom (st_users st) →
  pending_listed pending (load_user pending user st).
Proof.
  intros Hlisted Hknown. rewrite load_user_known by done.
  intros username u. cbn. rewrite lookup_alter.
  destruct (decide (su_username user = username)) as [<-|Hne].
  - destruct (st_users st !! su_username user) as [u'|] eqn:Hu'; [|done].
    cbn. intros [= <-]. cbn. by apply Hlisted.
  - apply Hlisted.
Qed.

Lemma load_users_known pending users st username :
  pending_listed pending st →
  (∀ name, name ∈ su_username <$> users → name ∈ dom (st_users st)) →
  st_users (load_users pending users st) !! username
  = match declared_admin users username with
    | Some admin => set_admin admin <$> st_users st !! username
    | None => st_users st !! username
    end.
Proof.
  unfold load_users. revert st.
  induction users as [|user users IH]; intros st Hlisted Hknown; [done|].
  assert (su_username user ∈ dom (st_users st)) as Huser.
  { apply Hknown. rewrite fmap_cons. left. }
  rewrite for_each_cons, IH.
  - rewrite load_user_known by done. cbn [declared_admin st_users store_set_users].
    rewrite lookup_alter.
    destruct (declared_admin users username) as [admin|].
    + destruct (decide (su_username user = username)) as [<-|Hne]; [|done].
      by destruct (st_users st !! su_username user).
    + by destruct (decide (su_username user = username)) as [<-|Hne].
  - by apply load_user_known_listed.
  - intros name Hin. apply load_user_dom, Hknown. rewrite fmap_cons. by right.
Qed.

Lemma load_users_again pending users st :
  pending_listed pending st →
  (∀ name, name ∈ su_username <$> users → name ∈ dom (st_users st)) →
  (∀ name admin, declared_admin users name = Some admin →
                 ∃ u, st_users st !! name = Some u ∧ ur_admin u = admin) →
  load_users pending users st = st.
Proof.
  intros Hlisted Hknown Hadmin.
  destruct (load_users_rest pending users st) as (Hg & Hgg & Hug & Har).
  apply store_eq; try done. apply map_eq. intros name.
  rewrite load_users_known by done.
  destruct (declared_admin users name) as [admin|] eqn:Hdeclared; [|done].
  destruct (Hadmin name admin Hdeclared) as (u & -> & <-). by destruct u.
Qed.
End users_again.

(** *** The pending users *)

Section pending_phase.
Implicit Types (st : Store) (users : list SnapshotUser) (pending : list string).

Lemma load_pending_user_rest pending user st :
  st_groups (load_pending_user pending user st) = st_groups st
  ∧ st_group_grants (load_pending_user pending user st) = st_group_grants st
  ∧ st_user_grants (load_pending_user pending user st) = st_user_grants st
  ∧ st_allow_register (load_pending_user pending user st) = st_allow_register st.
Proof.
  unfold load_pending_user. by destruct (user_exists pending st (su_username user)).
Qed.

Lemma load_pending_users_rest pending users st :
  st_groups (load_pending_users pending users st) = st_groups st
  ∧ st_group_grants (load_pending_users pending users st) = st_group_grants st
  ∧ st_user_grants (load_pending_users pending users st) = st_user_grants st
  ∧ st_allow_register (load_pending_users pending users st) = st_allow_register st.
Proof.
  unfold load_pending_users.
  apply (for_each_invariant
           (λ st', st_groups st' = st_groups st
                   ∧ st_group_grants st' = st_group_grants st
                   ∧ st_user_grants st' = st_user_grants st
                   ∧ st_allow_register st' = st_allow_register st)); [|done].
  intros user st' _ (<- & <- & <- & <-). apply load_pending_user_rest.
Qed.

(** A user the store holds is not touched. *)
Lemma load_pending_user_kept pending user st username u :
  st_users st !! username = Some u →
  st_users (load_pending_user pending user st) !! username = Some u.
Proof.
  intros Hu. unfold load_pending_user.
  destruct (user_exists pending st (su_username user)); [done|]. cbn.
  destruct (st_users st !! su_username user) eqn:Huser; [done|].
  rewrite lookup_insert_ne; [done|]. intros Heq. rewrite Heq in Huser.
  by rewrite Hu in Huser.
Qed.

Lemma load_pending_users_kept pending users st username u :
  st_users st !! username = Some u →
  st_users (load_pending_users pending users st) !! username = Some u.
Proof.
  unfold load_pending_users.
  apply (for_each_invariant (λ st', st_users st' !! username = Some u)).
  intros user st' _. apply load_pending_user_kept.
Qed.

(** A user the loop introduces is one the snapshot declares pending. *)
Lemma load_pending_users_new pending users st username :
  username ∈ dom (st_users (load_pending_users pending users st)) →
  username ∈ dom (st_users st) ∨ username ∈ su_username <$> users.
Proof.
  unfold load_pending_users. revert st.
  induction users as [|user users IH]; intros st; [by left|].
  rewrite for_each_cons, fmap_cons. intros [Hin|Hin]%IH; [|by right; right].
  unfold load_pending_user in Hin.
  destruct (user_exists pending st (su_username user)); [by left|]. cbn in Hin.
  destruct (st_users st !! su_username user); [by left|].
  rewrite dom_insert_L in Hin. apply elem_of_union in Hin as [->%elem_of_singleton|Hin].
  - right. left.
  - by left.
Qed.

Lemma load_pending_user_declared pending user st :
  (∀ username, username ∈ pending → username ∈ dom (st_users st)) →
  su_username user ∈ dom (st_users (load_pending_user pending user st)).
Proof.
  intros Hpending. unfold load_pending_user.
  destruct (user_exists pending st (su_username user)) eqn:Hexists.
  - unfold user_exists in Hexists. apply orb_true_iff in Hexists as [Hin|Hdata].
    + apply Hpending. by apply bool_decide_eq_true in Hin.
    + apply bool_decide_eq_true in Hdata. cbn in Hdata. apply elem_of_dom.
      destruct (st_users st !! su_username user); [done|]. by destruct Hdata.
  - cbn. destruct (st_users st !! su_username user) eqn:Hu.
    + apply elem_of_dom. by rewrite Hu.
    + rewrite dom_insert_L. apply elem_of_union_l. by apply elem_of_singleton.
Qed.

Lemma load_pending_users_declared pending users st username :
  (∀ username, username ∈ pending → username ∈ dom (st_users st)) →
  username ∈ su_username <$> users →
  username ∈ dom (st_users (load_pending_users pending users st)).
Proof.
  unfold load_pending_users. revert st.
  induction users as [|user users IH]; intros st Hpending; [by intros ?%elem_of_nil|].
  rewrite for_each_cons, fmap_cons.
  assert (∀ name u, st_users st !! name = Some u →
                    st_users (load_pending_user pending user st) !! name = Some u) as Hkept.
  { intros name u. apply load_pending_user_kept. }
  intros [->|Hin]%elem_of_cons.
  - pose proof (load_pending_user_declared pending user st Hpending) as Hdeclared.
    apply elem_of_dom in Hdeclared as [u Hu].
    apply elem_of_dom. exists u.
    by apply (for_each_invariant (λ st', st_users st' !! su_username user = Some u));
      [intros user' st' _; apply load_pending_user_kept|].
  - apply IH; [|done]. intros name [u Hu]%Hpending%elem_of_dom.
    apply elem_of_dom. exists u. by apply Hkept.
Qed.

Lemma load_pending_users_again pending users st :
  pending_listed pending st →
  (∀ name, name ∈ su_username <$> users → name ∈ dom (st_users st)) →
  load_pending_users pending users st = st.
Proof.
  intros Hlisted Hknown. unfold load_pending_users. apply for_each_id.
  intros user Hin. unfold load_pending_user. rewrite user_exists_known; [done..|].
  apply Hknown, list_elem_of_fmap. by exists user.
Qed.
End pending_phase.

(** *** The groups *)

(** What each round of a loop establishes for its element, and no later
    round undoes, holds of every element after the loop. *)
Lemma for_each_establishes {A St} (P : St → Prop) (Q : A → St → Prop)
    (l : list A) (body : A → St → St) st :
  P st →
  (∀ a st, a ∈ l → P st → P (body a st) ∧ Q a (body a st)) →
  (∀ a b st, b ∈ l → P st → Q a st → Q a (body b st)) →
  ∀ a, a ∈ l → Q a (for_each l body st).
Proof.
  revert st. induction l as [|b l IH]; intros st Hst Hbody Hkeep a Hin.
  - by apply elem_of_nil in Hin.
  - rewrite for_each_cons.
    destruct (Hbody b st ltac:(left) Hst) as [Hst' Hb].
    assert (∀ st', P st' → Q b st' → Q b (for_each l body st')) as Hrest.
    { intros st' HP HQ.
      assert (P (for_each l body st') ∧ Q b (for_each l body st')) as [_ ?]; [|done].
      apply (for_each_invariant (λ st, P st ∧ Q b st)); [|done].
      intros c st'' Hc [HP' HQ']. split.
      - apply Hbody; [by right|done].
      - apply Hkeep; [by right|done..]. }
    apply elem_of_cons in Hin as [->|Hin].
    + by apply Hrest.
    + apply IH; try done.
      * intros c st' Hc. apply Hbody. by right.
      * intros c d st' Hd. apply Hkeep. by right.
Qed.

Section groups_phase.
Implicit Types (st : Store) (group member : string) (members : list string).

Lemma create_group_rest group st :
  st_users (create_group group st) = st_users st
  ∧ st_group_grants (create_group group st) = st_group_grants st
  ∧ st_user_grants (create_group group st) = st_user_grants st
  ∧ st_allow_register (create_group group st) = st_allow_register st.
Proof. done. Qed.

Lemma edit_user_group_rest member group st :
  st_users (edit_user_group member group true st) = st_users st
  ∧ st_group_grants (edit_user_group member group true st) = st_group_grants st
  ∧ st_user_grants (edit_user_group member group true st) = st_user_grants st
  ∧ st_allow_register (edit_user_group member group true st) = st_allow_register st.
Proof. cbn. by destruct (st_users st !! member). Qed.

Lemma load_group_rest group members st :
  st_users (load_group group members st) = st_users st
  ∧ st_group_grants (load_group group members st) = st_group_grants st
  ∧ st_user_grants (load_group group members st) = st_user_grants st
  ∧ st_allow_register (load_group group members st) = st_allow_register st.
Proof.
  unfold load_group.
  set (st1 := match group_members st group with
              | [] => create_group group st
              | _ => st
              end).
  assert (st_users st1 = st_users st
          ∧ st_group_grants st1 = st_group_grants st
          ∧ st_user_grants st1 = st_user_grants st
          ∧ st_allow_register st1 = st_allow_register st) as Hst1.
  { unfold st1. by destruct (group_members st group). }
  apply (for_each_invariant
           (λ st', st_users st' = st_users st
                   ∧ st_group_grants st' = st_group_grants st
                   ∧ st_user_grants st' = st_user_grants st
                   ∧ st_allow_register st' = st_allow_register st)); [|done].
  intros member st' _ (<- & <- & <- & <-). apply edit_user_group_rest.
Qed.

Lemma load_groups_rest groups st :
  st_users (load_groups groups st) = st_users st
  ∧ st_group_grants (load_groups groups st) = st_group_grants st
  ∧ st_user_grants (load_groups groups st) = st_user_grants st
  ∧ st_allow_register (load_groups groups st) = st_allow_register st.
Proof.
  unfold load_groups.
  apply (for_each_invariant
           (λ st', st_users st' = st_users st
                   ∧ st_group_grants st' = st_group_grants st
                   ∧ st_user_grants st' = st_user_grants st
                   ∧ st_allow_register st' = st_allow_register st)); [|done].
  intros [group members] st' _ (<- & <- & <- & <-). apply load_group_rest.
Qed.

Lemma elem_of_set_difference member members current :
  member ∈ set_difference members current ↔ member ∈ members ∧ member ∉ current.
Proof.
  unfold set_difference. rewrite elem_of_remove_dups, list_elem_of_filter. tauto.
Qed.

(** Adding a user of the store to a group of the store attaches it. *)
Lemma edit_user_group_attaches member group st :
  group ∈ dom (st_groups st) → member ∈ dom (st_users st) →
  member ∈ store_members (edit_user_group member group true st) group.
Proof.
  intros [current Hgroup]%elem_of_dom [u Hu]%elem_of_dom.
  cbn. rewrite Hu. unfold store_members. cbn.
  rewrite lookup_alter_eq, Hgroup. cbn. by apply elem_of_union_r, elem_of_singleton.
Qed.

(** After its round a group holds the declared members that are users. *)
Lemma load_group_attaches group members st :
  members_attached group members (load_group group members st).
Proof.
  unfold load_group.
  set (st1 := match group_members st group with
              | [] => create_group group st
              | _ => st
              end).
  assert (group ∈ dom (st_groups st1)) as Hgroup.
  { unfold st1. destruct (group_members st group) as [|member current] eqn:Hmembers.
    - cbn. destruct (st_groups st !! group) eqn:Hg.
      + apply elem_of_dom. by rewrite Hg.
      + rewrite dom_insert_L. by apply elem_of_union_l, elem_of_singleton.
    - apply elem_of_dom. cbn in Hmembers. unfold store_members in Hmembers.
      destruct (st_groups st !! group); [done|].
      cbn in Hmembers. by rewrite elements_empty in Hmembers. }
  set (add_members := set_difference members (group_members st1 group)).
  assert (store_grows_in [group] st1
            (for_each add_members (λ member, edit_user_group member group true) st1))
    as [(_ & _ & Hdom & Hkeep) _].
  { apply for_each_preorder; [apply _|]. intros member st' _.
    apply edit_user_group_grows. }
  split; [by apply Hdom|]. intros member Hin Huser.
  destruct (decide (member ∈ store_members st1 group)) as [Hcurrent|Hnew].
  { by apply Hkeep. }
  assert (member ∈ add_members) as Hadd.
  { apply elem_of_set_difference. split; [done|]. cbn. by rewrite elem_of_elements. }
  apply (for_each_establishes
           (λ st', group ∈ dom (st_groups st'))
           (λ member st', member ∈ dom (st_users st') →
                          member ∈ store_members st' group)
           add_members); try done.
  - intros member' st' _ Hgroup'.
    destruct (edit_user_group_grows member' group st') as [(_ & _ & Hdom' & _) _].
    split; [by apply Hdom'|]. intros Huser'.
    apply edit_user_group_attaches; [done|].
    by destruct (edit_user_group_rest member' group st') as [<- _].
  - intros member' other st' _ _ Hmember Huser'.
    destruct (edit_user_group_grows other group st') as [(_ & _ & _ & Hkeep') _].
    apply Hkeep', Hmember.
    by destruct (edit_user_group_rest other group st') as [<- _].
Qed.

Lemma load_group_keeps_attached group members group' members' st :
  members_attached group members st →
  members_attached group members (load_group group' members' st).
Proof.
  intros [Hgroup Hmembers].
  destruct (load_group_grows group' members' st) as [(_ & _ & Hdom & Hkeep) _].
  destruct (load_group_rest group' members' st) as [Husers _].
  split; [by apply Hdom|]. intros member Hin Huser.
  apply Hkeep, Hmembers; [done|]. by rewrite <- Husers.
Qed.

Lemma load_groups_attaches groups st group members :
  (group, members) ∈ groups → members_attached group members (load_groups groups st).
Proof.
  intros Hin. unfold load_groups.
  apply (for_each_establishes (λ _, True)
           (λ entry st', members_attached entry.1 entry.2 st')
           groups (λ '(group, members), load_group group members) st I
           ltac:(intros [g ms] st' _ _; split; [done|apply load_group_attaches])
           ltac:(intros [g ms] [g' ms'] st' _ _; apply load_group_keeps_attached)
           (group, members) Hin).
Qed.

(** A round on a store that holds the group with its members changes
    nothing. *)
Lemma load_group_again group members st :
  members_attached group members st → load_group group members st = st.
Proof.
  intros [Hgroup Hmembers]. unfold load_group.
  assert (match group_members st group with
          | [] => create_group group st
          | _ => st
          end = st) as ->.
  { destruct (group_members st group); [|done].
    apply elem_of_dom in Hgroup as [current Hcurrent].
    apply store_eq; try done. cbn. by rewrite Hcurrent. }
  apply for_each_id. intros member [Hin Hnew]%elem_of_set_difference.
  cbn in Hnew. rewrite elem_of_elements in Hnew.
  cbn. destruct (st_users st !! member) eqn:Huser; [|done].
  destruct Hnew. apply Hmembers; [done|]. apply elem_of_dom. by rewrite Huser.
Qed.

Lemma load_groups_again groups st :
  (∀ group members, (group, members) ∈ groups → members_attached group members st) →
  load_groups groups st = st.
Proof.
  intros Hgroups. unfold load_groups. apply for_each_id.
  intros [group members] Hin. by apply load_group_again, Hgroups.
Qed.
End groups_phase.

(** *** The grants *)

Lemma load_group_permissions_shape {St} `{!IAccessBackend St} `{!IMutableAccessBackend St}
    packages (st : St) :
  load_group_permissions packages st = load_permissions edit_group_permission packages st.
Proof. reflexivity. Qed.

Lemma load_user_permissions_shape {St} `{!IAccessBackend St} `{!IMutableAccessBackend St}
    packages (st : St) :
  load_user_permissions packages st = load_permissions edit_user_permission packages st.
Proof. reflexivity. Qed.

Section grants_phase.
Context (edit : string → string → string → bool → Store → Store).
Context (grants : Store → gset (string * string * string)).
Hypothesis edit_grants :
  ∀ package name perm st,
    grants (edit package name perm true st) = grants st ∪ {[ (package, name, perm) ]}.
Hypothesis edit_again :
  ∀ package name perm st,
    (package, name, perm) ∈ grants st → edit package name perm true st = st.
Implicit Types (st : Store) (packages : dict (dict (list string))).

(** A loop that adds to the grants what [added] says of its elements. *)
Lemma for_each_grants {A} (added : A → string * string * string → Prop)
    (l : list A) (body : A → Store → Store) st grant :
  (∀ a st grant, grant ∈ grants (body a st) ↔ grant ∈ grants st ∨ added a grant) →
  grant ∈ grants (for_each l body st) ↔ grant ∈ grants st ∨ ∃ a, a ∈ l ∧ added a grant.
Proof.
  intros Hbody. revert st. induction l as [|a l IH]; intros st.
  - split; [by left|]. by intros [?|(? & ?%elem_of_nil & _)].
  - rewrite for_each_cons, IH, Hbody. split.
    + intros [[?|?]|(b & ? & ?)]; [by left| |].
      * right. exists a. split; [left|done].
      * right. exists b. split; [by right|done].
    + intros [?|(b & [->|?]%elem_of_cons & ?)]; [by left; left|by left; right|].
      right. by exists b.
Qed.

Lemma load_permissions_grants packages st grant :
  grant ∈ grants (load_permissions edit packages st)
  ↔ grant ∈ grants st ∨ declared_grants packages grant.
Proof.
  unfold load_permissions.
  rewrite (for_each_grants
             (λ entry grant, ∃ name perms perm,
                (name, perms) ∈ entry.2 ∧ perm ∈ perms ∧ grant = (entry.1, name, perm))).
  - destruct grant as [[package name] perm]. cbn. split.
    + intros [?|([package' names] & Hin & name' & perms & perm' & Hname & Hperm & [= -> -> ->])];
        [by left|].
      right. by exists names, perms.
    + intros [?|(names & perms & Hin & Hname & Hperm)]; [by left|].
      right. exists (package, names). split; [done|]. by exists name, perms, perm.
  - intros [package names] st' grant'. cbn [fst snd].
    rewrite (for_each_grants
               (λ entry grant, ∃ perm, perm ∈ entry.2 ∧ grant = (package, entry.1, perm))).
    + split.
      * intros [?|([name perms] & Hin & perm & Hperm & ->)]; [by left|].
        right. by exists name, perms, perm.
      * intros [?|(name & perms & perm & Hin & Hperm & ->)]; [by left|].
        right. exists (name, perms). split; [done|]. by exists perm.
    + intros [name perms] st'' grant''. cbn [fst snd].
      rewrite (for_each_grants (λ perm grant, grant = (package, name, perm))).
      * split.
        -- intros [?|(perm & Hperm & ->)]; [by left|]. right. by exists perm.
        -- intros [?|(perm & Hperm & ->)]; [by left|]. right. by exists perm.
      * intros perm st3 grant3. rewrite edit_grants, elem_of_union, elem_of_singleton.
        done.
Qed.

Lemma load_permissions_again packages st :
  (∀ grant, declared_grants packages grant → grant ∈ grants st) →
  load_permissions edit packages st = st.
Proof.
  intros Hdeclared. unfold load_permissions.
  apply for_each_id. intros [package names] Hpackage.
  apply for_each_id. intros [name perms] Hname.
  apply for_each_id. intros perm Hperm.
  apply edit_again, (Hdeclared (package, name, perm)). by exists names, perms.
Qed.

Lemma load_permissions_invariant (P : Store → Prop) packages st :
  (∀ package name perm st, P st → P (edit package name perm true st)) →
  P st → P (load_permissions edit packages st).
Proof.
  intros Hedit. unfold load_permissions.
  apply for_each_invariant. intros [package names] st1 _.
  apply for_each_invariant. intros [name perms] st2 _.
  apply for_each_invariant. intros perm st3 _. apply Hedit.
Qed.
End grants_phase.

Lemma edit_group_permission_again package group perm (st : Store) :
  (package, group, perm) ∈ st_group_grants st →
  edit_group_permission package group perm true st = st.
Proof.
  intros Hin. apply store_eq; try done. cbn.
  rewrite (comm_L (∪)). apply subseteq_union_1_L. by apply singleton_subseteq_l.
Qed.

Lemma edit_user_permission_again package username perm (st : Store) :
  (package, username, perm) ∈ st_user_grants st →
  edit_user_permission package username perm true st = st.
Proof.
  intros Hin. apply store_eq; try done. cbn.
  rewrite (comm_L (∪)). apply subseteq_union_1_L. by apply singleton_subseteq_l.
Qed.

(** *** The whole load *)

Lemma store_pending_listed (st : Store) : pending_listed (pending_users st) st.
Proof.
  intros username u Hu Hpending. apply elem_of_store_pending_users. by exists u.
Qed.

Lemma store_pending_users_dom (st : Store) username :
  username ∈ pending_users st → username ∈ dom (st_users st).
Proof.
  intros (u & Hu & _)%elem_of_store_pending_users. apply elem_of_dom. by exists u.
Qed.

(** On the reference store a second [load] of a snapshot changes
    nothing, provided no declared group member is a user that only the
    loop over the pending users brings into the store.  Where a declared
    group is left without member the second load calls [create_group]
    again, and the store leaves the group as it is. *)
Theorem load_again (data : Snapshot) (st : Store) :
  pending_members_exist data st →
  load_storage data (load_storage data st) = load_storage data st.
Proof.
  intros Hexist.
  set (pending := pending_users st).
  set (sa := load_users pending (data_users data) st).
  set (sb := load_groups (data_groups data) sa).
  set (sc := load_pending_users pending (default [] (data_pending_users data)) sb).
  set (sd := load_group_permissions (data_packages_groups data) sc).
  set (se := load_user_permissions (data_packages_users data) sd).
  set (s1 := set_allow_register (data_allow_register data) se).
  change (load_storage data st) with s1.
  assert (st_users sb = st_users sa) as Hub by apply load_groups_rest.
  assert (st_groups sc = st_groups sb) as Hgc by apply load_pending_users_rest.
  assert (st_users sd = st_users sc ∧ st_groups sd = st_groups sc) as [Hud Hgd].
  { unfold sd. rewrite load_group_permissions_shape.
    by apply (load_permissions_invariant edit_group_permission
                (λ st', st_users st' = st_users sc ∧ st_groups st' = st_groups sc)). }
  assert (st_users se = st_users sd ∧ st_groups se = st_groups sd
          ∧ st_group_grants se = st_group_grants sd) as (Hue & Hge & Hgge).
  { unfold se. rewrite load_user_permissions_shape.
    by apply (load_permissions_invariant edit_user_permission
                (λ st', st_users st' = st_users sd ∧ st_groups st' = st_groups sd
                        ∧ st_group_grants st' = st_group_grants sd)). }
  assert (st_users s1 = st_users sc) as Hu1.
  { change (st_users s1) with (st_users se). congruence. }
  assert (st_groups s1 = st_groups sb) as Hg1.
  { change (st_groups s1) with (st_groups se). congruence. }
  (* the users *)
  assert (∀ name, name ∈ pending → name ∈ dom (st_users st)) as Hpending.
  { intros name. apply store_pending_users_dom. }
  assert (∀ name, name ∈ pending → name ∈ dom (st_users sb)) as Hpending_b.
  { intros name Hin. rewrite Hub. by apply load_users_dom, Hpending. }
  assert (∀ name u, st_users sb !! name = Some u → st_users s1 !! name = Some u) as Hkept.
  { intros name u Hu. rewrite Hu1. by apply load_pending_users_kept. }
  assert (∀ name, name ∈ su_username <$> data_users data → name ∈ dom (st_users sb))
    as Husers_b.
  { intros name Hin. rewrite Hub. by apply load_users_declared. }
  assert (∀ name, name ∈ su_username <$> data_users data → name ∈ dom (st_users s1))
    as Husers.
  { intros name [u Hu]%Husers_b%elem_of_dom. apply elem_of_dom. exists u. by apply Hkept. }
  assert (∀ name admin, declared_admin (data_users data) name = Some admin →
                        ∃ u, st_users s1 !! name = Some u ∧ ur_admin u = admin) as Hadmin.
  { intros name admin Hdeclared.
    destruct (load_users_admin pending (data_users data) st name admin Hpending Hdeclared)
      as (u & Hu & Hflag).
    exists u. split; [|done]. apply Hkept. by rewrite Hub. }
  assert (∀ name, name ∈ su_username <$> default [] (data_pending_users data) →
                  name ∈ dom (st_users s1)) as Hpending_users.
  { intros name Hin. rewrite Hu1. by apply load_pending_users_declared. }
  (* the groups *)
  assert (∀ group members, (group, members) ∈ data_groups data →
                           members_attached group members s1) as Hgroups.
  { intros group members Hin.
    destruct (load_groups_attaches (data_groups data) sa group members Hin)
      as [Hgroup Hmembers].
    fold sb in Hgroup, Hmembers.
    split; [by rewrite Hg1|]. intros member Hmember Huser.
    unfold store_members. rewrite Hg1. apply Hmembers; [done|].
    rewrite Hu1 in Huser.
    apply load_pending_users_new in Huser as [Huser|Hdeclared]; [done|].
    destruct (Hexist group members member Hin Hmember Hdeclared) as [Hst|Hdeclared'].
    - rewrite Hub. by apply load_users_dom.
    - by apply Husers_b. }
  (* the grants *)
  assert (∀ grant, declared_grants (data_packages_groups data) grant →
                   grant ∈ st_group_grants s1) as Hgroup_grants.
  { intros grant Hdeclared.
    change (st_group_grants s1) with (st_group_grants se). rewrite Hgge.
    unfold sd. rewrite load_group_permissions_shape.
    apply (load_permissions_grants edit_group_permission st_group_grants); [done|].
    by right. }
  assert (∀ grant, declared_grants (data_packages_users data) grant →
                   grant ∈ st_user_grants s1) as Huser_grants.
  { intros grant Hdeclared.
    change (st_user_grants s1) with (st_user_grants se).
    unfold se. rewrite load_user_permissions_shape.
    apply (load_permissions_grants edit_user_permission st_user_grants); [done|].
    by right. }
  unfold load_storage.
  rewrite (load_users_again (pending_users s1) (data_users data) s1)
    by (done || apply store_pending_listed).
  rewrite (load_groups_again (data_groups data) s1) by done.
  rewrite (load_pending_users_again (pending_users s1)) by (done || apply store_pending_listed).
  rewrite load_group_permissions_shape.
  rewrite (load_permissions_again edit_group_permission st_group_grants
             edit_group_permission_again) by done.
  rewrite load_user_permissions_shape.
  rewrite (load_permissions_again edit_user_permission st_user_grants
             edit_user_permission_again) by done.
  by apply store_eq.
Qed.

Lemma load_again_witness :
  pending_members_exist dev_snapshot qa_store
  ∧ load_storage dev_snapshot (load_storage dev_snapshot qa_store)
    = load_storage dev_snapshot qa_store.
Proof.
  assert (pending_members_exist dev_snapshot qa_store) as Hexist.
  { intros group members member _ _ Hin. by apply elem_of_nil in Hin. }
  split; [done|]. by apply load_again.
Defined.

(** * Further properties *)

(** ** Principals *)

Lemma str_prefix_app (s1 s2 : string) : String.prefix s1 (s1 +:+ s2) = true.
Proof.
  induction s1 as [|c s1 IH].
  - by destruct s2.
  - rewrite str_app_cons. cbn. by destruct (ascii_dec c c).
Qed.

Lemma str_app_inv_l (s s1 s2 : string) : s +:+ s1 = s +:+ s2 → s1 = s2.
Proof.
  induction s as [|c s IH]; [done|]. rewrite !str_app_cons. intros [= ?]. by apply IH.
Qed.

(** What [group_to_principal] returns is a fixed point of it. *)
Lemma group_to_principal_fixed group :
  str_in group [Everyone; Authenticated] || String.prefix "group:" group = true →
  group_to_principal group = group.
Proof. intros H. unfold group_to_principal. by rewrite H. Qed.

Lemma group_to_principal_image group :
  str_in (group_to_principal group) [Everyone; Authenticated]
  || String.prefix "group:" (group_to_principal group) = true.
Proof.
  unfold group_to_principal.
  destruct (str_in group [Everyone; Authenticated] || String.prefix "group:" group)
    eqn:Hfixed; [done|].
  destruct (decide (group = "everyone")); [done|].
  destruct (decide (group = "authenticated")); [done|].
  by rewrite (str_prefix_app "group:" group), orb_true_r.
Qed.

(** X1: [group_to_principal] is idempotent, and a principal it returns
    is [Everyone], [Authenticated] or starts with ["group:"]; it is never
    a ["user:"] principal. *)
Theorem group_to_principal_idempotent group :
  group_to_principal (group_to_principal group) = group_to_principal group
  ∧ (group_to_principal group = Everyone
     ∨ group_to_principal group = Authenticated
     ∨ String.prefix "group:" (group_to_principal group) = true)
  ∧ ∀ user, group_to_principal group ≠ "user:" +:+ user.
Proof.
  pose proof (group_to_principal_image group) as Himage.
  split_and!.
  - by apply group_to_principal_fixed.
  - apply orb_true_iff in Himage as [Hin|?]; [|by right; right].
    apply bool_decide_eq_true in Hin.
    rewrite !elem_of_cons, elem_of_nil in Hin. destruct Hin as [?|[?|[]]]; auto.
  - intros user Heq. rewrite Heq in Himage. by destruct user.
Qed.

(** ** Grants and defaults *)

(** A loop of assignments leaves a key alone that it never assigns. *)
Lemma dict_get_foldl_setitem_other {V} (key : string → string) (l : dict V) (d : dict V) k :
  (∀ name, name ∈ l.*1 → key name ≠ k) →
  dict_get k (foldl (λ d '(name, val), dict_setitem (key name) val d) d l) = dict_get k d.
Proof.
  revert d. induction l as [|[name val] l IH]; intros d Hother; [done|].
  cbn [foldl]. rewrite IH.
  - apply dict_get_setitem_ne, Hother. cbn. left.
  - intros name' Hin. apply Hother. cbn. by right.
Qed.

(** With distinct names and distinct keys for them, a loop of
    assignments leaves each name's value under its key. *)
Lemma dict_get_foldl_setitem_elem {V} (key : string → string) (l : dict V) (d : dict V)
    name val :
  (∀ name1 name2, key name1 = key name2 → name1 = name2) →
  NoDup l.*1 → (name, val) ∈ l →
  dict_get (key name) (foldl (λ d '(name, val), dict_setitem (key name) val d) d l)
  = Some val.
Proof.
  intros Hinj. revert d. induction l as [|[name0 val0] l IH]; intros d Hnodup Hin.
  - by apply elem_of_nil in Hin.
  - cbn in Hnodup. apply NoDup_cons in Hnodup as [Hfresh Hnodup]. cbn [foldl].
    apply elem_of_cons in Hin as [[= -> ->]|Hin].
    + rewrite dict_get_foldl_setitem_other.
      * apply dict_get_setitem_eq.
      * intros name' Hin' Heq. apply Hinj in Heq as ->. done.
    + by apply IH.
Qed.

Lemma dict_is_empty_foldl {A V} (step : dict V → A → dict V) (l : list A) (d : dict V) :
  (∀ d a, dict_is_empty (step d a) = false) →
  dict_is_empty (foldl step d l) = dict_is_empty d && bool_decide (l = []).
Proof.
  intros Hstep. destruct l as [|a l]; cbn.
  - by rewrite andb_true_r.
  - rewrite andb_false_r. revert d a. induction l as [|b l IH]; intros d a; cbn.
    + apply Hstep.
    + apply IH.
Qed.

Lemma dict_elem_of_get {V} (d : dict V) k v :
  NoDup (dict_keys d) → (k, v) ∈ d → dict_get k d = Some v.
Proof.
  unfold dict_keys. induction d as [|[k' v'] d IH]; intros Hnodup Hin.
  - by apply elem_of_nil in Hin.
  - cbn in Hnodup. apply NoDup_cons in Hnodup as [Hfresh Hnodup]. cbn.
    apply elem_of_cons in Hin as [[= -> ->]|Hin].
    + by rewrite decide_True.
    + rewrite decide_False; [by apply IH|].
      intros ->. apply Hfresh, list_elem_of_fmap. by exists (k, v).
Qed.

Section more_access_facts.
Context {St : Type} `{!IAccessBackend St}.
Implicit Types (self : Backend St) (package perm username group principal : string).

(** X2: a grant to a user is never hidden by a grant to a group: when
    the users of [user_permissions] are distinct, as the keys of a
    dictionary are, every one of them finds its permissions under its
    ["user:"] principal in [allowed_permissions]. *)
Theorem allowed_permissions_user_grant self package user perms :
  NoDup (dict_keys (user_permissions (storage self) package)) →
  (user, perms) ∈ user_permissions (storage self) package →
  dict_get ("user:" +:+ user) (allowed_permissions self package) = Some perms.
Proof.
  intros Hnodup Hin.
  assert (dict_is_empty (explicit_permissions self package) = false) as Hexplicit.
  { rewrite explicit_permissions_empty.
    destruct (user_permissions (storage self) package); [|done].
    by apply elem_of_nil in Hin. }
  unfold allowed_permissions. rewrite Hexplicit. unfold explicit_permissions.
  rewrite (dict_get_foldl_setitem_other group_to_principal).
  - apply (dict_get_foldl_setitem_elem (λ user, "user:" +:+ user)); [|done..].
    intros name1 name2. apply str_app_inv_l.
  - intros group _ Heq.
    pose proof (group_to_principal_image group) as Himage.
    rewrite Heq in Himage. by destruct user.
Qed.

(** X3: [allowed_permissions] answers the empty dictionary exactly when
    the package has no grant and both default lists are empty. *)
Theorem allowed_permissions_nobody self package :
  allowed_permissions self package = []
  ↔ user_permissions (storage self) package = []
    ∧ group_permissions (storage self) package = []
    ∧ default_read self = [] ∧ default_write self = [].
Proof.
  rewrite <- (dict_is_empty_nil (allowed_permissions self package)).
  unfold allowed_permissions.
  destruct (dict_is_empty (explicit_permissions self package)) eqn:Hexplicit.
  - rewrite dict_is_empty_foldl.
    2: { intros d principal. destruct (dict_get principal d);
           apply dict_setitem_not_empty. }
    rewrite dict_is_empty_foldl by (intros; apply dict_setitem_not_empty).
    rewrite Hexplicit. rewrite explicit_permissions_empty in Hexplicit.
    apply andb_true_iff in Hexplicit as [Hu%dict_is_empty_nil Hg%dict_is_empty_nil].
    unfold groups_to_principals. cbn [andb].
    rewrite andb_true_iff, !bool_decide_eq_true. split.
    + intros [Hr%fmap_nil_inv Hw%fmap_nil_inv]. done.
    + intros (_ & _ & -> & ->). done.
  - rewrite Hexplicit. rewrite explicit_permissions_empty in Hexplicit.
    split; [done|]. intros (Hu & Hg & _). by rewrite Hu, Hg in Hexplicit.
Qed.

(** The entries of the ACL are the permissions of the principals. *)
Lemma elem_of_get_acl self package action principal perm :
  (action, principal, perm) ∈ get_acl self package
  ↔ action = Allow
    ∧ ∃ perms, dict_get principal (allowed_permissions self package) = Some perms
               ∧ perm ∈ perms.
Proof.
  unfold get_acl. rewrite get_acl_outer. cbn [app].
  rewrite list_elem_of_In, in_flat_map. split.
  - intros ([principal' perms] & Hin%list_elem_of_In & Hperm%list_elem_of_In).
    apply list_elem_of_fmap in Hperm as (perm' & [= -> -> ->] & Hperm).
    split; [done|]. exists perms. split; [|done].
    apply dict_elem_of_get; [apply allowed_permissions_NoDup|done].
  - intros (-> & perms & Hget%dict_get_Some_elem_of & Hperm).
    exists (principal, perms). split; [by apply list_elem_of_In|].
    apply list_elem_of_In, list_elem_of_fmap. by exists perm.
Qed.

(** X4: [has_permission] and the ACL of the package agree: the
    permission is granted exactly when the requesting user is an
    administrator or the ACL allows it to one of the effective principals
    of the request. *)
Theorem has_permission_get_acl self package perm :
  has_permission self package perm = true
  ↔ (∃ current_userid, userid (request self) = Some current_userid
                       ∧ is_admin (storage self) current_userid = true)
    ∨ (∃ principal, principal ∈ effective_principals (request self)
                    ∧ (Allow, principal, perm) ∈ get_acl self package).
Proof.
  unfold has_permission.
  destruct (userid (request self)) as [current_userid|] eqn:Huser.
  - destruct (is_admin (storage self) current_userid) eqn:Hadmin.
    + split; [|done]. intros _. left. by exists current_userid.
    + rewrite existsb_exists. split.
      * intros (principal & Hin%list_elem_of_In & Hperm%bool_decide_eq_true).
        right. exists principal. split; [done|]. apply elem_of_get_acl. split; [done|].
        destruct (dict_get principal (allowed_permissions self package)) as [perms|];
          [by exists perms|by apply elem_of_nil in Hperm].
      * intros [(u & [= <-] & Hadmin')|(principal & Hin & Hacl)]; [congruence|].
        apply elem_of_get_acl in Hacl as (_ & perms & Hget & Hperm).
        exists principal. split; [by apply list_elem_of_In|].
        rewrite Hget. by apply bool_decide_eq_true.
  - rewrite existsb_exists. split.
    + intros (principal & Hin%list_elem_of_In & Hperm%bool_decide_eq_true).
      right. exists principal. split; [done|]. apply elem_of_get_acl. split; [done|].
      destruct (dict_get principal (allowed_permissions self package)) as [perms|];
        [by exists perms|by apply elem_of_nil in Hperm].
    + intros [(u & [=] & _)|(principal & Hin & Hacl)].
      apply elem_of_get_acl in Hacl as (_ & perms & Hget & Hperm).
      exists principal. split; [by apply list_elem_of_In|].
      rewrite Hget. by apply bool_decide_eq_true.
Qed.
End more_access_facts.

(** ** The principals of a user and the groups of a user *)

Section principal_facts.
Context {St : Type} `{!IAccessBackend St}.
Implicit Types (self : Backend St) (username group principal : string).

Lemma user_principals_groups (principals groups : list string) :
  foldl (λ principals group, principals ++ ["group:" +:+ group]) principals groups
  = principals ++ ((λ group, "group:" +:+ group) <$> groups).
Proof.
  revert principals. induction groups as [|group groups IH]; intros principals; cbn.
  - by rewrite app_nil_r.
  - by rewrite IH, <- app_assoc.
Qed.

Lemma elem_of_user_principals self username principal :
  principal ∈ user_principals self username
  ↔ principal = "user:" +:+ username
    ∨ principal = Everyone
    ∨ principal = Authenticated
    ∨ (principal = "admin" ∧ is_admin (storage self) username = true)
    ∨ ∃ group, group ∈ groups (storage self) username ∧ principal = "group:" +:+ group.
Proof.
  unfold user_principals. rewrite user_principals_groups, elem_of_app, list_elem_of_fmap.
  destruct (is_admin (storage self) username).
  - rewrite elem_of_app, !elem_of_cons, !elem_of_nil. split.
    + intros [[[?|[?|[?|[]]]]|[?|[]]]|(group & ? & ?)]; eauto 10.
    + intros [?|[?|[?|[[? _]|(group & ? & ?)]]]]; eauto 10.
  - rewrite !elem_of_cons, !elem_of_nil. split.
    + intros [[?|[?|[?|[]]]]|(group & ? & ?)]; eauto 10.
    + intros [?|[?|[?|[[_ ?]|(group & ? & ?)]]]]; eauto 10. done.
Qed.

(** X5: the principals of a user are its ["user:"] principal first, then
    [Everyone] and [Authenticated], and one ["group:"] principal for each
    of its groups; ["admin"] is among them exactly when the user is an
    administrator, whatever the names of the user and of its groups. *)
Theorem user_principals_admin self username :
  (∃ principals, user_principals self username
                 = ("user:" +:+ username) :: Everyone :: Authenticated :: principals)
  ∧ (∀ group, group ∈ groups (storage self) username →
              "group:" +:+ group ∈ user_principals self username)
  ∧ ("admin" ∈ user_principals self username ↔ is_admin (storage self) username = true).
Proof.
  split_and!.
  - unfold user_principals. rewrite user_principals_groups.
    destruct (is_admin (storage self) username); eexists; reflexivity.
  - intros group Hin. apply elem_of_user_principals. do 4 right. by exists group.
  - rewrite elem_of_user_principals. split.
    + intros [Heq|[?|[?|[[_ ?]|(group & _ & Heq)]]]]; try done.
    + intros Hadmin. by do 3 right; left.
Qed.

(** X6: for a group name other than ["admin"] that does not start with
    ["group:"], a user is in the group exactly when the principal of the
    group is one of the principals of the user. *)
Theorem in_group_user_principals self username group :
  group ≠ "admin" → String.prefix "group:" group = false →
  in_group self (Some username) group = true
  ↔ group_to_principal group ∈ user_principals self username.
Proof.
  intros Hadmin Hprefix. rewrite elem_of_user_principals.
  unfold in_group, group_to_principal, str_in. rewrite Hprefix, orb_false_r.
  destruct (decide (group = Everyone)) as [->|HE].
  { split; [intros _|done]. by right; left. }
  destruct (decide (group = Authenticated)) as [->|HA].
  { split; [intros _|done]. by do 2 right; left. }
  rewrite (bool_decide_eq_false_2 (group ∈ [Everyone; Authenticated])).
  2: { rewrite !elem_of_cons, elem_of_nil. by intros [?|[?|[]]]. }
  destruct (decide (group = "everyone")) as [->|He].
  { split; [intros _|done]. by right; left. }
  destruct (decide (group = "authenticated")) as [->|Ha].
  { split; [intros _|done]. by do 2 right; left. }
  rewrite (bool_decide_eq_false_2 (group ∈ ["everyone"; Everyone])).
  2: { rewrite !elem_of_cons, elem_of_nil. by intros [?|[?|[]]]. }
  rewrite (bool_decide_eq_false_2 (group ∈ ["authenticated"; Authenticated])).
  2: { rewrite !elem_of_cons, elem_of_nil. by intros [?|[?|[]]]. }
  rewrite (bool_decide_eq_false_2 (group = "admin")) by done. cbn [andb].
  rewrite bool_decide_eq_true. split.
  - intros Hin. do 4 right. by exists group.
  - intros [Heq|[Heq|[Heq|[[Heq _]|(group' & Hin & Heq)]]]]; try done.
    by apply str_app_inv_l in Heq as ->.
Qed.

Lemma in_group_anonymous self group :
  in_group self None group = true ↔ group = "everyone" ∨ group = Everyone.
Proof.
  unfold in_group, str_in. case_bool_decide as Hin.
  - split; [intros _|done]. rewrite !elem_of_cons, elem_of_nil in Hin.
    destruct Hin as [?|[?|[]]]; auto.
  - split; [done|]. intros Hgroup. destruct Hin.
    rewrite !elem_of_cons. destruct Hgroup; auto.
Qed.

(** X7: for an anonymous request the cache may be updated exactly when
    [cache_update] names ["everyone"] or [Everyone]; for a logged-in user
    it may be updated as soon as [cache_update] names one of the four
    spellings of the two pseudo-groups, and never when it is empty. *)
Theorem can_update_cache_cases self :
  (userid (request self) = None →
   (can_update_cache self = true
    ↔ "everyone" ∈ cache_update self ∨ Everyone ∈ cache_update self))
  ∧ (∀ username, userid (request self) = Some username →
       (∃ group, group ∈ cache_update self
                 ∧ group ∈ ["everyone"; Everyone; "authenticated"; Authenticated]) →
       can_update_cache self = true)
  ∧ (cache_update self = [] → can_update_cache self = false).
Proof.
  unfold can_update_cache, in_any_group. split_and!.
  - intros ->. rewrite existsb_exists. split.
    + intros (group & Hin%list_elem_of_In & [-> | ->]%in_group_anonymous); auto.
    + intros [Hin|Hin]; eexists; (split; [by apply list_elem_of_In|]);
        apply in_group_anonymous; auto.
  - intros username -> (group & Hin & Hgroup). apply existsb_exists.
    exists group. split; [by apply list_elem_of_In|].
    unfold in_group, str_in.
    rewrite !elem_of_cons, elem_of_nil in Hgroup.
    destruct Hgroup as [->|[->|[->|[->|[]]]]]; done.
  - by intros ->.
Qed.
End principal_facts.

(** ** More on signup tokens *)

(** Splitting distributes over a separator, whatever stands before it. *)
Lemma str_split_sep sep s1 s2 :
  str_split sep (s1 +:+ String sep s2) = str_split sep s1 ++ str_split sep s2.
Proof.
  induction s1 as [|c s1 IH].
  - change ("" +:+ String sep s2) with (String sep s2). cbn.
    destruct (str_split sep s2) eqn:Hs2; [by apply str_split_not_nil in Hs2|].
    by rewrite decide_True.
  - rewrite str_app_cons. cbn [str_split]. rewrite IH.
    destruct (str_split sep s1) as [|piece pieces] eqn:Hs1;
      [by apply str_split_not_nil in Hs1|].
    cbn. by destruct (decide (c = sep)).
Qed.

Section more_token_facts.
Context {St : Type} {hmac : HmacSha256}.
Implicit Types (self : Backend St) (username token key : string).

(** Validation in terms of the pieces of the token. *)
Lemma validate_signup_token_split self key token (now : Q) username issued_str
    (middle : list string) signature :
  signing_key self = Some key →
  str_split ":" token = username :: issued_str :: middle ++ [signature] →
  validate_signup_token self token now
  = (issued ← py_int issued_str;
     if Qltb (inject_Z (issued + token_expiration self)) now then Return None
     else if bool_decide
               (signature
                = hexlify (hmac_sha256 key (username +:+ ":" +:+ format_d (inject_Z issued))))
          then Return (Some username)
          else Return None).
Proof.
  intros Hkey Hsplit. unfold validate_signup_token. rewrite Hkey, Hsplit.
  change (username :: issued_str :: middle ++ [signature])
    with ((username :: issued_str :: middle) ++ [signature]).
  rewrite list_pop_snoc. cbn [mbind result_bind list_getitem lookup list_lookup].
  destruct (py_int issued_str) as [issued|e]; [|done]. cbn [mbind result_bind].
  destruct (Qltb _ now); [done|]. unfold _hmac. by rewrite Hkey.
Qed.

(** X8: with a signing key, and for a token of ASCII characters that is
    no longer than the digit limit of [int], [validate_signup_token]
    returns a user name exactly for the tokens of at least three pieces
    whose first piece is that name, whose second piece [int] reads as a
    time stamp that has not expired, and whose last piece is the
    hexadecimal keyed hash of the name and that time stamp; the pieces in
    between are not looked at.  The two conditions on the token keep the
    second piece among the strings on which [py_int] is [int]. *)
Theorem validate_signup_token_accepts self key token (now : Q) username :
  signing_key self = Some key →
  str_ascii token = true →
  (String.length token ≤ INT_MAX_STR_DIGITS)%nat →
  validate_signup_token self token now = Return (Some username)
  ↔ ∃ issued_str middle signature issued,
      str_split ":" token = username :: issued_str :: middle ++ [signature]
      ∧ py_int issued_str = Return issued
      ∧ (now <= inject_Z (issued + token_expiration self))%Q
      ∧ signature
        = hexlify (hmac_sha256 key (username +:+ ":" +:+ format_d (inject_Z issued))).
Proof.
  intros Hkey _ _. split.
  - destruct (exists_last (str_split_not_nil ":" token)) as (pieces & signature & Hsplit).
    destruct pieces as [|name [|issued_str middle]].
    + unfold validate_signup_token. rewrite Hkey, Hsplit. done.
    + unfold validate_signup_token. rewrite Hkey, Hsplit. done.
    + rewrite (validate_signup_token_split self key token now name issued_str middle
                 signature) by done.
      destruct (py_int issued_str) as [issued|e] eqn:Hint; [|done].
      cbn [mbind result_bind].
      destruct (Qltb _ now) eqn:Hexpired; [done|]. case_bool_decide as Hsig; [|done].
      intros [= ->]. exists issued_str, middle, signature, issued. split_and!; try done.
      apply Qnot_lt_le. intros Hlt%Qltb_lt. congruence.
  - intros (issued_str & middle & signature & issued & Hsplit & Hint & Hnow & ->).
    rewrite (validate_signup_token_split self key token now username issued_str middle _)
      by done.
    rewrite Hint. cbn [mbind result_bind].
    destruct (Qltb _ now) eqn:Hexpired.
    + apply Qltb_lt in Hexpired. by apply Qlt_not_le in Hexpired.
    + by rewrite bool_decide_eq_true_2.
Qed.

(** X9: the token that [get_signup_token] issues for a user name without
    [":"] splits into exactly three pieces: the name, the whole seconds of
    the clock and the signature; without a signing key it raises
    [RuntimeError] instead. *)
Theorem get_signup_token_pieces self username (now : Q) :
  str_contains ":" username = false →
  match signing_key self with
  | Some key =>
      ∃ token, get_signup_token self username now = Return token
               ∧ str_split ":" token
                 = [username; format_d now;
                    hexlify (hmac_sha256 key (username +:+ ":" +:+ format_d now))]
               ∧ py_int (format_d now) = Return (py_trunc now)
  | None => get_signup_token self username now = Raise RuntimeError
  end.
Proof.
  intros Huser. destruct (signing_key self) as [key|] eqn:Hkey.
  - eexists. split; [by apply get_signup_token_value|]. split; [|apply py_int_format_d].
    rewrite !str_app_char.
    rewrite (str_split_app ":" username) by done.
    rewrite (str_split_app ":" (format_d now)) by apply str_contains_colon_format_d.
    by rewrite str_split_no_sep by apply str_contains_colon_hexlify.
  - unfold get_signup_token, _hmac. by rewrite Hkey.
Qed.

(** X10: pieces put between the time stamp and the signature of a token
    change nothing: the token validates as it does without them. *)
Theorem validate_signup_token_middle self username issued_str signature middle (now : Q) :
  str_contains ":" username = false →
  str_contains ":" issued_str = false →
  str_contains ":" signature = false →
  validate_signup_token self
    (username +:+ ":" +:+ issued_str +:+ ":" +:+ middle +:+ ":" +:+ signature) now
  = validate_signup_token self (username +:+ ":" +:+ issued_str +:+ ":" +:+ signature) now.
Proof.
  intros Huser Hissued Hsig.
  destruct (signing_key self) as [key|] eqn:Hkey.
  2: { unfold validate_signup_token. by rewrite Hkey. }
  rewrite !str_app_char.
  rewrite (validate_signup_token_split self key _ now username issued_str
             (str_split ":" middle) signature); [|done|].
  - rewrite (validate_signup_token_split self key _ now username issued_str [] signature);
      [done|done|].
    by rewrite !str_split_app, str_split_no_sep.
  - rewrite !str_split_app by done. rewrite str_split_sep.
    by rewrite (str_split_no_sep ":" signature).
Qed.
End more_token_facts.

(** ** The store after a load *)

Section users_after.
Implicit Types (st : Store) (users : list SnapshotUser) (pending : list string).

Lemma user_exists_dom pending st username :
  (∀ name, name ∈ pending → name ∈ dom (st_users st)) →
  user_exists pending st username = true → username ∈ dom (st_users st).
Proof.
  intros Hpending [Hin|Hdata]%orb_true_iff.
  - apply Hpending. by apply bool_decide_eq_true in Hin.
  - apply bool_decide_eq_true in Hdata. cbn in Hdata. apply elem_of_dom.
    destruct (st_users st !! username); [done|]. by destruct Hdata.
Qed.

Lemma user_exists_iff pending st username :
  (∀ name, name ∈ pending → name ∈ dom (st_users st)) →
  pending_listed pending st →
  user_exists pending st username = true ↔ username ∈ dom (st_users st).
Proof.
  intros Hpending Hlisted. split; [by apply user_exists_dom|by apply user_exists_known].
Qed.

(** One round of the loop over the users, user by user. *)
Lemma load_user_lookup pending user st name :
  (∀ name, name ∈ pending → name ∈ dom (st_users st)) →
  pending_listed pending st →
  st_users (load_user pending user st) !! name
  = if decide (su_username user = name)
    then Some (match st_users st !! name with
               | Some u => set_admin (default false (su_admin user)) u
               | None => approved_user (su_password user) (default false (su_admin user))
               end)
    else st_users st !! name.
Proof.
  intros Hpending Hlisted.
  destruct (decide (su_username user = name)) as [<-|Hne]; [|by apply load_user_frame].
  unfold load_user.
  destruct (st_users st !! su_username user) as [u|] eqn:Hu.
  - rewrite user_exists_known; [|done|by apply elem_of_dom].
    cbn. by rewrite lookup_alter_eq, Hu.
  - destruct (user_exists pending st (su_username user)) eqn:Hexists.
    { apply user_exists_dom in Hexists; [|done].
      apply elem_of_dom in Hexists as [u' Hu']. congruence. }
    cbn. by rewrite !lookup_alter_eq, Hu, lookup_insert_eq.
Qed.

Lemma load_user_invariants pending user st :
  (∀ name, name ∈ pending → name ∈ dom (st_users st)) →
  pending_listed pending st →
  (∀ name, name ∈ pending → name ∈ dom (st_users (load_user pending user st)))
  ∧ pending_listed pending (load_user pending user st).
Proof.
  intros Hpending Hlisted. split.
  - intros name Hin. by apply load_user_dom, Hpending.
  - intros name u. rewrite load_user_lookup by done.
    destruct (decide (su_username user = name)) as [<-|Hne]; [|apply Hlisted].
    destruct (st_users st !! su_username user) as [u'|] eqn:Hu'.
    + intros [= <-]. cbn. by apply Hlisted.
    + by intros [= <-].
Qed.

Lemma load_users_lookup pending users st name :
  (∀ name, name ∈ pending → name ∈ dom (st_users st)) →
  pending_listed pending st →
  st_users (load_users pending users st) !! name
  = match st_users st !! name with
    | Some u =>
        Some (match declared_admin users name with
              | Some admin => set_admin admin u
              | None => u
              end)
    | None =>
        match declared_password users name with
        | Some password =>
            Some (approved_user password (default false (declared_admin users name)))
        | None => None
        end
    end.
Proof.
  unfold load_users. revert st.
  induction users as [|user users IH]; intros st Hpending Hlisted.
  - cbn. by destruct (st_users st !! name).
  - destruct (load_user_invariants pending user st Hpending Hlisted) as [Hpending' Hlisted'].
    rewrite for_each_cons, IH, load_user_lookup by done.
    cbn [declared_admin declared_password].
    destruct (decide (su_username user = name)) as [<-|Hne].
    + destruct (st_users st !! su_username user) as [u|];
        by destruct (declared_admin users (su_username user)).
    + destruct (st_users st !! name) as [u|]; by destruct (declared_admin users name).
Qed.

Lemma load_pending_user_lookup pending user st name :
  (∀ name, name ∈ pending → name ∈ dom (st_users st)) →
  st_users (load_pending_user pending user st) !! name
  = if decide (su_username user = name)
    then Some (default (pending_user (su_password user)) (st_users st !! name))
    else st_users st !! name.
Proof.
  intros Hpending. unfold load_pending_user.
  destruct (decide (su_username user = name)) as [<-|Hne].
  - destruct (st_users st !! su_username user) as [u|] eqn:Hu.
    + destruct (user_exists pending st (su_username user)); [done|].
      cbn. by rewrite Hu.
    + destruct (user_exists pending st (su_username user)) eqn:Hexists.
      { apply user_exists_dom in Hexists; [|done].
        apply elem_of_dom in Hexists as [u' Hu']. congruence. }
      cbn. by rewrite Hu, lookup_insert_eq.
  - destruct (user_exists pending st (su_username user)); [done|].
    cbn. destruct (st_users st !! su_username user); [done|].
    by rewrite lookup_insert_ne.
Qed.

Lemma load_pending_users_lookup pending users st name :
  (∀ name, name ∈ pending → name ∈ dom (st_users st)) →
  st_users (load_pending_users pending users st) !! name
  = match st_users st !! name with
    | Some u => Some u
    | None => pending_user <$> declared_password users name
    end.
Proof.
  unfold load_pending_users. revert st.
  induction users as [|user users IH]; intros st Hpending.
  - cbn. by destruct (st_users st !! name).
  - rewrite for_each_cons, IH.
    + rewrite load_pending_user_lookup by done. cbn [declared_password].
      destruct (decide (su_username user = name)) as [<-|Hne]; [|done].
      by destruct (st_users st !! su_username user).
    + intros name' [u Hu]%Hpending%elem_of_dom. apply elem_of_dom. exists u.
      by apply load_pending_user_kept.
Qed.
End users_after.

(** The users of the store after a load, user by user. *)
Lemma load_storage_users (data : Snapshot) (st : Store) name :
  st_users (load_storage data st) !! name
  = match st_users st !! name with
    | Some u =>
        Some (match declared_admin (data_users data) name with
              | Some admin => set_admin admin u
              | None => u
              end)
    | None =>
        match declared_password (data_users data) name with
        | Some password =>
            Some (approved_user password
                    (default false (declared_admin (data_users data) name)))
        | None =>
            pending_user <$> declared_password (default [] (data_pending_users data)) name
        end
    end.
Proof.
  set (pending := pending_users st).
  set (sa := load_users pending (data_users data) st).
  set (sb := load_groups (data_groups data) sa).
  set (sc := load_pending_users pending (default [] (data_pending_users data)) sb).
  set (sd := load_group_permissions (data_packages_groups data) sc).
  set (se := load_user_permissions (data_packages_users data) sd).
  assert (st_users sb = st_users sa) as Hub by apply load_groups_rest.
  assert (st_users sd = st_users sc) as Hud.
  { unfold sd. rewrite load_group_permissions_shape.
    by apply (load_permissions_invariant edit_group_permission
                (λ st', st_users st' = st_users sc)). }
  assert (st_users se = st_users sd) as Hue.
  { unfold se. rewrite load_user_permissions_shape.
    by apply (load_permissions_invariant edit_user_permission
                (λ st', st_users st' = st_users sd)). }
  change (st_users (load_storage data st)) with (st_users se).
  rewrite Hue, Hud. unfold sc. rewrite load_pending_users_lookup.
  2: { intros name' Hin. rewrite Hub. by apply load_users_dom, store_pending_users_dom. }
  rewrite Hub. unfold sa.
  rewrite load_users_lookup by (apply store_pending_users_dom || apply store_pending_listed).
  destruct (st_users st !! name) as [u|]; [done|].
  by destruct (declared_password (data_users data) name).
Qed.

(** X11: [load] never registers or approves a user that the store
    holds: the password hash and the status stay as they are, also for a
    pending user that the snapshot lists among the users; only the admin
    flag is overwritten, with the one of the user's last entry. *)
Theorem load_existing_user (self : Backend Store) (data : Snapshot) username u :
  st_users (storage self) !! username = Some u →
  ∃ u', st_users (storage (load self data)) !! username = Some u'
        ∧ ur_password u' = ur_password u
        ∧ ur_status u' = ur_status u
        ∧ ur_admin u' = default (ur_admin u) (declared_admin (data_users data) username).
Proof.
  intros Hu. cbn [load with_storage storage]. rewrite load_storage_users, Hu.
  eexists. split; [done|]. by destruct (declared_admin (data_users data) username).
Qed.

(** X12: a user that the store does not hold is registered with the
    hash of its first entry: approved, with the admin flag of its last
    entry, when [data["users"]] lists it; pending and without the admin
    flag when only [data["pending_users"]] does; and a user that the
    snapshot does not list stays absent. *)
Theorem load_new_user (self : Backend Store) (data : Snapshot) username :
  st_users (storage self) !! username = None →
  st_users (storage (load self data)) !! username
  = match declared_password (data_users data) username with
    | Some password =>
        Some (approved_user password
                (default false (declared_admin (data_users data) username)))
    | None =>
        pending_user <$> declared_password (default [] (data_pending_users data)) username
    end.
Proof.
  intros Hu. cbn [load with_storage storage]. by rewrite load_storage_users, Hu.
Qed.

(** The grants of the store after a load. *)
Lemma load_storage_grants (data : Snapshot) (st : Store) :
  (∀ grant, grant ∈ st_group_grants (load_storage data st)
            ↔ grant ∈ st_group_grants st
              ∨ declared_grants (data_packages_groups data) grant)
  ∧ (∀ grant, grant ∈ st_user_grants (load_storage data st)
              ↔ grant ∈ st_user_grants st
                ∨ declared_grants (data_packages_users data) grant)
  ∧ st_allow_register (load_storage data st) = data_allow_register data.
Proof.
  set (pending := pending_users st).
  set (sa := load_users pending (data_users data) st).
  set (sb := load_groups (data_groups data) sa).
  set (sc := load_pending_users pending (default [] (data_pending_users data)) sb).
  set (sd := load_group_permissions (data_packages_groups data) sc).
  set (se := load_user_permissions (data_packages_users data) sd).
  assert (st_group_grants sa = st_group_grants st ∧ st_user_grants sa = st_user_grants st)
    as [Hgga Huga] by (split; apply load_users_rest).
  assert (st_group_grants sb = st_group_grants sa ∧ st_user_grants sb = st_user_grants sa)
    as [Hggb Hugb] by (split; apply load_groups_rest).
  assert (st_group_grants sc = st_group_grants sb ∧ st_user_grants sc = st_user_grants sb)
    as [Hggc Hugc] by (split; apply load_pending_users_rest).
  assert (st_user_grants sd = st_user_grants sc) as Hugd.
  { unfold sd. rewrite load_group_permissions_shape.
    by apply (load_permissions_invariant edit_group_permission
                (λ st', st_user_grants st' = st_user_grants sc)). }
  assert (st_group_grants se = st_group_grants sd) as Hgge.
  { unfold se. rewrite load_user_permissions_shape.
    by apply (load_permissions_invariant edit_user_permission
                (λ st', st_group_grants st' = st_group_grants sd)). }
  split_and!; [| |done].
  - intros grant. change (st_group_grants (load_storage data st))
      with (st_group_grants se).
    rewrite Hgge. unfold sd. rewrite load_group_permissions_shape.
    rewrite (load_permissions_grants edit_group_permission st_group_grants) by done.
    by rewrite Hggc, Hggb, Hgga.
  - intros grant. change (st_user_grants (load_storage data st))
      with (st_user_grants se).
    unfold se. rewrite load_user_permissions_shape.
    rewrite (load_permissions_grants edit_user_permission st_user_grants) by done.
    by rewrite Hugd, Hugc, Hugb, Huga.
Qed.

(** X13: after a load the grants of the store are the grants it had and
    the grants the snapshot declares, whether or not the groups and users
    they name exist, and the registration flag is the declared one. *)
Theorem load_grants (self : Backend Store) (data : Snapshot) :
  (∀ grant, grant ∈ st_group_grants (storage (load self data))
            ↔ grant ∈ st_group_grants (storage self)
              ∨ declared_grants (data_packages_groups data) grant)
  ∧ (∀ grant, grant ∈ st_user_grants (storage (load self data))
              ↔ grant ∈ st_user_grants (storage self)
                ∨ declared_grants (data_packages_users data) grant)
  ∧ st_allow_register (storage (load self data)) = data_allow_register data.
Proof. apply load_storage_grants. Qed.

Section members_after.
Implicit Types (st : Store) (group member : string) (members : list string).

Lemma create_group_members group st group' :
  store_members (create_group group st) group' = store_members st group'.
Proof.
  cbn. unfold store_members. cbn.
  destruct (st_groups st !! group) eqn:Hgroup; [done|].
  destruct (decide (group = group')) as [<-|Hne].
  - by rewrite lookup_insert_eq, Hgroup.
  - by rewrite lookup_insert_ne.
Qed.

Lemma edit_user_group_members member group st group' member' :
  member' ∈ store_members (edit_user_group member group true st) group' →
  member' ∈ store_members st group' ∨ (group' = group ∧ member' = member).
Proof.
  cbn. destruct (st_users st !! member); [|by left].
  unfold store_members. cbn.
  destruct (decide (group = group')) as [<-|Hne].
  - rewrite lookup_alter_eq. destruct (st_groups st !! group); cbn; [|by left].
    intros [?|Heq%elem_of_singleton]%elem_of_union; [by left|by right].
  - rewrite lookup_alter_ne by done. by left.
Qed.

Lemma load_group_members group members st group' member :
  member ∈ store_members (load_group group members st) group' →
  member ∈ store_members st group' ∨ (group' = group ∧ member ∈ members).
Proof.
  unfold load_group.
  set (st1 := match group_members st group with
              | [] => create_group group st
              | _ => st
              end).
  assert (store_members st1 group' = store_members st group') as Hst1.
  { unfold st1. destruct (group_members st group); [apply create_group_members|done]. }
  apply (for_each_invariant
           (λ st', member ∈ store_members st' group' →
                   member ∈ store_members st group' ∨ (group' = group ∧ member ∈ members))).
  - intros added st' [Hadded _]%elem_of_set_difference Hst'.
    intros [Hin | [-> ->] ]%edit_user_group_members; [by apply Hst'|by right].
  - rewrite Hst1. by left.
Qed.

Lemma load_groups_members groups st group member :
  member ∈ store_members (load_groups groups st) group →
  member ∈ store_members st group ∨ ∃ members, (group, members) ∈ groups ∧ member ∈ members.
Proof.
  unfold load_groups.
  apply (for_each_invariant
           (λ st', member ∈ store_members st' group →
                   member ∈ store_members st group
                   ∨ ∃ members, (group, members) ∈ groups ∧ member ∈ members)).
  - intros [group' members] st' Hin Hst'.
    intros [? | [-> ?] ]%load_group_members; [by apply Hst'|].
    right. by exists members.
  - by left.
Qed.
End members_after.

(** The groups of the store after a load are those that the loop over
    [data["groups"]] leaves. *)
Lemma load_storage_groups (data : Snapshot) (st : Store) :
  st_groups (load_storage data st)
  = st_groups (load_groups (data_groups data)
                 (load_users (pending_users st) (data_users data) st)).
Proof.
  set (pending := pending_users st).
  set (sa := load_users pending (data_users data) st).
  set (sb := load_groups (data_groups data) sa).
  set (sc := load_pending_users pending (default [] (data_pending_users data)) sb).
  set (sd := load_group_permissions (data_packages_groups data) sc).
  set (se := load_user_permissions (data_packages_users data) sd).
  assert (st_groups sc = st_groups sb) as Hgc by apply load_pending_users_rest.
  assert (st_groups sd = st_groups sc) as Hgd.
  { unfold sd. rewrite load_group_permissions_shape.
    by apply (load_permissions_invariant edit_group_permission
                (λ st', st_groups st' = st_groups sc)). }
  assert (st_groups se = st_groups sd) as Hge.
  { unfold se. rewrite load_user_permissions_shape.
    by apply (load_permissions_invariant edit_user_permission
                (λ st', st_groups st' = st_groups sd)). }
  change (st_groups (load_storage data st)) with (st_groups se).
  by rewrite Hge, Hgd, Hgc.
Qed.

(** X14: after a load, a declared member of a declared group is in the
    group whenever it is a user of the store or one the snapshot lists
    among the users; and nobody is in a group who was not in it before or
    is not declared for it. *)
Theorem load_members (self : Backend Store) (data : Snapshot) group member :
  (∀ members, (group, members) ∈ data_groups data → member ∈ members →
     member ∈ dom (st_users (storage self)) ∨ member ∈ su_username <$> data_users data →
     member ∈ store_members (storage (load self data)) group)
  ∧ (member ∈ store_members (storage (load self data)) group →
     member ∈ store_members (storage self) group
     ∨ ∃ members, (group, members) ∈ data_groups data ∧ member ∈ members).
Proof.
  set (st := storage self).
  set (sa := load_users (pending_users st) (data_users data) st).
  set (sb := load_groups (data_groups data) sa).
  assert (st_groups sa = st_groups st) as Hga by apply load_users_rest.
  assert (store_members (storage (load self data)) group = store_members sb group) as ->.
  { unfold store_members. cbn [load with_storage storage].
    by rewrite load_storage_groups. }
  split.
  - intros members Hin Hmember Huser.
    destruct (load_groups_attaches (data_groups data) sa group members Hin)
      as [_ Hattached].
    apply Hattached; [done|]. change (member ∈ dom (st_users sb)).
    assert (st_users sb = st_users sa) as -> by apply load_groups_rest.
    destruct Huser as [Hstore|Hdeclared].
    + by apply load_users_dom.
    + apply load_users_declared; [apply store_pending_users_dom|done].
  - intros [Hin|Hdeclared]%load_groups_members; [|by right].
    left. unfold store_members in *. by rewrite <- Hga.
Qed.

(** ** What [dump] records *)

Lemma dict_get_app {V} (d1 d2 : dict V) k :
  dict_get k (d1 ++ d2)
  = match dict_get k d1 with
    | Some v => Some v
    | None => dict_get k d2
    end.
Proof.
  induction d1 as [|[k' v'] d1 IH]; cbn; [done|].
  by destruct (decide (k' = k)).
Qed.

(** A loop that assigns to each key a value computed from the key. *)
Lemma dict_get_foldl_keys {V} (f : string → V) (l : list string) (d : dict V) k :
  dict_get k (foldl (λ d a, dict_setitem a (f a) d) d l)
  = if decide (k ∈ l) then Some (f k) else dict_get k d.
Proof.
  revert d. induction l as [|a l IH]; intros d.
  - by rewrite decide_False by apply not_elem_of_nil.
  - cbn [foldl]. rewrite IH. destruct (decide (k ∈ l)) as [Hin|Hnin].
    + by rewrite decide_True by (by right).
    + rewrite dict_get_setitem. destruct (decide (a = k)) as [->|Hne].
      * by rewrite decide_True by left.
      * rewrite decide_False; [done|]. by intros [->|?]%elem_of_cons.
Qed.

Lemma dict_keys_foldl_keys {V} (f : string → V) (l : list string) (d : dict V) :
  NoDup (dict_keys d ++ l) →
  dict_keys (foldl (λ d a, dict_setitem a (f a) d) d l) = dict_keys d ++ l.
Proof.
  revert d. induction l as [|a l IH]; intros d Hnodup.
  - cbn. by rewrite app_nil_r.
  - cbn [foldl].
    assert (dict_keys (dict_setitem a (f a) d) = dict_keys d ++ [a]) as Hkeys.
    { rewrite dict_keys_setitem, decide_False; [done|].
      apply NoDup_app in Hnodup as (_ & Hdisjoint & _).
      intros Hin. apply (Hdisjoint a Hin). left. }
    rewrite IH; rewrite Hkeys, <- app_assoc; done.
Qed.

Lemma packages_get_setitem package name perms packages package' name' :
  packages_get (packages_setitem package name perms packages) package' name'
  = if decide (package = package' ∧ name = name') then Some perms
    else packages_get packages package' name'.
Proof.
  unfold packages_get, packages_setitem. rewrite dict_get_setitem.
  destruct (decide (package = package')) as [<-|Hp].
  - cbn. rewrite dict_get_setitem.
    destruct (decide (name = name')) as [<-|Hn].
    + by rewrite decide_True.
    + rewrite decide_False by (by intros [_ ?]).
      by destruct (dict_get package packages).
  - by rewrite decide_False by (by intros [? _]).
Qed.

Lemma packages_get_dump_permissions name perms packages package name' :
  packages_get (dump_permissions name perms packages) package name'
  = if decide (name = name')
    then match dict_get package (reverse perms) with
         | Some permissions => Some permissions
         | None => packages_get packages package name'
         end
    else packages_get packages package name'.
Proof.
  unfold dump_permissions. revert packages.
  induction perms as [|[package0 permissions0] perms IH]; intros packages.
  - cbn. by destruct (decide (name = name')).
  - cbn [foldl]. rewrite IH, packages_get_setitem, reverse_cons, dict_get_app.
    destruct (decide (name = name')) as [<-|Hn].
    + destruct (dict_get package (reverse perms)); [done|]. cbn.
      destruct (decide (package0 = package)) as [<-|Hp].
      * by rewrite decide_True.
      * by rewrite decide_False by (by intros [? _]).
    + by rewrite decide_False by (by intros [_ ?]).
Qed.

Lemma packages_get_foldl (listing : string → list (string * list string))
    (names : list string) packages package name :
  packages_get
    (foldl (λ packages name, dump_permissions name (listing name) packages) packages names)
    package name
  = if decide (name ∈ names)
    then match dict_get package (reverse (listing name)) with
         | Some permissions => Some permissions
         | None => packages_get packages package name
         end
    else packages_get packages package name.
Proof.
  revert packages. induction names as [|name0 names IH]; intros packages.
  - by rewrite decide_False by apply not_elem_of_nil.
  - cbn [foldl]. rewrite IH, packages_get_dump_permissions.
    destruct (decide (name0 = name)) as [->|Hne].
    + rewrite (decide_True (P := name ∈ name :: names)) by left.
      destruct (decide (name ∈ names)); [|done].
      by destruct (dict_get package (reverse (listing name))).
    + destruct (decide (name ∈ names)) as [Hin|Hnin].
      * by rewrite decide_True by (by right).
      * rewrite decide_False; [done|]. by intros [->|?]%elem_of_cons.
Qed.

Lemma packages_setitem_inhabited package name perms packages :
  packages_inhabited packages →
  packages_inhabited (packages_setitem package name perms packages).
Proof.
  intros Hpackages package' holders. unfold packages_setitem. rewrite dict_get_setitem.
  destruct (decide (package = package')) as [<-|Hne]; [|apply Hpackages].
  intros [= <-] Hempty.
  pose proof (dict_setitem_not_empty name perms (default [] (dict_get package packages))).
  by rewrite Hempty in *.
Qed.

Lemma dump_permissions_inhabited name perms packages :
  packages_inhabited packages → packages_inhabited (dump_permissions name perms packages).
Proof.
  unfold dump_permissions. revert packages.
  induction perms as [|[package permissions] perms IH]; intros packages Hpackages; [done|].
  cbn [foldl]. by apply IH, packages_setitem_inhabited.
Qed.

Lemma packages_foldl_inhabited (listing : string → list (string * list string))
    (names : list string) packages :
  packages_inhabited packages →
  packages_inhabited
    (foldl (λ packages name, dump_permissions name (listing name) packages) packages names).
Proof.
  revert packages. induction names as [|name names IH]; intros packages Hpackages; [done|].
  cbn [foldl]. by apply IH, dump_permissions_inhabited.
Qed.

Section dump_facts.
Context {St : Type} `{!IAccessBackend St} `{!IAccessListing St}.
Implicit Types (self : Backend St) (version : string).

(** The loop of [dump] over the groups fills two dictionaries that do
    not depend on each other. *)
Lemma dump_groups_loop (st : St) (groups : list string) data_groups packages_groups :
  foldl (λ '(data_groups, packages_groups) group,
           (dict_setitem group (group_members st group) data_groups,
            dump_permissions group (group_package_permissions st group) packages_groups))
        (data_groups, packages_groups) groups
  = (foldl (λ data_groups group, dict_setitem group (group_members st group) data_groups)
       data_groups groups,
     foldl (λ packages_groups group,
              dump_permissions group (group_package_permissions st group) packages_groups)
       packages_groups groups).
Proof.
  revert data_groups packages_groups.
  induction groups as [|group groups IH]; intros data_groups packages_groups; [done|].
  cbn [foldl]. by rewrite IH.
Qed.

Lemma dump_with_groups allow self version :
  dump_groups (dump_with allow self version)
  = foldl (λ data_groups group,
             dict_setitem group (group_members (storage self) group) data_groups)
      [] (all_groups (storage self)).
Proof. unfold dump_with. by rewrite dump_groups_loop. Qed.

Lemma dump_with_packages_groups allow self version :
  dump_packages_groups (dump_with allow self version)
  = foldl (λ packages_groups group,
             dump_permissions group (group_package_permissions (storage self) group)
               packages_groups)
      [] (all_groups (storage self)).
Proof. unfold dump_with. by rewrite dump_groups_loop. Qed.

Lemma dump_with_users allow self version :
  dump_users (dump_with allow self version)
  = (λ user, {| du_username := lu_username user; du_admin := lu_admin user;
                du_password := _get_password_hash (storage self) (lu_username user) |})
    <$> all_user_data (storage self).
Proof. unfold dump_with. by rewrite dump_groups_loop. Qed.

Lemma dump_with_packages_users allow self version :
  dump_packages_users (dump_with allow self version)
  = foldl (λ packages_users username,
             dump_permissions username (user_package_permissions (storage self) username)
               packages_users)
      [] (lu_username <$> all_user_data (storage self)).
Proof.
  unfold dump_with. rewrite dump_groups_loop. cbn [dump_packages_users].
  generalize (@nil (string * dict (list string))).
  induction (all_user_data (storage self)) as [|user users IH]; intros packages; [done|].
  cbn [map fmap list_fmap foldl]. apply IH.
Qed.

Lemma dump_with_allow_register allow self version :
  dump_allow_register (dump_with allow self version) = allow (storage self).
Proof. unfold dump_with. by rewrite dump_groups_loop. Qed.

Lemma dump_groups_lookup allow self version group :
  dict_get group (dump_groups (dump_with allow self version))
  = if decide (group ∈ all_groups (storage self))
    then Some (group_members (storage self) group)
    else None.
Proof.
  rewrite dump_with_groups.
  by rewrite (dict_get_foldl_keys (group_members (storage self))).
Qed.

Lemma dump_groups_NoDup allow self version :
  NoDup (dict_keys (dump_groups (dump_with allow self version))).
Proof.
  rewrite dump_with_groups. apply foldl_NoDup_keys; [|apply NoDup_nil_2].
  intros d group. apply dict_setitem_NoDup.
Qed.

Lemma dump_packages_groups_get allow self version package name :
  packages_get (dump_packages_groups (dump_with allow self version)) package name
  = if decide (name ∈ all_groups (storage self))
    then dict_get package (reverse (group_package_permissions (storage self) name))
    else None.
Proof.
  rewrite dump_with_packages_groups.
  rewrite (packages_get_foldl (group_package_permissions (storage self))).
  destruct (decide (name ∈ all_groups (storage self))); [|done].
  by destruct (dict_get package (reverse (group_package_permissions (storage self) name))).
Qed.

Lemma dump_packages_users_get allow self version package name :
  packages_get (dump_packages_users (dump_with allow self version)) package name
  = if decide (name ∈ lu_username <$> all_user_data (storage self))
    then dict_get package (reverse (user_package_permissions (storage self) name))
    else None.
Proof.
  rewrite dump_with_packages_users.
  rewrite (packages_get_foldl (user_package_permissions (storage self))).
  destruct (decide (name ∈ lu_username <$> all_user_data (storage self))); [|done].
  by destruct (dict_get package (reverse (user_package_permissions (storage self) name))).
Qed.

(** X15: [dump] records under ["groups"] exactly the groups of
    [groups()], each once and with the answer of [group_members], also
    when [groups()] lists a group twice; when it lists none twice the keys
    come in its order. *)
Theorem dump_groups_members allow self version :
  (∀ group,
     dict_get group (dump_groups (dump_with allow self version))
     = if decide (group ∈ all_groups (storage self))
       then Some (group_members (storage self) group)
       else None)
  ∧ NoDup (dict_keys (dump_groups (dump_with allow self version)))
  ∧ (NoDup (all_groups (storage self)) →
     dict_keys (dump_groups (dump_with allow self version)) = all_groups (storage self)).
Proof.
  split_and!.
  - intros group. apply dump_groups_lookup.
  - apply dump_groups_NoDup.
  - intros Hnodup. rewrite dump_with_groups.
    by rewrite (dict_keys_foldl_keys (group_members (storage self))).
Qed.

(** X16: [dump] records for a package and a group the permissions of
    the last entry that [group_package_permissions] gives the group for
    the package, for the groups of [groups()] and no other; and likewise
    for the users of [user_data()]. *)
Theorem dump_packages_permissions allow self version package name :
  packages_get (dump_packages_groups (dump_with allow self version)) package name
  = (if decide (name ∈ all_groups (storage self))
     then dict_get package (reverse (group_package_permissions (storage self) name))
     else None)
  ∧ packages_get (dump_packages_users (dump_with allow self version)) package name
    = (if decide (name ∈ lu_username <$> all_user_data (storage self))
       then dict_get package (reverse (user_package_permissions (storage self) name))
       else None).
Proof. split; [apply dump_packages_groups_get|apply dump_packages_users_get]. Qed.

(** X17: a dump never records a package without a holder: every package
    under ["packages"]["groups"] and ["packages"]["users"] comes with at
    least one group, or user, and its permissions. *)
Theorem dump_packages_inhabited allow self version :
  packages_inhabited (dump_packages_groups (dump_with allow self version))
  ∧ packages_inhabited (dump_packages_users (dump_with allow self version)).
Proof.
  rewrite dump_with_packages_groups, dump_with_packages_users.
  split; by apply packages_foldl_inhabited.
Qed.
End dump_facts.

(** ** Registration and passwords *)

Lemma need_admin_loop_spec (users : list ListedUser) :
  need_admin_loop users = true ↔ ∀ user, user ∈ users → lu_admin user = false.
Proof.
  induction users as [|user users IH]; cbn.
  - split; [|done]. by intros _ user ?%elem_of_nil.
  - destruct (lu_admin user) eqn:Hadmin.
    + split; [done|]. intros Hall. rewrite (Hall user) in Hadmin by left. done.
    + rewrite IH. split.
      * intros Hall user' [->|Hin]%elem_of_cons; [done|by apply Hall].
      * intros Hall user' Hin. apply Hall. by right.
Qed.

Section registration_facts.
Context {St : Type} `{!IAccessBackend St} `{!IMutableAccessBackend St}
  `{!IAccessListing St} `{!IMutableAccessSettings St} {hmac : HmacSha256}.
Implicit Types (self : Backend St) (username password candidate token : string).

(** X18: an administrator is needed exactly on a mutable backend whose
    [user_data()] lists no user with the admin flag; in particular when
    it lists no user at all. *)
Theorem need_admin_spec self :
  need_admin self = true
  ↔ mutable = true ∧ ∀ user, user ∈ all_user_data (storage self) → lu_admin user = false.
Proof.
  unfold need_admin. destruct mutable.
  - rewrite need_admin_loop_spec. split; [done|by intros [_ ?]].
  - split; [done|by intros [? _]].
Qed.

(** X19: on a mutable backend registration by token is offered exactly
    when a token can be issued: with a signing key [get_signup_token]
    returns, and without one it raises [RuntimeError] while
    [validate_signup_token] rejects every token without raising. *)
Theorem allow_register_token_tokens self username token (now : Q) :
  mutable = true →
  if allow_register_token self
  then ∃ issued, get_signup_token self username now = Return issued
  else get_signup_token self username now = Raise RuntimeError
       ∧ validate_signup_token self token now = Return None.
Proof.
  intros Hmutable.
  unfold allow_register_token, get_signup_token, validate_signup_token, _hmac.
  rewrite Hmutable. destruct (signing_key self) as [key|].
  - rewrite bool_decide_true by done. by eexists.
  - by rewrite bool_decide_false by (by intros [? ?]).
Qed.

(** X20: [edit_user_password] stores the hash that the context of the
    backend makes of the password: when the storage then returns the
    hash it was given and still knows the user, [verify_user] checks a
    candidate against exactly that hash, and accepts nothing when the
    hash is empty. *)
Theorem edit_user_password_verify self username password candidate :
  let stored_pw := pwd_hash (pwd_context self) password in
  let st := _set_password_hash username stored_pw (storage self) in
  _get_password_hash st username = Some stored_pw →
  (mutable = true → is_Some (user_data st username)) →
  verify_user (edit_user_password self username password) username candidate
  = check_password self stored_pw candidate.
Proof.
  intros stored_pw st Hhash Hknown.
  unfold verify_user, edit_user_password, check_password.
  cbn [with_storage storage pwd_context]. fold stored_pw. fold st.
  rewrite Hhash. cbn [truthy_hash].
  destruct mutable.
  - destruct (Hknown eq_refl) as [data ->]. by destruct (decide (stored_pw = "")).
  - by destruct (decide (stored_pw = "")).
Qed.

(** X21: [register] hands the storage the hash, not the password.  On a
    mutable backend whose storage keeps a registered user pending, nobody
    logs in under the name until it is approved; once the approval makes
    the user known, [verify_user] checks candidates against the hash of
    the registered password. *)
Theorem register_verify self username password candidate :
  let stored_pw := pwd_hash (pwd_context self) password in
  let st := _register username stored_pw (storage self) in
  mutable = true →
  user_data st username = None →
  _get_password_hash (approve_user username st) username = Some stored_pw →
  is_Some (user_data (approve_user username st) username) →
  verify_user (register self username password) username candidate = Return false
  ∧ verify_user
      (with_storage self (approve_user username (storage (register self username password))))
      username candidate
    = check_password self stored_pw candidate.
Proof.
  intros stored_pw st Hmutable Hpending Hhash [data Hknown].
  unfold verify_user, register, check_password.
  cbn [with_storage storage pwd_context]. fold stored_pw. fold st.
  rewrite Hmutable, Hpending, Hhash, Hknown. cbn [truthy_hash].
  split; [done|]. by destruct (decide (stored_pw = "")).
Qed.
End registration_facts.

(** ** A dump loaded into an empty store *)

Lemma mapM_fmap_ext {A B C} (f : B → option C) (g : A → B) (h : A → C) (l : list A) :
  (∀ x, x ∈ l → f (g x) = Some (h x)) → mapM f (g <$> l) = Some (h <$> l).
Proof.
  induction l as [|x l IH]; intros Hall; [done|].
  cbn. rewrite (Hall x) by left. cbn.
  rewrite IH by (intros y Hin; apply Hall; by right). done.
Qed.

Lemma dict_get_None_keys {V} k (d : dict V) : dict_get k d = None ↔ k ∉ dict_keys d.
Proof.
  rewrite <- dict_get_is_Some. destruct (dict_get k d) as [v|].
  - split; [done|]. intros Hnot. destruct Hnot. by eexists.
  - split; [|done]. by intros _ [? ?].
Qed.

Lemma dict_get_reverse {V} k (d : dict V) :
  NoDup (dict_keys d) → dict_get k (reverse d) = dict_get k d.
Proof.
  unfold dict_keys. induction d as [|[k' v'] d IH]; intros Hnodup; [done|].
  cbn in Hnodup. apply NoDup_cons in Hnodup as [Hfresh Hnodup].
  rewrite reverse_cons, dict_get_app, IH by done. cbn.
  destruct (decide (k' = k)) as [->|Hne].
  - assert (dict_get k d = None) as -> by by apply dict_get_None_keys. done.
  - by destruct (dict_get k d).
Qed.

(** *** The snapshot of a dump *)

Lemma declared_grants_packages_get packages package name perm :
  packages_NoDup packages →
  declared_grants packages (package, name, perm)
  ↔ perm ∈ default [] (packages_get packages package name).
Proof.
  intros [Hpackages Hholders]. unfold packages_get. cbn. split.
  - intros (names & perms & Hnames & Hperms & Hperm).
    apply dict_elem_of_get in Hnames; [|done]. rewrite Hnames. cbn.
    apply dict_elem_of_get in Hperms; [|by eapply Hholders]. by rewrite Hperms.
  - destruct (dict_get package packages) as [names|] eqn:Hnames; cbn;
      [|by intros ?%elem_of_nil].
    destruct (dict_get name names) as [perms|] eqn:Hperms; cbn;
      [|by intros ?%elem_of_nil].
    intros Hperm. exists names, perms.
    split_and!; [by apply dict_get_Some_elem_of|by apply dict_get_Some_elem_of|done].
Qed.

Lemma packages_setitem_NoDup package name perms packages :
  packages_NoDup packages → packages_NoDup (packages_setitem package name perms packages).
Proof.
  intros [Hpackages Hholders]. unfold packages_setitem. split.
  - by apply dict_setitem_NoDup.
  - intros package' holders. rewrite dict_get_setitem.
    destruct (decide (package = package')) as [<-|Hne]; [|apply Hholders].
    intros [= <-]. apply dict_setitem_NoDup.
    destruct (dict_get package packages) as [holders|] eqn:Hget; cbn.
    + by eapply Hholders.
    + apply NoDup_nil_2.
Qed.

Lemma dump_permissions_NoDup name perms packages :
  packages_NoDup packages → packages_NoDup (dump_permissions name perms packages).
Proof.
  unfold dump_permissions. revert packages.
  induction perms as [|[package permissions] perms IH]; intros packages Hpackages; [done|].
  cbn [foldl]. by apply IH, packages_setitem_NoDup.
Qed.

Lemma packages_foldl_NoDup (listing : string → list (string * list string))
    (names : list string) packages :
  packages_NoDup packages →
  packages_NoDup
    (foldl (λ packages name, dump_permissions name (listing name) packages) packages names).
Proof.
  revert packages. induction names as [|name names IH]; intros packages Hpackages; [done|].
  cbn [foldl]. by apply IH, dump_permissions_NoDup.
Qed.

Lemma packages_NoDup_nil : packages_NoDup [].
Proof. split; [apply NoDup_nil_2|done]. Qed.

(** *** The listings of the store *)

Lemma grants_by_package_step_NoDup name (d : dict (list string))
    (grant : string * string * string) :
  NoDup (dict_keys d) →
  NoDup (dict_keys
           (let '(package, holder, perm) := grant in
            if decide (holder = name)
            then dict_setitem package (default [] (dict_get package d) ++ [perm]) d
            else d)).
Proof.
  destruct grant as [[package holder] perm]. intros Hnodup.
  destruct (decide (holder = name)); [by apply dict_setitem_NoDup|done].
Qed.

Lemma grants_by_package_NoDup grants name : NoDup (dict_keys (grants_by_package grants name)).
Proof.
  unfold grants_by_package.
  apply (foldl_NoDup_keys
           (λ d '(package, holder, perm),
              if decide (holder = name)
              then dict_setitem package (default [] (dict_get package d) ++ [perm]) d
              else d)).
  - intros d grant. apply grants_by_package_step_NoDup.
  - apply NoDup_nil_2.
Qed.

Lemma grants_by_package_foldl name package perm (l : list (string * string * string))
    (d : dict (list string)) :
  perm ∈ default [] (dict_get package
                       (foldl (λ d '(package, holder, perm),
                                 if decide (holder = name)
                                 then dict_setitem package
                                        (default [] (dict_get package d) ++ [perm]) d
                                 else d) d l))
  ↔ perm ∈ default [] (dict_get package d) ∨ (package, name, perm) ∈ l.
Proof.
  revert d. induction l as [|[[package' holder'] perm'] l IH]; intros d.
  - cbn [foldl]. split; [by left|]. by intros [?|?%elem_of_nil].
  - cbn [foldl]. rewrite IH, elem_of_cons. destruct (decide (holder' = name)) as [->|Hne].
    + rewrite dict_get_setitem. destruct (decide (package' = package)) as [->|Hp].
      * cbn. rewrite elem_of_app, list_elem_of_singleton. split.
        -- intros [[?| ->]|?]; [by left|right; by left|right; by right].
        -- intros [?|[[= ->]|?]]; [left; by left|left; by right|by right].
      * split.
        -- intros [?|?]; [by left|right; by right].
        -- intros [?|[[= ? ?]|?]]; [by left|done|by right].
    + split.
      * intros [?|?]; [by left|right; by right].
      * intros [?|[[= ? ? ?]|?]]; [by left|done|by right].
Qed.

Lemma elem_of_grants_by_package grants name package perm :
  perm ∈ default [] (dict_get package (grants_by_package grants name))
  ↔ (package, name, perm) ∈ grants.
Proof.
  unfold grants_by_package. rewrite grants_by_package_foldl, elem_of_elements. cbn.
  split; [by intros [?%elem_of_nil|?]|by right].
Qed.

Lemma elem_of_all_groups (st : Store) group :
  group ∈ all_groups st ↔ group ∈ dom (st_groups st).
Proof.
  cbn. rewrite list_elem_of_fmap, elem_of_dom. split.
  - intros ([group' members] & -> & Hin%elem_of_map_to_list). by exists members.
  - intros [members Hin]. exists (group, members). by rewrite elem_of_map_to_list.
Qed.

Lemma elem_of_all_user_data (st : Store) username :
  username ∈ lu_username <$> all_user_data st ↔ approved st username.
Proof.
  cbn. rewrite <- list_fmap_compose, list_elem_of_fmap. unfold approved. split.
  - intros ([username' u] & -> & Hin%elem_of_map_to_list).
    apply map_lookup_filter_Some in Hin as [Hu Hstatus]. by exists u.
  - intros (u & Hu & Hstatus). exists (username, u). split; [done|].
    apply elem_of_map_to_list. by apply map_lookup_filter_Some.
Qed.

(** *** The users of a dump *)

Lemma declared_password_entries (mk : string * UserRecord → SnapshotUser)
    (l : list (string * UserRecord)) name :
  (∀ entry, su_username (mk entry) = entry.1 ∧ su_password (mk entry) = ur_password entry.2) →
  declared_password (mk <$> l) name
  = ur_password <$> (list_to_map l : gmap string UserRecord) !! name.
Proof.
  intros Hmk. induction l as [|[k u] l IH]; cbn [fmap list_fmap declared_password].
  - done.
  - destruct (Hmk (k, u)) as [-> ->]. cbn [list_to_map foldr fst snd].
    destruct (decide (k = name)) as [->|Hne].
    + by rewrite lookup_insert_eq.
    + by rewrite lookup_insert_ne.
Qed.

Lemma declared_admin_entries (mk : string * UserRecord → SnapshotUser)
    (l : list (string * UserRecord)) name :
  (∀ entry, su_username (mk entry) = entry.1
            ∧ su_admin (mk entry) = Some (ur_admin entry.2)) →
  NoDup l.*1 →
  declared_admin (mk <$> l) name
  = ur_admin <$> (list_to_map l : gmap string UserRecord) !! name.
Proof.
  intros Hmk. induction l as [|[k u] l IH]; intros Hnodup;
    cbn [fmap list_fmap declared_admin].
  - done.
  - cbn in Hnodup. apply NoDup_cons in Hnodup as [Hfresh Hnodup].
    change (list_fmap _ _ mk l) with (mk <$> l). rewrite IH by done.
    destruct (Hmk (k, u)) as [-> ->]. cbn [list_to_map foldr fst snd default].
    destruct (decide (k = name)) as [->|Hne].
    + rewrite lookup_insert_eq.
      by rewrite (not_elem_of_list_to_map_1 (M := gmap string) l name).
    + rewrite lookup_insert_ne by done.
      by destruct ((list_to_map l : gmap string UserRecord) !! name).
Qed.

Lemma snapshot_of_mutable_dump (self : Backend Store) version :
  snapshot_of_dump (mutable_dump self version)
  = Some {| data_users := store_snapshot_users (storage self);
            data_groups := dump_groups (dump_with allow_register self version);
            data_pending_users := Some (store_snapshot_pending_users (storage self));
            data_packages_groups :=
              dump_packages_groups (dump_with allow_register self version);
            data_packages_users :=
              dump_packages_users (dump_with allow_register self version);
            data_allow_register := st_allow_register (storage self) |}.
Proof.
  set (st := storage self).
  unfold snapshot_of_dump, mutable_dump.
  cbn [dump_users dump_pending_users dump_groups dump_packages_groups
       dump_packages_users dump_allow_register].
  rewrite dump_with_users. fold st.
  assert (mapM snapshot_user
            ((λ user, {| du_username := lu_username user; du_admin := lu_admin user;
                         du_password := _get_password_hash st (lu_username user) |})
             <$> all_user_data st)
          = Some (store_snapshot_users st)) as ->.
  { unfold store_snapshot_users. cbn [all_user_data store_listing].
    rewrite <- list_fmap_compose. apply mapM_fmap_ext.
    intros [username u] Hin%elem_of_map_to_list.
    apply map_lookup_filter_Some in Hin as [Hu _].
    unfold snapshot_user. cbn. by rewrite Hu. }
  assert (mapM snapshot_pending_user
            (map (λ username, (username, _get_password_hash st username))
               (pending_users st))
          = Some (store_snapshot_pending_users st)) as ->.
  { unfold store_snapshot_pending_users. cbn [pending_users store_mutable].
    change (map ?f ?l) with (f <$> l).
    rewrite <- list_fmap_compose. apply mapM_fmap_ext.
    intros [username u] Hin%elem_of_map_to_list.
    apply map_lookup_filter_Some in Hin as [Hu _].
    unfold snapshot_pending_user. cbn. by rewrite Hu. }
  by rewrite dump_with_allow_register.
Qed.

Lemma declared_password_store_users (st : Store) name :
  declared_password (store_snapshot_users st) name
  = ur_password <$> filter (λ entry, ur_status entry.2 = Approved) (st_users st) !! name.
Proof.
  unfold store_snapshot_users.
  rewrite declared_password_entries by done. by rewrite list_to_map_to_list.
Qed.

Lemma declared_admin_store_users (st : Store) name :
  declared_admin (store_snapshot_users st) name
  = ur_admin <$> filter (λ entry, ur_status entry.2 = Approved) (st_users st) !! name.
Proof.
  unfold store_snapshot_users.
  rewrite declared_admin_entries by (done || apply NoDup_fst_map_to_list).
  by rewrite list_to_map_to_list.
Qed.

Lemma declared_password_store_pending_users (st : Store) name :
  declared_password (store_snapshot_pending_users st) name
  = ur_password <$> filter (λ entry, ur_status entry.2 = Pending) (st_users st) !! name.
Proof.
  unfold store_snapshot_pending_users.
  rewrite declared_password_entries by done. by rewrite list_to_map_to_list.
Qed.

Lemma elem_of_store_snapshot_users (st : Store) username :
  username ∈ su_username <$> store_snapshot_users st ↔ approved st username.
Proof.
  unfold store_snapshot_users. rewrite <- list_fmap_compose, list_elem_of_fmap.
  unfold approved. split.
  - intros ([username' u] & -> & Hin%elem_of_map_to_list).
    apply map_lookup_filter_Some in Hin as [Hu Hstatus]. by exists u.
  - intros (u & Hu & Hstatus). exists (username, u). split; [done|].
    apply elem_of_map_to_list. by apply map_lookup_filter_Some.
Qed.

Lemma store_filter_lookup (st : Store) (status : Status) name :
  filter (λ entry, ur_status entry.2 = status) (st_users st) !! name
  = match st_users st !! name with
    | Some u => if decide (ur_status u = status) then Some u else None
    | None => None
    end.
Proof.
  destruct (st_users st !! name) as [u|] eqn:Hu.
  - destruct (decide (ur_status u = status)) as [Hstatus|Hstatus].
    + by apply map_lookup_filter_Some_2.
    + apply map_lookup_filter_None_2. right. intros u' Hu'. cbn. congruence.
  - apply map_lookup_filter_None_2. by left.
Qed.

(** *** The round trip *)

Lemma dump_load_users (st st0 : Store) (data : Snapshot) :
  st_users st0 = ∅ →
  data_users data = store_snapshot_users st →
  data_pending_users data = Some (store_snapshot_pending_users st) →
  (∀ username u,
     st_users st !! username = Some u → ur_status u = Pending → ur_admin u = false) →
  st_users (load_storage data st0) = st_users st.
Proof.
  intros Hempty Husers Hpending_users Hpending. apply map_eq. intros name.
  rewrite load_storage_users, Hempty, lookup_empty, Husers, Hpending_users.
  cbn [default from_option id].
  rewrite declared_password_store_users, declared_admin_store_users,
    declared_password_store_pending_users, !store_filter_lookup.
  destruct (st_users st !! name) as [u|] eqn:Hu; [|done].
  destruct (decide (ur_status u = Approved)) as [Happroved|Hnot].
  - cbn. destruct u as [password admin status]. cbn in *. by subst.
  - cbn. destruct (decide (ur_status u = Pending)) as [Hstatus|Hstatus].
    + cbn. pose proof (Hpending name u Hu Hstatus) as Hadmin.
      destruct u as [password admin status]. cbn in *. by subst.
    + by destruct (ur_status u).
Qed.

Lemma dump_load_groups (self : Backend Store) version (st0 : Store) (data : Snapshot) :
  st_users st0 = ∅ → st_groups st0 = ∅ →
  data_users data = store_snapshot_users (storage self) →
  data_groups data = dump_groups (dump_with allow_register self version) →
  (∀ group member, member ∈ store_members (storage self) group →
                   approved (storage self) member) →
  st_groups (load_storage data st0) = st_groups (storage self).
Proof.
  intros Husers0 Hgroups0 Husers Hgroups Hmembers.
  set (st := storage self) in *.
  rewrite load_storage_groups.
  set (sa := load_users (pending_users st0) (data_users data) st0).
  set (sb := load_groups (data_groups data) sa).
  assert (st_groups sa = ∅) as Hga.
  { rewrite <- Hgroups0. apply load_users_rest. }
  assert (st_users sb = st_users sa) as Hub by apply load_groups_rest.
  assert (∀ group, dict_get group (data_groups data)
                   = if decide (group ∈ all_groups st)
                     then Some (group_members st group) else None) as Hget.
  { intros group. rewrite Hgroups. apply dump_groups_lookup. }
  assert (NoDup (dict_keys (data_groups data))) as Hnodup.
  { rewrite Hgroups. apply dump_groups_NoDup. }
  apply map_eq. intros group.
  destruct (decide (group ∈ all_groups st)) as [Hin|Hnin].
  - pose proof (Hget group) as Hgroup. rewrite decide_True in Hgroup by done.
    apply dict_get_Some_elem_of in Hgroup as Hdeclared.
    destruct (load_groups_attaches (data_groups data) sa group _ Hdeclared)
      as [Hdom Hattached].
    fold sb in Hdom, Hattached.
    apply elem_of_all_groups in Hin.
    apply elem_of_dom in Hdom as [members' Hmembers'].
    apply elem_of_dom in Hin as [members Hmembers_st].
    rewrite Hmembers', Hmembers_st. f_equal.
    assert (store_members sb group = members') as <-
      by (unfold store_members; by rewrite Hmembers').
    assert (store_members st group = members) as <-
      by (unfold store_members; by rewrite Hmembers_st).
    apply set_eq. intros member. split.
    + intros [Habsurd|(members'' & Hin'' & Hmember)]%load_groups_members.
      * unfold store_members in Habsurd. rewrite Hga, lookup_empty in Habsurd.
        by apply elem_of_empty in Habsurd.
      * apply (dict_elem_of_get _ _ _ Hnodup) in Hin''.
        rewrite Hin'' in Hgroup. injection Hgroup as ->.
        by apply elem_of_elements in Hmember.
    + intros Hmember. apply Hattached.
      * cbn. by apply elem_of_elements.
      * rewrite Hub. apply load_users_declared; [apply store_pending_users_dom|].
        rewrite Husers. by apply elem_of_store_snapshot_users, (Hmembers group).
  - pose proof (Hget group) as Hgroup. rewrite decide_False in Hgroup by done.
    apply dict_get_None_keys in Hgroup.
    destruct (load_groups_grows (data_groups data) sa) as [_ Hsame].
    fold sb in Hsame. rewrite (Hsame group Hgroup), Hga, lookup_empty.
    symmetry. apply not_elem_of_dom. by rewrite <- elem_of_all_groups.
Qed.

Lemma dump_packages_NoDup (self : Backend Store) allow version :
  packages_NoDup (dump_packages_groups (dump_with allow self version))
  ∧ packages_NoDup (dump_packages_users (dump_with allow self version)).
Proof.
  rewrite dump_with_packages_groups, dump_with_packages_users.
  split; apply packages_foldl_NoDup, packages_NoDup_nil.
Qed.

Lemma dump_declared_group_grants (self : Backend Store) allow version grant :
  declared_grants (dump_packages_groups (dump_with allow self version)) grant
  ↔ grant ∈ st_group_grants (storage self) ∧ grant.1.2 ∈ dom (st_groups (storage self)).
Proof.
  destruct grant as [[package group] perm]. cbn [fst snd].
  rewrite declared_grants_packages_get by apply dump_packages_NoDup.
  rewrite dump_packages_groups_get, <- elem_of_all_groups.
  destruct (decide (group ∈ all_groups (storage self))) as [Hin|Hnin].
  - cbn [group_package_permissions store_listing].
    rewrite dict_get_reverse by apply grants_by_package_NoDup.
    rewrite elem_of_grants_by_package. split; [done|by intros [? _]].
  - cbn. split; [by intros ?%elem_of_nil|by intros [_ ?]].
Qed.

Lemma dump_declared_user_grants (self : Backend Store) allow version grant :
  declared_grants (dump_packages_users (dump_with allow self version)) grant
  ↔ grant ∈ st_user_grants (storage self) ∧ approved (storage self) grant.1.2.
Proof.
  destruct grant as [[package username] perm]. cbn [fst snd].
  rewrite declared_grants_packages_get by apply dump_packages_NoDup.
  rewrite dump_packages_users_get, <- elem_of_all_user_data.
  destruct (decide (username ∈ lu_username <$> all_user_data (storage self)))
    as [Hin|Hnin].
  - cbn [user_package_permissions store_listing].
    rewrite dict_get_reverse by apply grants_by_package_NoDup.
    rewrite elem_of_grants_by_package. split; [done|by intros [? _]].
  - cbn. split; [by intros ?%elem_of_nil|by intros [_ ?]].
Qed.

(** X22: a closed store is rebuilt from its dump: the dump has a hash
    for every user, and loading it into an empty store gives the users
    with their hashes, flags and status, the groups with their members,
    the grants and the registration flag of the store that was dumped. *)
Theorem dump_load_roundtrip (self : Backend Store) version :
  store_closed (storage self) →
  ∃ data, snapshot_of_dump (mutable_dump self version) = Some data
          ∧ storage (load (with_storage self empty_store) data) = storage self.
Proof.
  intros (Hmembers & Hgroup_grants & Huser_grants & Hpending).
  eexists. split; [apply snapshot_of_mutable_dump|].
  cbn [load with_storage storage]. apply store_eq.
  - by apply dump_load_users.
  - by apply (dump_load_groups self version).
  - apply set_eq. intros grant.
    rewrite (proj1 (load_storage_grants _ _)). cbn [data_packages_groups].
    rewrite dump_declared_group_grants. cbn [st_group_grants empty_store]. split.
    + intros [?%elem_of_empty|[? _]]; done.
    + intros Hin. right. split; [done|]. destruct grant as [[package group] perm].
      by apply (Hgroup_grants package group perm).
  - apply set_eq. intros grant.
    rewrite (proj1 (proj2 (load_storage_grants _ _))). cbn [data_packages_users].
    rewrite dump_declared_user_grants. cbn [st_user_grants empty_store]. split.
    + intros [?%elem_of_empty|[? _]]; done.
    + intros Hin. right. split; [done|]. destruct grant as [[package username] perm].
      by apply (Huser_grants package username perm).
  - by rewrite (proj2 (proj2 (load_storage_grants _ _))).
Qed.

(** ** The first administrator *)

Lemma need_admin_loop_false (users : list ListedUser) (user : ListedUser) :
  user ∈ users → lu_admin user = true → need_admin_loop users = false.
Proof.
  intros Hin Hadmin. destruct (need_admin_loop users) eqn:Hloop; [|done].
  rewrite need_admin_loop_spec in Hloop. by rewrite (Hloop user Hin) in Hadmin.
Qed.

Lemma declared_admin_password (users : list SnapshotUser) username admin :
  declared_admin users username = Some admin →
  is_Some (declared_password users username).
Proof.
  induction users as [|user users IH]; [done|]. cbn. intros Hdeclared.
  destruct (decide (su_username user = username)); [by eexists|].
  destruct (declared_admin users username); [by apply IH|done].
Qed.

(** X23: a load that declares an administrator ends the need for one,
    unless the store holds the declared user as a pending one: [load]
    then sets the flag and leaves the user pending, out of
    [user_data()]. *)
Theorem load_need_admin (self : Backend Store) (data : Snapshot) username :
  declared_admin (data_users data) username = Some true →
  (∀ u, st_users (storage self) !! username = Some u → ur_status u = Approved) →
  need_admin (load self data) = false.
Proof.
  intros Hdeclared Hstatus.
  assert (∃ u, st_users (load_storage data (storage self)) !! username = Some u
               ∧ ur_status u = Approved ∧ ur_admin u = true) as (u & Hu & Happroved & Hadmin).
  { rewrite load_storage_users, Hdeclared.
    destruct (st_users (storage self) !! username) as [u|] eqn:Hu.
    - eexists. split; [done|]. split; [|done]. cbn. by apply Hstatus.
    - destruct (declared_admin_password _ _ _ Hdeclared) as [password ->].
      eexists. by split. }
  unfold need_admin. cbn [mutable store_access load with_storage storage].
  apply (need_admin_loop_false _ {| lu_username := username; lu_admin := ur_admin u |});
    [|done].
  cbn. apply list_elem_of_fmap. exists (username, u). split; [done|].
  apply elem_of_map_to_list. by apply map_lookup_filter_Some.
Qed.

(** ** The further properties at concrete backends *)

Lemma allowed_permissions_user_grant_witness :
  NoDup (dict_keys (user_permissions qa_store "foo"))
  ∧ ("carol", ["write"]) ∈ user_permissions qa_store "foo"
  ∧ dict_get "user:carol" (allowed_permissions (example_backend qa_store) "foo")
    = Some ["write"].
Proof.
  assert (NoDup (dict_keys (user_permissions qa_store "foo"))) as Hnodup.
  { apply (bool_decide_unpack _). by vm_compute. }
  assert (("carol", ["write"]) ∈ user_permissions qa_store "foo") as Hin.
  { apply (bool_decide_unpack _). by vm_compute. }
  split; [exact Hnodup|]. split; [exact Hin|].
  exact (allowed_permissions_user_grant (example_backend qa_store) "foo" "carol" ["write"]
           Hnodup Hin).
Defined.

Lemma in_group_user_principals_witness :
  "qa" ≠ "admin"
  ∧ String.prefix "group:" "qa" = false
  ∧ (in_group (example_backend qa_store) (Some "carol") "qa" = true
     ↔ group_to_principal "qa" ∈ user_principals (example_backend qa_store) "carol").
Proof.
  assert ("qa" ≠ "admin") as Hne by discriminate.
  split; [exact Hne|]. split; [reflexivity|].
  exact (in_group_user_principals (example_backend qa_store) "carol" "qa" Hne eq_refl).
Defined.

Lemma can_update_cache_cases_witness :
  userid (request (example_backend qa_store)) = None
  ∧ (can_update_cache (example_backend qa_store) = true
     ↔ "everyone" ∈ cache_update (example_backend qa_store)
       ∨ Everyone ∈ cache_update (example_backend qa_store)).
Proof.
  split; [reflexivity|].
  exact (proj1 (can_update_cache_cases (example_backend qa_store)) eq_refl).
Defined.

Lemma validate_signup_token_accepts_witness :
  (signing_key (example_backend empty_store) = Some "secret"
   ∧ str_ascii "bob:1000:736563726574626f623a31303030" = true
   ∧ (String.length "bob:1000:736563726574626f623a31303030" ≤ INT_MAX_STR_DIGITS)%nat)
  ∧ (validate_signup_token (hmac := example_hmac) (example_backend empty_store)
       "bob:1000:736563726574626f623a31303030" 1000%Q
     = Return (Some "bob")
     ↔ ∃ issued_str middle signature issued,
         str_split ":" "bob:1000:736563726574626f623a31303030"
         = "bob" :: issued_str :: middle ++ [signature]
         ∧ py_int issued_str = Return issued
         ∧ (1000 <= inject_Z (issued + token_expiration (example_backend empty_store)))%Q
         ∧ signature
           = hexlify (hmac_sha256 (HmacSha256 := example_hmac) "secret"
                        ("bob" +:+ ":" +:+ format_d (inject_Z issued)))).
Proof.
  assert (String.length "bob:1000:736563726574626f623a31303030" ≤ INT_MAX_STR_DIGITS)%nat
    as Hlength by (vm_compute; lia).
  split; [by split_and!|].
  exact (validate_signup_token_accepts (hmac := example_hmac) (example_backend empty_store)
           "secret" "bob:1000:736563726574626f623a31303030" 1000%Q "bob"
           eq_refl eq_refl Hlength).
Defined.

Lemma get_signup_token_pieces_witness :
  str_contains ":" "bob" = false
  ∧ ∃ token,
      get_signup_token (hmac := example_hmac) (example_backend empty_store) "bob" (2001 # 2)
      = Return token
      ∧ str_split ":" token = ["bob"; "1000"; "736563726574626f623a31303030"].
Proof.
  split; [reflexivity|].
  pose proof (get_signup_token_pieces (hmac := example_hmac) (example_backend empty_store)
                "bob" (2001 # 2) eq_refl) as W.
  cbn [signing_key example_backend] in W. destruct W as (token & Htoken & Hsplit & _).
  exists token. split; [exact Htoken|]. rewrite Hsplit. reflexivity.
Defined.

Lemma validate_signup_token_middle_witness :
  (str_contains ":" "bob" = false
   ∧ str_contains ":" "1000" = false
   ∧ str_contains ":" "736563726574626f623a31303030" = false)
  ∧ validate_signup_token (hmac := example_hmac) (example_backend empty_store)
      "bob:1000:is:admin:736563726574626f623a31303030" 1000%Q
    = validate_signup_token (hmac := example_hmac) (example_backend empty_store)
        "bob:1000:736563726574626f623a31303030" 1000%Q
  ∧ validate_signup_token (hmac := example_hmac) (example_backend empty_store)
      "bob:1000:736563726574626f623a31303030" 1000%Q
    = Return (Some "bob").
Proof.
  split; [by split_and!|]. split; [|by vm_compute].
  exact (validate_signup_token_middle (hmac := example_hmac)
           (example_backend empty_store) "bob" "1000"
           "736563726574626f623a31303030" "is:admin" 1000%Q
           eq_refl eq_refl eq_refl).
Defined.

Lemma load_existing_user_witness :
  st_users pending_store !! "eve" = Some (pending_user "$pw")
  ∧ ∃ u', st_users (storage (load (example_backend pending_store)
                               {| data_users :=
                                    [ {| su_username := "eve"; su_password := "$new";
                                         su_admin := Some true |} ];
                                  data_groups := [];
                                  data_pending_users := None;
                                  data_packages_groups := [];
                                  data_packages_users := [];
                                  data_allow_register := false |})) !! "eve" = Some u'
          ∧ ur_password u' = "$pw"
          ∧ ur_status u' = Pending
          ∧ ur_admin u' = true.
Proof.
  assert (st_users pending_store !! "eve" = Some (pending_user "$pw")) as Hu
    by by vm_compute.
  split; [exact Hu|].
  exact (load_existing_user (example_backend pending_store) _ "eve" _ Hu).
Defined.

Lemma load_new_user_witness :
  st_users qa_store !! "bob" = None
  ∧ st_users (storage (load (example_backend qa_store) dev_snapshot)) !! "bob"
    = Some (approved_user "$pw" false).
Proof.
  assert (st_users qa_store !! "bob" = None) as Hu by by vm_compute.
  split; [exact Hu|].
  exact (load_new_user (example_backend qa_store) dev_snapshot "bob" Hu).
Defined.

Lemma load_members_witness :
  (("dev", ["bob"]) ∈ data_groups dev_snapshot
   ∧ "bob" ∈ ["bob"]
   ∧ "bob" ∈ su_username <$> data_users dev_snapshot)
  ∧ "bob" ∈ store_members (storage (load (example_backend qa_store) dev_snapshot)) "dev".
Proof.
  assert (("dev", ["bob"]) ∈ data_groups dev_snapshot) as Hgroup by left.
  assert ("bob" ∈ ["bob"]) as Hmember by left.
  assert ("bob" ∈ su_username <$> data_users dev_snapshot) as Huser by left.
  split; [by split_and!|].
  exact (proj1 (load_members (example_backend qa_store) dev_snapshot "dev" "bob")
           ["bob"] Hgroup Hmember (or_intror Huser)).
Defined.

Lemma dump_groups_members_witness :
  NoDup (all_groups qa_store)
  ∧ dict_keys (dump_groups (dump (example_backend qa_store) "1.0")) = all_groups qa_store.
Proof.
  assert (NoDup (all_groups (storage (example_backend qa_store)))) as Hnodup.
  { apply (bool_decide_unpack _). by vm_compute. }
  split; [exact Hnodup|].
  exact (proj2 (proj2 (dump_groups_members (λ _, false) (example_backend qa_store) "1.0"))
           Hnodup).
Defined.

Lemma allow_register_token_tokens_witness :
  @mutable Store store_access = true
  ∧ ∃ issued,
      get_signup_token (hmac := example_hmac) (example_backend qa_store) "bob" 1000%Q
      = Return issued.
Proof.
  split; [reflexivity|].
  exact (allow_register_token_tokens (hmac := example_hmac) (example_backend qa_store)
           "bob" "token" 1000%Q eq_refl).
Defined.

Lemma edit_user_password_verify_witness :
  (_get_password_hash (_set_password_hash "carol" "$new" qa_store) "carol" = Some "$new"
   ∧ is_Some (user_data (_set_password_hash "carol" "$new" qa_store) "carol"))
  ∧ verify_user (edit_user_password (example_backend qa_store) "carol" "new") "carol" "new"
    = Return true
  ∧ verify_user (edit_user_password (example_backend qa_store) "carol" "new") "carol" "pw"
    = Return false.
Proof.
  assert (_get_password_hash (_set_password_hash "carol" "$new" qa_store) "carol"
          = Some "$new") as Hhash by by vm_compute.
  assert (is_Some (user_data (_set_password_hash "carol" "$new" qa_store) "carol"))
    as Hknown by (vm_compute; by eexists).
  split; [by split|]. split.
  - rewrite (edit_user_password_verify (example_backend qa_store) "carol" "new" "new"
               Hhash (λ _, Hknown)).
    by vm_compute.
  - rewrite (edit_user_password_verify (example_backend qa_store) "carol" "new" "pw"
               Hhash (λ _, Hknown)).
    by vm_compute.
Defined.

Lemma register_verify_witness :
  (@mutable Store store_access = true
   ∧ user_data (_register "zoe" "$pw" empty_store) "zoe" = None
   ∧ _get_password_hash (approve_user "zoe" (_register "zoe" "$pw" empty_store)) "zoe"
     = Some "$pw"
   ∧ is_Some (user_data (approve_user "zoe" (_register "zoe" "$pw" empty_store)) "zoe"))
  ∧ verify_user (register (example_backend empty_store) "zoe" "pw") "zoe" "pw"
    = Return false
  ∧ verify_user (approve (register (example_backend empty_store) "zoe" "pw") "zoe")
      "zoe" "pw"
    = Return true.
Proof.
  assert (user_data (_register "zoe" "$pw" empty_store) "zoe" = None) as Hpending
    by by vm_compute.
  assert (_get_password_hash (approve_user "zoe" (_register "zoe" "$pw" empty_store)) "zoe"
          = Some "$pw") as Hhash by by vm_compute.
  assert (is_Some (user_data (approve_user "zoe" (_register "zoe" "$pw" empty_store)) "zoe"))
    as Hknown by (vm_compute; by eexists).
  split; [by split_and!|].
  destruct (register_verify (example_backend empty_store) "zoe" "pw" "pw"
              (eq_refl : @mutable Store store_access = true) Hpending Hhash Hknown)
    as [Hbefore Hafter].
  split; [exact Hbefore|]. etrans; [exact Hafter|by vm_compute].
Defined.

Lemma load_need_admin_witness :
  (declared_admin (data_users admin_snapshot) "root" = Some true
   ∧ st_users qa_store !! "root" = None)
  ∧ need_admin (example_backend qa_store) = true
  ∧ need_admin (load (example_backend qa_store) admin_snapshot) = false.
Proof.
  assert (st_users qa_store !! "root" = None) as Hu by by vm_compute.
  split; [by split|]. split; [by vm_compute|].
  apply (load_need_admin (example_backend qa_store) admin_snapshot "root" eq_refl).
  intros u Hu'. cbn [storage example_backend] in Hu'. by rewrite Hu in Hu'.
Defined.

Lemma qa_store_closed : store_closed qa_store.
Proof.
  assert (approved qa_store "carol") as Hcarol.
  { eexists. split; [by vm_compute|done]. }
  split_and!.
  - intros group member. unfold store_members. cbn [st_groups qa_store].
    destruct (decide (group = "qa")) as [->|Hne].
    + rewrite lookup_singleton_eq. cbn. intros Heq%elem_of_singleton. by subst.
    + rewrite lookup_singleton_ne by done. cbn. by intros ?%elem_of_empty.
  - intros package group perm. cbn [st_group_grants st_groups qa_store].
    intros [= -> -> ->]%elem_of_singleton. rewrite dom_singleton. by apply elem_of_singleton.
  - intros package username perm. cbn [st_user_grants qa_store].
    by intros [= -> -> ->]%elem_of_singleton.
  - intros username u. cbn [st_users qa_store].
    intros [<- <-]%lookup_singleton_Some. done.
Qed.

Lemma dump_load_roundtrip_witness :
  store_closed qa_store
  ∧ ∃ data, snapshot_of_dump (mutable_dump (example_backend qa_store) "1.0") = Some data
            ∧ storage (load (example_backend empty_store) data) = qa_store.
Proof.
  split; [exact qa_store_closed|].
  exact (dump_load_roundtrip (example_backend qa_store) "1.0" qa_store_closed).
Defined.

(** ** The calls of a second [load] *)

Section quiet_calls.
Implicit Types (t : Traced Store) (st : Store) (pending : list string).

Lemma quiet_traced (call : Mutation) (f : Store → Store) t :
  guarded_call call = false →
  Forall (λ call, guarded_call call = false) t.2 →
  Forall (λ call, guarded_call call = false) (traced call f t).2.
Proof. intros Hcall Hquiet. apply Forall_app. split; [done|]. by apply Forall_singleton. Qed.

Lemma set_difference_nil (members current : list string) :
  (∀ member, member ∈ members → member ∈ current) → set_difference members current = [].
Proof.
  intros Hall. apply elem_of_nil_inv. intros member [Hin Hnin]%elem_of_set_difference.
  by apply Hnin, Hall.
Qed.

(** A round of the loop over the groups does nothing, and calls nothing,
    for a group that declares a member and holds all it declares. *)
Lemma load_group_quiet group (members : list string) t :
  members ≠ [] →
  (∀ member, member ∈ members → member ∈ store_members t.1 group) →
  load_group group members t = t.
Proof.
  intros Hmembers Hall. unfold load_group.
  change (group_members t group) with (elements (store_members t.1 group)).
  assert (∀ member, member ∈ members → member ∈ elements (store_members t.1 group))
    as Hcurrent.
  { intros member Hin. by apply elem_of_elements, Hall. }
  destruct (elements (store_members t.1 group)) as [|current0 current] eqn:Hcur.
  - destruct members as [|member members]; [done|].
    by destruct (not_elem_of_nil member (Hcurrent member (list_elem_of_here _ _))).
  - cbn zeta.
    change (group_members t group) with (elements (store_members t.1 group)).
    rewrite Hcur, (set_difference_nil members (current0 :: current)) by done.
    done.
Qed.

(** A round of the loop over the users only sets the admin flag of a
    user that the store holds. *)
Lemma load_user_quiet pending (user : SnapshotUser) t :
  pending_listed pending t.1 →
  su_username user ∈ dom (st_users t.1) →
  load_user pending user t
  = traced (SetUserAdmin (su_username user) (default false (su_admin user)))
           (set_user_admin (su_username user) (default false (su_admin user))) t.
Proof.
  intros Hlisted Hknown. unfold load_user.
  change (user_exists pending t (su_username user))
    with (user_exists pending t.1 (su_username user)).
  by rewrite user_exists_known.
Qed.

Lemma load_pending_user_quiet pending (user : SnapshotUser) t :
  pending_listed pending t.1 →
  su_username user ∈ dom (st_users t.1) →
  load_pending_user pending user t = t.
Proof.
  intros Hlisted Hknown. unfold load_pending_user.
  change (user_exists pending t (su_username user))
    with (user_exists pending t.1 (su_username user)).
  by rewrite user_exists_known.
Qed.

(** The loop over the users of a snapshot whose users the store holds:
    the users stay, the groups are not touched and no guarded call is
    made. *)
Lemma load_users_quiet pending (users : list SnapshotUser) (known : list string) t :
  pending_listed pending t.1 →
  (∀ name, name ∈ su_username <$> users → name ∈ dom (st_users t.1)) →
  (∀ name, name ∈ known → name ∈ dom (st_users t.1)) →
  Forall (λ call, guarded_call call = false) t.2 →
  let t' := load_users pending users t in
  pending_listed pending t'.1
  ∧ (∀ name, name ∈ known → name ∈ dom (st_users t'.1))
  ∧ Forall (λ call, guarded_call call = false) t'.2.
Proof.
  intros Hlisted Husers Hknown Hquiet. cbn zeta. unfold load_users.
  assert (∀ name, name ∈ (su_username <$> users) ++ known → name ∈ dom (st_users t.1))
    as Hdom.
  { intros name [?|?]%elem_of_app; auto. }
  clear Husers Hknown.
  cut (pending_listed pending (for_each users (load_user pending) t).1
       ∧ (∀ name, name ∈ (su_username <$> users) ++ known →
                  name ∈ dom (st_users (for_each users (load_user pending) t).1))
       ∧ Forall (λ call, guarded_call call = false)
           (for_each users (load_user pending) t).2).
  { intros (? & Hdom' & ?). split_and!; [done| |done].
    intros name Hin. apply Hdom', elem_of_app. by right. }
  apply (for_each_invariant
           (λ t', pending_listed pending t'.1
                  ∧ (∀ name, name ∈ (su_username <$> users) ++ known →
                             name ∈ dom (st_users t'.1))
                  ∧ Forall (λ call, guarded_call call = false) t'.2)); [|done].
  intros user t' Hin (Hlisted' & Hdom' & Hquiet').
  assert (su_username user ∈ dom (st_users t'.1)) as Hknown.
  { apply Hdom', elem_of_app. left. by apply list_elem_of_fmap_2. }
  rewrite load_user_quiet by done. split_and!.
  - pose proof (load_user_known_listed pending user t'.1 Hlisted' Hknown) as Hkept.
    rewrite load_user_known in Hkept by done. exact Hkept.
  - intros name Hname. cbn. rewrite dom_alter_L. by apply Hdom'.
  - by apply quiet_traced.
Qed.

Lemma load_permissions_quiet (edit : string → string → string → bool → Traced Store → Traced Store)
    (packages : dict (dict (list string))) t :
  (∀ package name perm t,
     Forall (λ call, guarded_call call = false) t.2 →
     Forall (λ call, guarded_call call = false) (edit package name perm true t).2) →
  Forall (λ call, guarded_call call = false) t.2 →
  Forall (λ call, guarded_call call = false) (load_permissions edit packages t).2.
Proof.
  intros Hedit. unfold load_permissions.
  apply (for_each_invariant (λ t', Forall (λ call, guarded_call call = false) t'.2)).
  intros [package names] t1 _.
  apply (for_each_invariant (λ t', Forall (λ call, guarded_call call = false) t'.2)).
  intros [name permissions] t2 _.
  apply (for_each_invariant (λ t', Forall (λ call, guarded_call call = false) t'.2)).
  intros perm t3 _. apply Hedit.
Qed.
End quiet_calls.

Lemma declared_password_is_Some (users : list SnapshotUser) username :
  username ∈ su_username <$> users → is_Some (declared_password users username).
Proof.
  induction users as [|user users IH]; cbn.
  - by intros ?%elem_of_nil.
  - intros Hin. destruct (decide (su_username user = username)); [by eexists|].
    apply IH. apply elem_of_cons in Hin as [?|?]; [congruence|done].
Qed.

(** After a load the store holds every user the snapshot lists. *)
Lemma load_storage_declared (data : Snapshot) (st : Store) username :
  username ∈ su_username <$> data_users data
  ∨ username ∈ su_username <$> default [] (data_pending_users data) →
  username ∈ dom (st_users (load_storage data st)).
Proof.
  intros Hdeclared. apply elem_of_dom. rewrite load_storage_users.
  destruct (st_users st !! username) as [u|]; [by eexists|].
  destruct (declared_password (data_users data) username) as [password|] eqn:Husers;
    [by eexists|].
  destruct Hdeclared as [Hin|Hin].
  - apply declared_password_is_Some in Hin. rewrite Husers in Hin. by destruct Hin.
  - apply declared_password_is_Some in Hin as [password ->]. by eexists.
Qed.

(** After a load every declared group holds the members it declares,
    when they all exist. *)
Lemma load_storage_attached (data : Snapshot) (st : Store) group members member :
  members_exist data st →
  (group, members) ∈ data_groups data → member ∈ members →
  member ∈ store_members (load_storage data st) group.
Proof.
  intros Hexist Hin Hmember.
  set (sa := load_users (pending_users st) (data_users data) st).
  unfold store_members. rewrite load_storage_groups. fold sa.
  destruct (load_groups_attaches (data_groups data) sa group members Hin)
    as [_ Hattached].
  apply Hattached; [done|].
  assert (st_users (load_groups (data_groups data) sa) = st_users sa) as ->
    by apply load_groups_rest.
  destruct (Hexist group members Hin) as [_ Husers].
  destruct (Husers member Hmember) as [Hstore|Hdeclared].
  - by apply load_users_dom.
  - apply load_users_declared; [apply store_pending_users_dom|done].
Qed.

Lemma members_exist_pending (data : Snapshot) (st : Store) :
  members_exist data st → pending_members_exist data st.
Proof.
  intros Hexist group members member Hin Hmember _.
  by apply (Hexist group members Hin).
Qed.

(** X24: a second [load] of a snapshot whose groups each declare a
    member, all of them users of the store or listed among the users of
    the snapshot, finds every guard closed: it registers and approves
    nobody, creates no group and adds no member, so that all it calls are
    [set_user_admin], the two [edit_..._permission] and
    [set_allow_register]; these leave the store as the first load left
    it. *)
Theorem load_again_calls (data : Snapshot) (st : Store) :
  members_exist data st →
  Forall (λ call, guarded_call call = false) (load_calls data (load_storage data st))
  ∧ load_storage data (load_storage data st) = load_storage data st.
Proof.
  intros Hexist. split; [|by apply load_again, members_exist_pending].
  set (s1 := load_storage data st).
  set (pending := pending_users s1).
  set (declared := default [] (data_pending_users data)).
  unfold load_calls, load_storage.
  change (pending_users ((s1, []) : Traced Store)) with pending.
  fold declared.
  set (ta := load_users pending (data_users data) ((s1, []) : Traced Store)).
  destruct (load_users_quiet pending (data_users data) (su_username <$> declared)
              ((s1, []) : Traced Store)) as (Hlisted & Hknown & Hquiet).
  { apply store_pending_listed. }
  { intros name Hin. apply load_storage_declared. by left. }
  { intros name Hin. apply load_storage_declared. by right. }
  { apply Forall_nil_2. }
  fold ta in Hlisted, Hknown, Hquiet.
  assert (st_groups ta.1 = st_groups s1) as Hgroups.
  { unfold ta. rewrite load_users_traced. apply load_users_rest. }
  assert (load_groups (data_groups data) ta = ta) as ->.
  { unfold load_groups. apply for_each_id. intros [group members] Hin.
    destruct (Hexist group members Hin) as [Hmembers _].
    apply load_group_quiet; [done|]. intros member Hmember.
    unfold store_members. rewrite Hgroups.
    by apply (load_storage_attached data st group members). }
  assert (load_pending_users pending declared ta = ta) as ->.
  { unfold load_pending_users. apply for_each_id. intros user Hin.
    apply load_pending_user_quiet; [done|].
    by apply Hknown, list_elem_of_fmap_2. }
  apply quiet_traced; [done|].
  rewrite load_user_permissions_shape.
  apply load_permissions_quiet; [intros; by apply quiet_traced|].
  rewrite load_group_permissions_shape.
  apply load_permissions_quiet; [intros; by apply quiet_traced|].
  done.
Qed.

Lemma team_snapshot_members_exist : members_exist team_snapshot pending_store.
Proof.
  intros group members [= -> ->]%list_elem_of_singleton. split; [done|].
  intros member Hmember.
  rewrite !elem_of_cons, elem_of_nil in Hmember.
  destruct Hmember as [->|[->|[->|[]]]].
  - left. apply (bool_decide_unpack _). by vm_compute.
  - left. apply (bool_decide_unpack _). by vm_compute.
  - right. apply (bool_decide_unpack _). by vm_compute.
Qed.

Lemma load_again_calls_witness :
  members_exist team_snapshot pending_store
  ∧ ("eve" ∈ pending_users (load_storage team_snapshot pending_store)
     ∧ load_calls team_snapshot (load_storage team_snapshot pending_store)
       = [ SetUserAdmin "amy" true; SetUserAdmin "bob" false;
           EditGroupPermission "foo" "dev" "read" true;
           EditUserPermission "foo" "bob" "read" true;
           EditUserPermission "foo" "bob" "write" true;
           SetAllowRegister true ])
  ∧ Forall (λ call, guarded_call call = false)
      (load_calls team_snapshot (load_storage team_snapshot pending_store))
  ∧ load_storage team_snapshot (load_storage team_snapshot pending_store)
    = load_storage team_snapshot pending_store.
Proof.
  split; [exact team_snapshot_members_exist|]. split.
  - split; [apply (bool_decide_unpack _)|]; by vm_compute.
  - exact (load_again_calls team_snapshot pending_store team_snapshot_members_exist).
Defined.
